(** * Milk-yield dashboard: farm-name anonymisation and yield aggregation

    A shallow embedding of the computational core of [milking_streamlit.py]:
    - [anonymize_farm_name] and its SHA-256 keyed table,
    - [build_farm_alias_maps], the alias directory,
    - [farm_yield_summary] and [animal_yield_summary], the SQL/pandas
      aggregation pipeline, over an explicit model of the two tables.

    How the program's data is read:
    - a [str] is the [string] of its UTF-8 bytes, [None] is an [option];
    - the tables are lists of rows, in the order of the scan; the text of
      a [record_date] is the ISO text of a [date] record, a [yield_value]
      is a binary64 ([float]), [SUM] adds the values in the order of the
      rows;
    - the queries are run by SQLite 3.40, whose [long double] is the x87
      format;
    - [date.today()] is an argument of the two summaries;
    - a Python exception is [None]. *)

From Stdlib Require Import ZArith NArith List Ascii String Floats Lia Bool.
From stdpp Require Import base tactics option list gmap strings pretty sorting.

Local Open Scope string_scope.

(** ** SHA-256 (FIPS 180-4), as computed by [hashlib.sha256(..).hexdigest()] *)

Module Sha256.
Local Open Scope N_scope.

Definition mask32 : N := 0xFFFFFFFF.
Definition w32 (x : N) : N := N.land x mask32.
Definition add32 (x y : N) : N := w32 (x + y).
Definition rotr (n x : N) : N :=
  N.lor (N.shiftr x n) (w32 (N.shiftl x (32 - n))).
Definition shr (n x : N) : N := N.shiftr x n.
Definition not32 (x : N) : N := N.lxor x mask32.

Definition Ch (x y z : N) : N := N.lxor (N.land x y) (N.land (not32 x) z).
Definition Maj (x y z : N) : N :=
  N.lxor (N.lxor (N.land x y) (N.land x z)) (N.land y z).
Definition bsig0 (x : N) : N := N.lxor (N.lxor (rotr 2 x) (rotr 13 x)) (rotr 22 x).
Definition bsig1 (x : N) : N := N.lxor (N.lxor (rotr 6 x) (rotr 11 x)) (rotr 25 x).
Definition ssig0 (x : N) : N := N.lxor (N.lxor (rotr 7 x) (rotr 18 x)) (shr 3 x).
Definition ssig1 (x : N) : N := N.lxor (N.lxor (rotr 17 x) (rotr 19 x)) (shr 10 x).

(** One hexadecimal digit, [None] for any other character. *)
Definition hex_value (c : ascii) : option N :=
  let n := N_of_ascii c in
  if (48 <=? n) && (n <=? 57) then Some (n - 48)
  else if (97 <=? n) && (n <=? 102) then Some (n - 87)
  else None.

(** The 32-bit words spelled by a text of hexadecimal digits, eight digits
    a word; other characters separate nothing and are skipped. *)
Fixpoint hex_words (s : string) (acc : N) (digits : nat) : list N :=
  match s with
  | EmptyString => []
  | String c s' =>
      match hex_value c with
      | None => hex_words s' acc digits
      | Some d =>
          let acc := 16 * acc + d in
          match digits with
          | 7%nat => acc :: hex_words s' 0 0
          | _ => hex_words s' acc (S digits)
          end
      end
  end.

(** The round constants K_0 .. K_63 (FIPS 180-4, section 4.2.2). *)
Definition K : list N :=
  hex_words
    "428a2f98 71374491 b5c0fbcf e9b5dba5 3956c25b 59f111f1 923f82a4 ab1c5ed5
     d807aa98 12835b01 243185be 550c7dc3 72be5d74 80deb1fe 9bdc06a7 c19bf174
     e49b69c1 efbe4786 0fc19dc6 240ca1cc 2de92c6f 4a7484aa 5cb0a9dc 76f988da
     983e5152 a831c66d b00327c8 bf597fc7 c6e00bf3 d5a79147 06ca6351 14292967
     27b70a85 2e1b2138 4d2c6dfc 53380d13 650a7354 766a0abb 81c2c92e 92722c85
     a2bfe8a1 a81a664b c24b8b70 c76c51a3 d192e819 d6990624 f40e3585 106aa070
     19a4c116 1e376c08 2748774c 34b0bcb5 391c0cb3 4ed8aa4a 5b9cca4f 682e6ff3
     748f82ee 78a5636f 84c87814 8cc70208 90befffa a4506ceb bef9a3f7 c67178f2"
    0 0.

(** Big-endian encoding of [x] on [n] bytes. *)
Fixpoint be_bytes (n : nat) (x : N) : list N :=
  match n with
  | O => []
  | S n' => N.land (N.shiftr x (8 * N.of_nat n')) 0xFF :: be_bytes n' x
  end.

(** Padding: a [1] bit, zero bits up to 448 mod 512, the bit length on 64 bits. *)
Definition pad (msg : list N) : list N :=
  let len := N.of_nat (length msg) in
  let zeros := N.to_nat ((119 - len mod 64) mod 64) in
  msg ++ 0x80 :: repeat 0 zeros ++ be_bytes 8 (8 * len).

Fixpoint words (fuel : nat) (bs : list N) : list N :=
  match fuel, bs with
  | S f, b0 :: b1 :: b2 :: b3 :: rest =>
      (N.shiftl b0 24 + N.shiftl b1 16 + N.shiftl b2 8 + b3) :: words f rest
  | _, _ => []
  end.

Fixpoint blocks (fuel : nat) (ws : list N) : list (list N) :=
  match fuel, ws with
  | S f, _ :: _ => firstn 16 ws :: blocks f (skipn 16 ws)
  | _, _ => []
  end.

(** Message schedule: [w] holds W_0 .. W_{t-1}; extend it [n] times. *)
Fixpoint schedule (n : nat) (w : list N) : list N :=
  match n with
  | O => w
  | S n' =>
      let t := length w in
      let at_ (k : nat) := nth (t - k) w 0 in
      schedule n'
        (w ++ [add32 (add32 (ssig1 (at_ 2%nat)) (at_ 7%nat))
                     (add32 (ssig0 (at_ 15%nat)) (at_ 16%nat))])
  end.

Record regs := Regs { ra : N; rb : N; rc : N; rd : N;
                      re : N; rf : N; rg : N; rh : N }.

Definition round (s : regs) (kw : N * N) : regs :=
  let '(k, w) := kw in
  let t1 := add32 (add32 (add32 (add32 (rh s) (bsig1 (re s)))
                                (Ch (re s) (rf s) (rg s))) k) w in
  let t2 := add32 (bsig0 (ra s)) (Maj (ra s) (rb s) (rc s)) in
  Regs (add32 t1 t2) (ra s) (rb s) (rc s) (add32 (rd s) t1) (re s) (rf s) (rg s).

Definition compress (h : regs) (block : list N) : regs :=
  let w := schedule 48 block in
  let s := fold_left round (combine K w) h in
  Regs (add32 (ra h) (ra s)) (add32 (rb h) (rb s)) (add32 (rc h) (rc s))
       (add32 (rd h) (rd s)) (add32 (re h) (re s)) (add32 (rf h) (rf s))
       (add32 (rg h) (rg s)) (add32 (rh h) (rh s)).

Definition init : regs :=
  Regs 0x6a09e667 0xbb67ae85 0x3c6ef372 0xa54ff53a
       0x510e527f 0x9b05688c 0x1f83d9ab 0x5be0cd19.

Definition digest (msg : list N) : list N :=
  let p := pad msg in
  let ws := words (length p) p in
  let s := fold_left compress (blocks (length ws) ws) init in
  flat_map (be_bytes 4)
    [ra s; rb s; rc s; rd s; re s; rf s; rg s; rh s].

Definition hex_digit (x : N) : ascii :=
  ascii_of_N (if x <? 10 then 48 + x else 87 + x).

Fixpoint hex (bs : list N) : string :=
  match bs with
  | [] => EmptyString
  | b :: rest =>
      String (hex_digit (N.shiftr b 4)) (String (hex_digit (N.land b 0xF)) (hex rest))
  end.

Definition bytes_of_string (s : string) : list N :=
  map N_of_ascii (list_ascii_of_string s).

(** [hashlib.sha256(bytes).hexdigest()] *)
Definition hexdigest (s : string) : string := hex (digest (bytes_of_string s)).
End Sha256.

(** ** Farm-name anonymisation *)

Module Anonymizer.
(** A Python [str] is modelled by its UTF-8 encoding, so that
    [s.encode("utf-8")] is the byte sequence of the [string] itself. *)

Definition is_ascii (c : ascii) : bool := (N_of_ascii c <? 128)%N.

Definition ascii_only (s : string) : bool :=
  forallb is_ascii (list_ascii_of_string s).

Definition lower_ascii (c : ascii) : ascii :=
  let n := N_of_ascii c in
  if ((65 <=? n) && (n <=? 90))%N then ascii_of_N (n + 32) else c.

Fixpoint map_string (f : ascii -> ascii) (s : string) : string :=
  match s with
  | EmptyString => EmptyString
  | String c s' => String (f c) (map_string f s')
  end.

(** [s or ""] for an argument that may be [None]. *)
Definition or_empty (s : option string) : string := default "" s.

Section WithCaseTable.
(** [str.lower] on text that is not pure ASCII follows the Unicode case
    tables, which are no part of the program; they are a parameter. *)
Variable unicode_lower : string -> string.

Definition lower (s : string) : string :=
  if ascii_only s then map_string lower_ascii s else unicode_lower s.

Definition PROTECTED_HASH_TO_ALIAS : gmap string string :=
  <["82b7a67e7bd24e71bbaf80e360039b7fed7805b11a1b6f35c3926c9c9812c9fd" := "K-farm"]>
  (<["687d0aa07ed9519f1a55d848b562e29044a742a7d6daa44a273735ccb4fb8591" := "J-farm"]>
   ∅).

Definition _sha256_lower (s : option string) : string :=
  Sha256.hexdigest (lower (or_empty s)).

Definition anonymize_farm_name (actual_name : option string) : string :=
  let h := _sha256_lower (Some (or_empty actual_name)) in
  default (or_empty actual_name) (PROTECTED_HASH_TO_ALIAS !! h).
End WithCaseTable.
End Anonymizer.

(** ** Calendar dates, as [datetime.date] computes with them *)

Module Calendar.
Local Open Scope Z_scope.

(** A date as its ISO text [YYYY-MM-DD] spells it. *)
Record date := mkDate { year : Z; month : Z; day : Z }.

Global Instance date_eq_dec : EqDecision date.
Proof. solve_decision. Defined.

Definition _DAYS_IN_MONTH : list Z :=
  [-1; 31; 28; 31; 30; 31; 30; 31; 31; 30; 31; 30; 31].
Definition _DAYS_BEFORE_MONTH : list Z :=
  [-1; 0; 31; 59; 90; 120; 151; 181; 212; 243; 273; 304; 334].

Definition _is_leap (y : Z) : bool :=
  (y mod 4 =? 0) && (negb (y mod 100 =? 0) || (y mod 400 =? 0)).

Definition _days_before_year (year : Z) : Z :=
  let y := year - 1 in
  y * 365 + y / 4 - y / 100 + y / 400.

Definition _days_in_month (year month : Z) : Z :=
  if (month =? 2) && _is_leap year then 29
  else nth (Z.to_nat month) _DAYS_IN_MONTH 0.

Definition _days_before_month (year month : Z) : Z :=
  nth (Z.to_nat month) _DAYS_BEFORE_MONTH 0
  + (if (2 <? month) && _is_leap year then 1 else 0).

Definition _ymd2ord (year month day : Z) : Z :=
  _days_before_year year + _days_before_month year month + day.

Definition _DI400Y : Z := 146097.
Definition _DI100Y : Z := 36524.
Definition _DI4Y : Z := 1461.
Definition _MAXORDINAL : Z := 3652059.

Definition _ord2ymd (n : Z) : date :=
  let n := n - 1 in
  let n400 := n / _DI400Y in
  let n := n mod _DI400Y in
  let year := n400 * 400 + 1 in
  let n100 := n / _DI100Y in
  let n := n mod _DI100Y in
  let n4 := n / _DI4Y in
  let n := n mod _DI4Y in
  let n1 := n / 365 in
  let n := n mod 365 in
  let year := year + n100 * 100 + n4 * 4 + n1 in
  if (n1 =? 4) || (n100 =? 4) then mkDate (year - 1) 12 31
  else
    let leapyear := (n1 =? 3) && (negb (n4 =? 24) || (n100 =? 3)) in
    let month := Z.shiftr (n + 50) 5 in
    let preceding :=
      nth (Z.to_nat month) _DAYS_BEFORE_MONTH 0
      + (if (2 <? month) && leapyear then 1 else 0) in
    let '(month, preceding) :=
      if n <? preceding then
        (month - 1,
         preceding - (nth (Z.to_nat (month - 1)) _DAYS_IN_MONTH 0
                      + (if (month - 1 =? 2) && leapyear then 1 else 0)))
      else (month, preceding) in
    mkDate year month (n - preceding + 1).

(** The dates [datetime.date] can hold (MINYEAR = 1, MAXYEAR = 9999). *)
Definition valid_date (d : date) : bool :=
  (1 <=? year d) && (year d <=? 9999)
  && (1 <=? month d) && (month d <=? 12)
  && (1 <=? day d) && (day d <=? _days_in_month (year d) (month d)).

Definition toordinal (d : date) : Z := _ymd2ord (year d) (month d) (day d).

(** [d - timedelta(days=n)]: [OverflowError] outside 1 .. _MAXORDINAL. *)
Definition sub_days (d : date) (n : Z) : option date :=
  let o := toordinal d - n in
  if (0 <? o) && (o <=? _MAXORDINAL) then Some (_ord2ymd o) else None.

(** Order of the ISO texts (fixed width, zero padded): lexicographic. *)
Definition date_ltb (a b : date) : bool :=
  (year a <? year b)
  || ((year a =? year b)
      && ((month a <? month b) || ((month a =? month b) && (day a <? day b)))).
Definition date_leb (a b : date) : bool := negb (date_ltb b a).

(** [strftime('%Y-%m', d)]: the calendar month of a date. *)
Definition ym : Type := Z * Z.
Definition month_of (d : date) : ym := (year d, month d).
Definition ym_ltb (a b : ym) : bool :=
  (a.1 <? b.1) || ((a.1 =? b.1) && (a.2 <? b.2)).
End Calendar.

(** ** The two tables and the SQL operators the queries use *)

Module Storage.
Import Calendar.

Record animal := mkAnimal {
  a_ear_tag : string;
  a_birth_date : option date;
  a_farm_name : option string }.

(** [record_date] holds a calendar date; [yield_value] is a binary64. *)
Record milk_yield := mkYield {
  m_ear_tag : string;
  record_date : date;
  record_year : Z;
  yield_value : float }.

Record database := mkDb {
  animals : list animal;
  milk_yields : list milk_yield }.

Section Keys.
Context {K : Type} (ltb : K -> K -> bool).

(** Insertion into a strictly ascending list; an equal key is kept once. *)
Fixpoint insert_key (k : K) (l : list K) : list K :=
  match l with
  | [] => [k]
  | x :: l' =>
      if ltb k x then k :: l
      else if ltb x k then x :: insert_key k l'
      else l
  end.

(** The keys of [SELECT DISTINCT k .. ORDER BY k] and of
    [GROUP BY k ORDER BY k]. *)
Definition distinct_sorted (l : list K) : list K := foldr insert_key [] l.
End Keys.

(** [COUNT(DISTINCT x)] *)
Definition count_distinct {A} `{EqDecision A} (l : list A) : nat :=
  length (remove_dups l).

(** [SUM(x)] over binary64 values: [NULL] on no row, else the running sum. *)
Definition sql_sum (l : list float) : option float :=
  match l with
  | [] => None
  | _ => Some (fold_left PrimFloat.add l 0%float)
  end.

(** [AVG(x)] *)
Definition sql_avg (l : list float) : option float :=
  s ← sql_sum l;
  Some (s / PrimFloat.of_uint63 (Uint63.of_Z (Z.of_nat (length l))))%float.

Definition float_max (a b : float) : float := if (a <? b)%float then b else a.
Definition float_min (a b : float) : float := if (b <? a)%float then b else a.

(** [MAX(x)], [MIN(x)] *)
Definition sql_max (l : list float) : option float :=
  match l with [] => None | x :: l' => Some (fold_left float_max l' x) end.
Definition sql_min (l : list float) : option float :=
  match l with [] => None | x :: l' => Some (fold_left float_min l' x) end.

(** [MIN(record_date)], [MAX(record_date)]: order of the texts. *)
Definition date_min (a b : date) : date := if date_ltb b a then b else a.
Definition date_max (a b : date) : date := if date_ltb a b then b else a.
Definition sql_min_date (l : list date) : option date :=
  match l with [] => None | x :: l' => Some (fold_left date_min l' x) end.
Definition sql_max_date (l : list date) : option date :=
  match l with [] => None | x :: l' => Some (fold_left date_max l' x) end.

(** The exact value [m * 2^e] of a finite binary64, as [(m, e)]. *)
Definition exact (x : float) : option (Z * Z) :=
  match Prim2SF x with
  | S754_zero _ => Some (0, 0)%Z
  | S754_finite sg m e => Some (if sg then Z.neg m else Z.pos m, e)
  | _ => None
  end.

(** *** [ROUND(x, 1)]

    SQLite (the 3.40 line) rounds in [roundFunc] by printing the value
    with its own [printf], format ["%.1f"], and reading the text back with
    [sqlite3AtoF]. Both compute in [long double], here the x87 format
    with its significand of 64 bits: a value is the exact fraction
    [(n, d)], [0 < d], and every operation is followed by the rounding to
    64 bits, to the nearest, a tie to the even significand. *)

Definition fraction : Type := Z * Z.

Definition pow2 (k : Z) : Z := (2 ^ Z.max 0 k)%Z.

(** The nearest to [n / d] of the values with a significand of [p] bits;
    the exponent is not bounded. *)
Definition round_sig (p : Z) (q : fraction) : fraction :=
  let '(n, d) := q in
  if (n =? 0)%Z then (0, 1)%Z
  else
    let a := Z.abs n in
    let e0 := (Z.log2 a - Z.log2 d)%Z in
    (* 2^e <= a / d < 2^(e + 1) *)
    let e := if (a * pow2 (- e0) <? d * pow2 e0)%Z then (e0 - 1)%Z else e0 in
    let sh := (e - p + 1)%Z in
    let num := (a * pow2 (- sh))%Z in
    let den := (d * pow2 sh)%Z in
    let fl := (num / den)%Z in
    let r := (num mod den)%Z in
    let m := if ((den <? 2 * r) || ((den =? 2 * r) && Z.odd fl))%Z
             then (fl + 1)%Z else fl in
    (Z.sgn n * m * pow2 sh, pow2 (- sh))%Z.

Definition fadd (a b : fraction) : fraction := (a.1 * b.2 + b.1 * a.2, a.2 * b.2)%Z.
Definition fsub (a b : fraction) : fraction := (a.1 * b.2 - b.1 * a.2, a.2 * b.2)%Z.
Definition fmul (a b : fraction) : fraction := (a.1 * b.1, a.2 * b.2)%Z.
(** [a / b] for [0 < b] *)
Definition fdiv (a b : fraction) : fraction := (a.1 * b.2, a.2 * b.1)%Z.
Definition flt (a b : fraction) : bool := (a.1 * b.2 <? b.1 * a.2)%Z.
Definition fle (a b : fraction) : bool := (a.1 * b.2 <=? b.1 * a.2)%Z.

Definition ld_add (a b : fraction) : fraction := round_sig 64 (fadd a b).
Definition ld_sub (a b : fraction) : fraction := round_sig 64 (fsub a b).
Definition ld_mul (a b : fraction) : fraction := round_sig 64 (fmul a b).
Definition ld_div (a b : fraction) : fraction := round_sig 64 (fdiv a b).

(** A finite binary64 as a fraction. *)
Definition of_double (x : float) : fraction :=
  match exact x with
  | Some (m, e) => (m * pow2 e, pow2 (- e))%Z
  | None => (0, 1)%Z
  end.

(** The conversion to [double]: to 53 bits, to fewer below 2^-1022, to an
    infinity from 2^1024 on. *)
Definition to_double (q : fraction) : float :=
  let '(n, d) := q in
  if (n =? 0)%Z then 0%float
  else
    let a := Z.abs n in
    let e0 := (Z.log2 a - Z.log2 d)%Z in
    let e := if (a * pow2 (- e0) <? d * pow2 e0)%Z then (e0 - 1)%Z else e0 in
    let sh := Z.max (e - 52) (-1074) in
    let num := (a * pow2 (- sh))%Z in
    let den := (d * pow2 sh)%Z in
    let fl := (num / den)%Z in
    let r := (num mod den)%Z in
    let m := if ((den <? 2 * r) || ((den =? 2 * r) && Z.odd fl))%Z
             then (fl + 1)%Z else fl in
    let f := Z.ldexp (PrimFloat.of_uint63 (Uint63.of_Z m)) sh in
    if (n <? 0)%Z then (- f)%float else f.

(** [-1023 + ((u >> 52) & 0x7ff)] on the bits [u] of a binary64. *)
Definition unbiased_exponent (x : float) : Z :=
  match Prim2SF x with
  | S754_finite _ m e => if (2 ^ 52 <=? Z.pos m)%Z then (e + 52)%Z else (-1023)%Z
  | S754_zero _ => (-1023)%Z
  | _ => 1024%Z
  end.

(** [et_getdigit]: the next digit of [val], of at most [cnt] significant
    ones. *)
Definition et_getdigit (st : fraction * Z) : ascii * (fraction * Z) :=
  let '(val, cnt) := st in
  if (cnt <=? 0)%Z then ("0"%char, st)
  else
    let digit := (val.1 / val.2)%Z in
    (ascii_of_N (Z.to_N (digit + 48)),
     (ld_mul (ld_sub val (digit, 1%Z)) (10, 1)%Z, (cnt - 1)%Z)).

Fixpoint et_digits (n : nat) (st : fraction * Z) : string * (fraction * Z) :=
  match n with
  | O => ("", st)
  | S n' =>
      let '(c, st) := et_getdigit st in
      let '(s, st) := et_digits n' st in
      (String c s, st)
  end.

(** [while( realvalue>=step*scale && exp<=350 ){ scale *= step; exp+=k; }];
    the test on [exp] ends it within 352 turns. *)
Fixpoint scale_up (fuel : nat) (step : fraction) (k : Z)
    (realvalue scale : fraction) (exp : Z) : fraction * Z :=
  match fuel with
  | O => (scale, exp)
  | S fuel' =>
      if fle (ld_mul step scale) realvalue && (exp <=? 350)%Z
      then scale_up fuel' step k realvalue (ld_mul scale step) (exp + k)%Z
      else (scale, exp)
  end.

(** [while( realvalue<bound ){ realvalue *= factor; exp-=k; }] *)
Fixpoint scale_down (fuel : nat) (bound factor : fraction) (k : Z)
    (realvalue : fraction) (exp : Z) : fraction * Z :=
  match fuel with
  | O => (realvalue, exp)
  | S fuel' =>
      if flt realvalue bound
      then scale_down fuel' bound factor k (ld_mul realvalue factor) (exp - k)%Z
      else (realvalue, exp)
  end.

(** The constants of [printf.c], binary64 literals. *)
Definition arRound_1 : float := 0x1.999999999999ap-5.     (* 5.0e-02 *)
Definition c_3e_16 : float := 0x1.59e05f1e2674dp-52.      (* 3e-16 *)
Definition c_1e100 : float := 0x1.249ad2594c37dp+332.     (* 1e100 *)
Definition c_1e10 : float := 10000000000.                 (* 1e10 *)
Definition c_1e_8 : float := 0x1.5798ee2308c3ap-27.       (* 1e-8 *)
Definition c_1e8 : float := 100000000.                    (* 1e8 *)
Definition c_1e308 : float := 0x1.1ccf385ebc8ap+1023.     (* 1.0e+308 *)

(** "Normalize realvalue to within 10.0 > realvalue >= 1.0": the value
    and its decimal exponent. A positive value of at least 1e-320 is
    brought up to 1 within the turns given. *)
Definition normalize_realvalue (realvalue : fraction) : fraction * Z :=
  if flt (0, 1)%Z realvalue then
    let '(scale, exp) := scale_up 352 (of_double c_1e100) 100 realvalue (1, 1)%Z 0 in
    let '(scale, exp) := scale_up 352 (of_double c_1e10) 10 realvalue scale exp in
    let '(scale, exp) := scale_up 352 (10, 1)%Z 1 realvalue scale exp in
    let realvalue := ld_div realvalue scale in
    let '(realvalue, exp) :=
      scale_down 64 (of_double c_1e_8) (of_double c_1e8) 8 realvalue exp in
    scale_down 64 (1, 1)%Z (10, 1)%Z 1 realvalue exp
  else (realvalue, 0%Z).

Definition zero_digits (n : nat) : string := fold_right String "" (repeat "0"%char n).

(** [sqlite3_mprintf("%.1f", r)] for a finite [r]: the case [etFLOAT] of
    [sqlite3_str_vappendf] with precision 1. At most 16 significant digits
    are computed, the following ones are 0. *)
Definition sqlite_printf_1f (r : float) : string :=
  let v := of_double r in
  let prefix := if (v.1 <? 0)%Z then "-" else "" in
  let realvalue : fraction := (Z.abs v.1, v.2) in
  let rounder :=
    if (1 + Z.quot (unbiased_exponent r) 3 <? 15)%Z
    then round_sig 53 (ld_add (of_double arRound_1) (ld_mul realvalue (of_double c_3e_16)))
    else of_double arRound_1 in
  let realvalue := ld_add realvalue rounder in
  let '(realvalue, exp) := normalize_realvalue realvalue in
  if (350 <? exp)%Z then prefix ++ "Inf"
  else
    let st := (realvalue, 16%Z) in
    let '(int_part, st) :=
      if (exp <? 0)%Z then ("0", st) else et_digits (Z.to_nat (exp + 1)) st in
    let nz := if (exp <? 0)%Z then (- exp - 1)%Z else 0%Z in
    let '(frac_part, _) := et_digits (Z.to_nat (1 - nz)) st in
    prefix ++ int_part ++ "." ++ zero_digits (Z.to_nat nz) ++ frac_part.

Definition LARGEST_INT64 : Z := 9223372036854775807.

Definition isdigit (c : ascii) : bool :=
  let n := Z.of_N (N_of_ascii c) in (48 <=? n)%Z && (n <=? 57)%Z.
Definition digit_of (c : ascii) : Z := (Z.of_N (N_of_ascii c) - 48)%Z.

(** The digits before the point: the significand [s], and the number [d]
    of digits left out once [s] is large. *)
Fixpoint atof_integer (z : string) (s d : Z) : string * Z * Z :=
  match z with
  | String c z' =>
      if isdigit c then
        if ((LARGEST_INT64 - 9) / 10 <=? s)%Z then atof_integer z' s (d + 1)%Z
        else atof_integer z' (s * 10 + digit_of c)%Z d
      else (z, s, d)
  | EmptyString => (z, s, d)
  end.

(** The digits after the point. *)
Fixpoint atof_fraction (z : string) (s d : Z) : Z * Z :=
  match z with
  | String c z' =>
      if isdigit c then
        if (s <? (LARGEST_INT64 - 9) / 10)%Z
        then atof_fraction z' (s * 10 + digit_of c)%Z (d - 1)%Z
        else atof_fraction z' s d
      else (s, d)
  | EmptyString => (s, d)
  end.

(** "Attempt to reduce exponent." *)
Fixpoint atof_reduce (fuel : nat) (esign s e : Z) : Z * Z :=
  match fuel with
  | O => (s, e)
  | S fuel' =>
      if (0 <? e)%Z then
        if (0 <? esign)%Z then
          if (LARGEST_INT64 / 10 <=? s)%Z then (s, e)
          else atof_reduce fuel' esign (s * 10)%Z (e - 1)%Z
        else
          if negb (s mod 10 =? 0)%Z then (s, e)
          else atof_reduce fuel' esign (s / 10)%Z (e - 1)%Z
      else (s, e)
  end.

(** [sqlite3Pow10]: 10^E by squaring, in [long double]. *)
Fixpoint pow10_loop (fuel : nat) (E : Z) (x r : fraction) : fraction :=
  match fuel with
  | O => r
  | S fuel' =>
      let r := if Z.odd E then ld_mul r x else r in
      let E := Z.shiftr E 1 in
      if (E =? 0)%Z then r else pow10_loop fuel' E (ld_mul x x) r
  end.
Definition sqlite3Pow10 (E : Z) : fraction := pow10_loop 64 E (10, 1)%Z (1, 1)%Z.

(** [sqlite3AtoF] on a text without an exponent part. *)
Definition sqlite3AtoF (z : string) : float :=
  let '(sign, z) :=
    match z with
    | String "-" z' => ((-1)%Z, z')
    | String "+" z' => (1%Z, z')
    | _ => (1%Z, z)
    end in
  let '(z, s, d) := atof_integer z 0 0 in
  let '(s, d) :=
    match z with
    | String "." z' => atof_fraction z' s d
    | _ => (s, d)
    end in
  let esign := if (d <? 0)%Z then (-1)%Z else 1%Z in
  let e := Z.abs d in
  if (s =? 0)%Z then (if (sign <? 0)%Z then (-0)%float else 0%float)
  else
    let '(s, e) := atof_reduce (Z.to_nat e) esign s e in
    let s := (sign * s)%Z in
    if (e =? 0)%Z then to_double (s, 1%Z)
    else if (307 <? e)%Z then
      if (e <? 342)%Z then
        let scale := sqlite3Pow10 (e - 308) in
        if (esign <? 0)%Z
        then (to_double (ld_div (s, 1%Z) scale) / c_1e308)%float
        else (to_double (ld_mul (s, 1%Z) scale) * c_1e308)%float
      else
        if (esign <? 0)%Z then (0 * to_double (s, 1%Z))%float
        else (infinity * to_double (s, 1%Z))%float
    else
      let scale := sqlite3Pow10 e in
      if (esign <? 0)%Z then to_double (ld_div (s, 1%Z) scale)
      else to_double (ld_mul (s, 1%Z) scale).

(** [ROUND(x, 1)]: [roundFunc] with [n = 1]. A value beyond 2^52 "has no
    fractional part so there is nothing to round". A NaN is no value of
    SQLite. *)
Definition sql_round1 (x : float) : float :=
  if ((x <? -4503599627370496) || (4503599627370496 <? x))%float then x
  else if is_nan x then x
  else sqlite3AtoF (sqlite_printf_1f x).

(** [m JOIN animals a ON m.ear_tag = a.ear_tag WHERE a.farm_name = ?] *)
Definition farm_rows (db : database) (farm : string) : list milk_yield :=
  m ← milk_yields db;
  a ← animals db;
  if bool_decide (m_ear_tag m = a_ear_tag a ∧ a_farm_name a = Some farm)
  then [m] else [].

(** [FROM milk_yield WHERE ear_tag = ?] *)
Definition animal_rows (db : database) (tag : string) : list milk_yield :=
  filter (λ m, m_ear_tag m = tag) (milk_yields db).

(** [.. AND record_date >= ?] *)
Definition since_rows (since : date) (rows : list milk_yield) : list milk_yield :=
  filter (λ m, date_leb since (record_date m) = true) rows.
End Storage.

(** ** The alias directory *)

Module AliasDirectory.
Import Storage Anonymizer.

(** The two dictionaries of [build_farm_alias_maps]; [alias_keys] is the
    insertion order of the keys of [alias_to_internal]. *)
Record maps := mkMaps {
  alias_to_internal : gmap string string;
  alias_keys : list string;
  internal_to_alias : gmap string string }.

Definition empty_maps : maps := mkMaps ∅ [] ∅.

(** [SELECT DISTINCT farm_name FROM animals
     WHERE COALESCE(farm_name,'') <> '' ORDER BY farm_name] *)
Definition farm_names (db : database) : list string :=
  distinct_sorted String.ltb
    (filter (λ s, s ≠ "") (map (λ a, default "" (a_farm_name a)) (animals db))).

(** [alias in alias_to_internal and alias_to_internal[alias] != actual] *)
Definition collides (a2i : gmap string string) (alias actual : string) : bool :=
  match a2i !! alias with
  | Some r => bool_decide (r ≠ actual)
  | None => false
  end.

(** [f"{base}-{i}"] *)
Definition suffixed (base : string) (i : nat) : string :=
  base +:+ "-" +:+ pretty i.

(** The [while] loop, run for at most [fuel] tests of its condition. *)
Fixpoint resolve (fuel : nat) (a2i : gmap string string)
    (actual base alias : string) (i : nat) : option string :=
  match fuel with
  | O => None
  | S fuel' =>
      if collides a2i alias actual
      then resolve fuel' a2i actual base (suffixed base i) (S i)
      else Some alias
  end.

(** [sorted(keys, key=..)], a stable sort. *)
Fixpoint insert_stable (key : string -> string) (x : string) (l : list string)
    : list string :=
  match l with
  | [] => [x]
  | y :: l' =>
      if String.ltb (key x) (key y) then x :: l else y :: insert_stable key x l'
  end.
Definition sorted_by (key : string -> string) (l : list string) : list string :=
  fold_left (λ acc x, insert_stable key x acc) l [].

Section WithCaseTable.
Variable unicode_lower : string -> string.

(** One turn of the [for] loop. The [while] loop cannot test its
    condition more often than there are keys, plus once. *)
Definition assign (st : maps) (actual : string) : option maps :=
  let alias := anonymize_farm_name unicode_lower (Some actual) in
  let base := if bool_decide (alias = "") then "" else alias in
  alias ← resolve (S (size (alias_to_internal st)))
             (alias_to_internal st) actual base alias 2;
  Some (mkMaps (<[alias := actual]> (alias_to_internal st))
               (if bool_decide (alias ∈ dom (alias_to_internal st))
                then alias_keys st else alias_keys st ++ [alias])
               (<[actual := alias]> (internal_to_alias st))).

Fixpoint build_loop (names : list string) (st : maps) : option maps :=
  match names with
  | [] => Some st
  | actual :: rest => st' ← assign st actual; build_loop rest st'
  end.

Definition build_farm_alias_maps (db : database)
    : option (list string * gmap string string * gmap string string) :=
  st ← build_loop (farm_names db) empty_maps;
  Some (sorted_by (lower unicode_lower) (alias_keys st),
        alias_to_internal st, internal_to_alias st).
End WithCaseTable.
End AliasDirectory.

(** ** The yield aggregator *)

Module Aggregator.
Import Calendar Storage.

Definition float_of_nat (n : nat) : float :=
  PrimFloat.of_uint63 (Uint63.of_Z (Z.of_nat n)).

(** [numpy.rint]: to the nearest integer, halves to the even one. *)
Definition rint (x : float) : float :=
  if (abs x <? 4503599627370496)%float then
    let r := (abs x + 4503599627370496 - 4503599627370496)%float in
    if get_sign x then (- r)%float else r
  else x.

(** [Series.round(1)]: scale, [rint], scale back. *)
Definition np_round1 (x : float) : float := (rint (x * 10) / 10)%float.

(** [Series.astype(int)] on binary64: refused on a non-finite value;
    [None] also stands for a value outside int64, where the cast is
    not specified. *)
Definition astype_int (x : float) : option Z :=
  match exact x with
  | Some (m, e) =>
      let v := (Z.sgn m * Z.shiftl (Z.abs m) e)%Z in
      if ((- 2 ^ 63 <=? v) && (v <? 2 ^ 63))%Z then Some v else None
  | None => None
  end.

Record farm_year := mkFarmYear {
  fy_year : Z; fy_liters : float; fy_days : nat; fy_cows : nat;
  fy_avg_daily : float }.

Record animal_year := mkAnimalYear {
  ay_year : Z; ay_liters : float; ay_days : nat; ay_avg_daily : float }.

Record trend := mkTrend { t_month : ym; t_liters : Z; t_sessions : Z }.

Record farm_summary := mkFarmSummary {
  fs_total : float; fs_days : nat;
  fs_year : list farm_year; fs_12mo : list trend }.

Record animal_stats := mkStats {
  avg_daily : option float; max_yield : option float; min_yield : option float }.

Record animal_summary := mkAnimalSummary {
  as_total : float; as_days : nat; as_duration : Z;
  as_year : list animal_year; as_12mo : list trend; as_stats : animal_stats }.

Definition sum_floats (l : list float) : float := fold_left PrimFloat.add l 0%float.

(** [COALESCE(SUM(yield_value), 0)] *)
Definition total_liters (rows : list milk_yield) : float :=
  default 0%float (sql_sum (map yield_value rows)).

(** [COUNT(DISTINCT record_date)] *)
Definition lactation_days (rows : list milk_yield) : nat :=
  count_distinct (map record_date rows).

Definition in_year (y : Z) (rows : list milk_yield) : list milk_yield :=
  filter (λ m, record_year m = y) rows.
Definition in_month (k : ym) (rows : list milk_yield) : list milk_yield :=
  filter (λ m, month_of (record_date m) = k) rows.

Definition years (rows : list milk_yield) : list Z :=
  distinct_sorted Z.ltb (map record_year rows).
Definition months (rows : list milk_yield) : list ym :=
  distinct_sorted ym_ltb (map (λ m, month_of (record_date m)) rows).

(** The per-year query of the farm scope, and its [avg_daily] column. *)
Definition farm_year_breakdown (rows : list milk_yield) : list farm_year :=
  map (λ y,
       let g := in_year y rows in
       let liters := sum_floats (map yield_value g) in
       let days := count_distinct (map record_date g) in
       let cows := count_distinct (map m_ear_tag g) in
       mkFarmYear y liters days cows
         (np_round1 (liters / float_of_nat days)))
      (years rows).

Definition animal_year_breakdown (rows : list milk_yield) : list animal_year :=
  map (λ y,
       let g := in_year y rows in
       let liters := sum_floats (map yield_value g) in
       let days := count_distinct (map record_date g) in
       mkAnimalYear y liters days (np_round1 (liters / float_of_nat days)))
      (years rows).

(** [SELECT strftime('%Y-%m',record_date) AS month, SUM(yield_value) ..
     GROUP BY month ORDER BY month] *)
Definition monthly_liters (rows : list milk_yield) : list (ym * float) :=
  map (λ k, (k, sum_floats (map yield_value (in_month k rows)))) (months rows).

(** [.. COUNT(DISTINCT m.ear_tag) AS sessions ..] *)
Definition monthly_cows (rows : list milk_yield) : list (ym * Z) :=
  map (λ k, (k, Z.of_nat (count_distinct (map m_ear_tag (in_month k rows)))))
      (months rows).

(** [.. COUNT( * ) AS sessions ..] *)
Definition monthly_records (rows : list milk_yield) : list (ym * Z) :=
  map (λ k, (k, Z.of_nat (length (in_month k rows)))) (months rows).

(** [df["liters"].round(0).astype(int)] *)
Definition round_liters (df : list (ym * float)) : option (list (ym * Z)) :=
  mapM (λ r, l ← astype_int (rint r.2); Some (r.1, l)) df.

(** [left.merge(right, on="month", how="left")]: every row of [left], in
    its order, once per row of [right] with its month, and with a missing
    value where there is none. *)
Definition merge_left (left right : list (ym * Z)) : list (ym * Z * option Z) :=
  r ← left;
  match filter (λ c, c.1 = r.1) right with
  | [] => [(r.1, r.2, None)]
  | cs => map (λ c, (r.1, r.2, Some c.2)) cs
  end.

(** [.fillna(0)] and [astype(int)] on the merged column. *)
Definition fill_sessions (df : list (ym * Z * option Z)) : list trend :=
  map (λ r, mkTrend r.1.1 r.1.2 (default 0%Z r.2)) df.

(** The trailing-12-month frame, from the two monthly queries. *)
Definition trend_frame (liters : list (ym * float)) (sessions : list (ym * Z))
    : option (list trend) :=
  match liters with
  | [] => Some []
  | _ => l ← round_liters liters; Some (fill_sessions (merge_left l sessions))
  end.

Definition farm_yield_summary (db : database) (today : date)
    (internal_farm_name : string) : option farm_summary :=
  let rows := farm_rows db internal_farm_name in
  let total := total_liters rows in
  let days := lactation_days rows in
  let df_year := farm_year_breakdown rows in
  since ← sub_days today 365;
  let recent := since_rows since rows in
  df_12mo ← trend_frame (monthly_liters recent) (monthly_cows recent);
  Some (mkFarmSummary total days df_year df_12mo).

Section WithTimestamps.
(** The days a [pandas.Timestamp] can hold depend on the version of pandas
    (1677-09-22 .. 2262-04-11 at its nanosecond resolution, more at the
    coarser ones); they are a parameter. *)
Variable representable : date -> bool.

(** [pd.to_datetime(x).date()]; [None] when it raises: on a missing value,
    on a text that is no date, on a date out of bounds. *)
Definition to_date (x : option date) : option date :=
  d ← x; if valid_date d && representable d then Some d else None.

Definition duration_days (rows : list milk_yield) (days : nat) : Z :=
  let mn := sql_min_date (map record_date rows) in
  let mx := sql_max_date (map record_date rows) in
  match to_date mn, to_date mx with
  | Some d0, Some d1 => (toordinal d1 - toordinal d0 + 1)%Z
  | _, _ => Z.of_nat days
  end.

Definition animal_stats_of (rows : list milk_yield) : animal_stats :=
  let ys := map yield_value rows in
  mkStats (sql_round1 <$> sql_avg ys) (sql_max ys) (sql_min ys).

Definition animal_yield_summary (db : database) (today : date)
    (ear_tag : string) : option animal_summary :=
  let rows := animal_rows db ear_tag in
  let total := total_liters rows in
  let days := lactation_days rows in
  let duration := duration_days rows days in
  let df_year := animal_year_breakdown rows in
  since ← sub_days today 365;
  let recent := since_rows since rows in
  df_12mo ← trend_frame (monthly_liters recent) (monthly_records recent);
  Some (mkAnimalSummary total days duration df_year df_12mo
          (animal_stats_of rows)).
End WithTimestamps.
End Aggregator.

(** ** The loaders and the selections of the page *)

Module Dashboard.
Import Calendar Storage Aggregator.

Section OrderBy.
Context {A K : Type} (ltb : K -> K -> bool) (key : A -> K).

(** Insertion behind the rows whose key is not greater. *)
Fixpoint insert_row (x : A) (l : list A) : list A :=
  match l with
  | [] => [x]
  | y :: l' => if ltb (key x) (key y) then x :: l else y :: insert_row x l'
  end.

(** [ORDER BY key]; rows with the same key stay in the order of the scan
    (SQL leaves their order open). *)
Definition order_by (l : list A) : list A :=
  fold_left (λ acc x, insert_row x acc) l [].
End OrderBy.

(** [SELECT ear_tag, birth_date FROM animals WHERE farm_name = ?
     ORDER BY ear_tag] *)
Definition load_animals (db : database) (internal_farm_name : string)
    : list (string * option date) :=
  order_by String.ltb fst
    (map (λ a, (a_ear_tag a, a_birth_date a))
       (filter (λ a, a_farm_name a = Some internal_farm_name) (animals db))).

Definition PICK_FARM : string := "-- pick a farm --".
Definition PICK_COW : string := "-- pick a cow --".

(** The options of the farm selector. *)
Definition farm_options (aliases : list string) : list string :=
  PICK_FARM :: aliases.

(** The farm the page works on: [None] when the script stops at the
    placeholder, else [alias_to_internal.get(farm_alias, "")]. *)
Definition farm_internal (alias_to_internal : gmap string string)
    (farm_alias : string) : option string :=
  if bool_decide (farm_alias = PICK_FARM) then None
  else Some (default "" (alias_to_internal !! farm_alias)).

(** The options of the cow selector. *)
Definition cow_options (df_animals : list (string * option date)) : list string :=
  PICK_COW :: map fst df_animals.

(** [df_animals.set_index("ear_tag").at[cow, "birth_date"]]: the birth date
    of the one row with that ear tag; [None] when there is no such row
    ([KeyError]) or more than one (no scalar, its truth value raises). *)
Definition birth_of (df_animals : list (string * option date)) (cow : string)
    : option (option date) :=
  match filter (λ r, r.1 = cow) df_animals with
  | [r] => Some r.2
  | _ => None
  end.

Section WithTimestamps.
Variable representable : date -> bool.

(** [((date.today() - pd.to_datetime(birth).date()).days // 30) if birth
     else "-"]: [Some None] is the dash, [None] an exception. *)
Definition age_months (today : date) (birth : option date) : option (option Z) :=
  match birth with
  | None => Some None
  | Some _ =>
      d ← to_date representable birth;
      Some (Some ((toordinal today - toordinal d) / 30)%Z)
  end.
End WithTimestamps.

(** [SELECT record_date AS Date, yield_value AS Liters FROM milk_yield
     WHERE ear_tag = ? AND record_date >= ? ORDER BY record_date], with
    [today - 180 days] for the bound; the frame before its litres are
    formatted. *)
Definition six_month_detail (db : database) (today : date) (cow : string)
    : option (list (date * float)) :=
  since ← sub_days today 180;
  Some (map (λ m, (record_date m, yield_value m))
          (order_by date_ltb record_date
             (since_rows since (animal_rows db cow)))).

(** The integer nearest to [n * 2^e], a tie to the even one: the rounding of
    [float.__format__] with a fixed number of decimals, which is exact on
    the value of the binary64. *)
Definition round_half_even (n e : Z) : Z :=
  if (0 <=? e)%Z then Z.shiftl n e
  else
    let d := Z.shiftl 1 (- e) in
    let q := (n / d)%Z in
    let r := (n mod d)%Z in
    if (2 * r <? d)%Z then q
    else if (d <? 2 * r)%Z then (q + 1)%Z
    else if Z.even q then q else (q + 1)%Z.

(** [format(x, ".1f")] on a binary64. *)
Definition format_1f (x : float) : string :=
  match Prim2SF x with
  | S754_nan => "nan"
  | S754_infinity sg => if sg then "-inf" else "inf"
  | S754_zero sg => (if sg then "-" else "") ++ "0.0"
  | S754_finite sg m e =>
      let t := round_half_even (10 * Z.pos m) e in
      (if sg then "-" else "")
      ++ pretty (Z.to_N (t / 10)) ++ "." ++ pretty (Z.to_N (t mod 10))
  end.

(** [f"{stats.get('avg_daily', 0):.1f}"], the third metric of the cow's
    header. The key is always in [stats]; its value is [None] when the
    average is [NULL], and [None] has no such format ([TypeError]). *)
Definition avg_daily_metric (stats : animal_stats) : option string :=
  x ← avg_daily stats; Some (format_1f x).

Section WithCaseTable.
Variable unicode_lower : string -> string.

(** The head of the page: the directory, the farm selector and the farm
    that a choice stands for. [None] is an exception, [Some None] the
    stop at the placeholder. *)
Definition selected_farm (db : database) (farm_alias : string)
    : option (option string) :=
  r ← AliasDirectory.build_farm_alias_maps unicode_lower db;
  Some (farm_internal r.1.2 farm_alias).
End WithCaseTable.
End Dashboard.

(** ** Notions the statements below use *)

(** Two dictionaries that invert each other. *)
Definition inverse (a2i i2a : gmap string string) : Prop :=
  forall a r, a2i !! a = Some r <-> i2a !! r = Some a.

(** [alias] is the first candidate for [base] that is no key of [a2i]:
    [base] itself, or [base-k] for the least [k >= 2] that is free. *)
Definition first_free (a2i : gmap string string) (base alias : string) : Prop :=
  a2i !! alias = None ∧
  (alias = base ∨
   exists k, 2 <= k ∧ alias = AliasDirectory.suffixed base k
             ∧ is_Some (a2i !! base)
             ∧ forall j, 2 <= j < k -> is_Some (a2i !! AliasDirectory.suffixed base j)).

(** What every turn of the loop of [build_farm_alias_maps] keeps: the
    dictionaries invert each other, and the candidate alias of every name
    that has an alias is in use. *)
Definition directory_inv (u : string -> string) (st : AliasDirectory.maps) : Prop :=
  inverse (AliasDirectory.alias_to_internal st) (AliasDirectory.internal_to_alias st)
  ∧ forall r, is_Some (AliasDirectory.internal_to_alias st !! r) ->
      is_Some (AliasDirectory.alias_to_internal st
                 !! Anonymizer.anonymize_farm_name u (Some r)).

(** The end of [_ord2ymd]: month and day of the [n]-th day (from 0) of a
    year, leap or not. *)
Definition month_day (n : Z) (leapyear : bool) : Z * Z :=
  let month := Z.shiftr (n + 50) 5 in
  let preceding :=
    (nth (Z.to_nat month) Calendar._DAYS_BEFORE_MONTH 0
     + (if (2 <? month) && leapyear then 1 else 0))%Z in
  let '(month, preceding) :=
    if (n <? preceding)%Z then
      (month - 1,
       preceding - (nth (Z.to_nat (month - 1)) Calendar._DAYS_IN_MONTH 0
                    + (if (month - 1 =? 2) && leapyear then 1 else 0)))%Z
    else (month, preceding) in
  (month, n - preceding + 1)%Z.

(** [month_day] gives a day of the calendar, the [n]-th of its year. *)
Definition month_day_ok (leapyear : bool) (n : Z) : bool :=
  let '(m, d) := month_day n leapyear in
  ((1 <=? m) && (m <=? 12) && (1 <=? d)
   && (d <=? (if (m =? 2) && leapyear then 29
              else nth (Z.to_nat m) Calendar._DAYS_IN_MONTH 0))
   && (nth (Z.to_nat m) Calendar._DAYS_BEFORE_MONTH 0
       + (if (2 <? m) && leapyear then 1 else 0) + d =? n + 1))%Z.

(** The farm of the first example: two animals, one record each on
    2024-01-15, of 10.0 and 12.5 litres. *)
Definition example_farm_db : Storage.database :=
  Storage.mkDb
    [Storage.mkAnimal "PH-101" None (Some "Rivera");
     Storage.mkAnimal "PH-102" None (Some "Rivera")]
    [Storage.mkYield "PH-101" (Calendar.mkDate 2024 1 15) 2024 10%float;
     Storage.mkYield "PH-102" (Calendar.mkDate 2024 1 15) 2024 12.5%float].

(** The animal of the second example: 5.0 litres on 2023-06-01 and 7.0
    litres on 2023-06-03. *)
Definition example_animal_db : Storage.database :=
  Storage.mkDb
    [Storage.mkAnimal "PH-201" None (Some "Rivera")]
    [Storage.mkYield "PH-201" (Calendar.mkDate 2023 6 1) 2023 5%float;
     Storage.mkYield "PH-201" (Calendar.mkDate 2023 6 3) 2023 7%float].

(** What a trend [t] is for the rows of a scope: the months, ascending, of
    the rows dated from [today - 365 days] on, where a row of the calendar
    is in the window if and only if it is at most 365 days old. *)
Definition window_trend_spec (today : Calendar.date)
    (rows : list Storage.milk_yield) (t : list Aggregator.trend) : Prop :=
  exists since,
    Calendar.sub_days today 365 = Some since
    ∧ Calendar.valid_date since = true
    ∧ Calendar.toordinal since = (Calendar.toordinal today - 365)%Z
    ∧ map Aggregator.t_month t = Aggregator.months (Storage.since_rows since rows)
    ∧ StronglySorted (λ a b, Calendar.ym_ltb a b = true) (map Aggregator.t_month t)
    ∧ (forall k, k ∈ map Aggregator.t_month t <->
         exists m, m ∈ rows
           ∧ Calendar.date_leb since (Storage.record_date m) = true
           ∧ Calendar.month_of (Storage.record_date m) = k)
    ∧ (forall m, Calendar.valid_date (Storage.record_date m) = true ->
         Calendar.date_leb since (Storage.record_date m) = true
         <-> (Calendar.toordinal today
              - Calendar.toordinal (Storage.record_date m) <= 365)%Z).

(** [alias_keys] lists the keys of [alias_to_internal], each once. *)
Definition keys_inv (st : AliasDirectory.maps) : Prop :=
  NoDup (AliasDirectory.alias_keys st)
  ∧ forall a, a ∈ AliasDirectory.alias_keys st
              <-> is_Some (AliasDirectory.alias_to_internal st !! a).

(** The farms of the directory example: two protected names, one of them
    beside the farm whose real name is its alias. *)
Definition example_directory_db : Storage.database :=
  Storage.mkDb
    [Storage.mkAnimal "PH-001" None (Some "magpantay");
     Storage.mkAnimal "PH-002" None (Some "K-farm");
     Storage.mkAnimal "PH-003" None (Some "Samabaco");
     Storage.mkAnimal "PH-004" None (Some "");
     Storage.mkAnimal "PH-005" None None;
     Storage.mkAnimal "PH-006" None (Some "K-farm")] [].

(** A herd with and without birth dates. *)
Definition example_herd_db : Storage.database :=
  Storage.mkDb
    [Storage.mkAnimal "PH-302" None (Some "Rivera");
     Storage.mkAnimal "PH-301" (Some (Calendar.mkDate 2020 3 1)) (Some "Rivera");
     Storage.mkAnimal "PH-401" None (Some "Samabaco")] [].

(** A cow with a record in each of thirteen calendar months, the first
    365 days before the last. *)
Definition example_year_db : Storage.database :=
  Storage.mkDb
    [Storage.mkAnimal "PH-501" None (Some "Rivera")]
    (Storage.mkYield "PH-501" (Calendar.mkDate 2024 1 15) 2024 1%float
     :: map (λ k, Storage.mkYield "PH-501" (Calendar.mkDate 2024 k 10) 2024 1%float)
          [2; 3; 4; 5; 6; 7; 8; 9; 10; 11; 12]%Z
     ++ [Storage.mkYield "PH-501" (Calendar.mkDate 2025 1 14) 2025 1%float])%list.

(** The alias of a farm: what the anonymisation gives for its name, or
    that with a numeric suffix from 2 on. *)
Definition alias_shape (u : string -> string) (real alias : string) : Prop :=
  alias = Anonymizer.anonymize_farm_name u (Some real)
  ∨ exists k, 2 <= k
      ∧ alias = AliasDirectory.suffixed (Anonymizer.anonymize_farm_name u (Some real)) k.

(** The total of the sessions column of a trend. *)
Definition sum_sessions (t : list Aggregator.trend) : Z :=
  foldr (λ row acc, (Aggregator.t_sessions row + acc)%Z) 0%Z t.

(** The months counted from the year 0: the index of a calendar month. *)
Definition ym_index (k : Calendar.ym) : Z := (12 * k.1 + k.2)%Z.



(** * Properties *)

(** ** SHA-256 test vectors (FIPS 180-4, appendix) *)

Example sha256_abc :
  Sha256.hexdigest "abc"
  = "ba7816bf8f01cfea414140de5dae2223b00361a396177a9cb410ff61f20015ad".
Proof. vm_compute. reflexivity. Qed.

Example sha256_empty :
  Sha256.hexdigest ""
  = "e3b0c44298fc1c149afbf4c8996fb92427ae41e4649b934ca495991b7852b855".
Proof. vm_compute. reflexivity. Qed.

Example sha256_two_blocks :
  Sha256.hexdigest "abcdbcdecdefdefgefghfghighijhijkijkljklmklmnlmnomnopnopq"
  = "248d6a61d20638b8e5c026930c3e6039a33ce45964ff2167f6ecedd419db06c1".
Proof. vm_compute. reflexivity. Qed.

(** ** The anonymisation mapper *)

Section AnonymizerFacts.
Import Anonymizer.
Variable u : string -> string.

Lemma protected_lookup (h : string) :
PROTECTED_HASH_TO_ALIAS !! h
= if decide (h = "82b7a67e7bd24e71bbaf80e360039b7fed7805b11a1b6f35c3926c9c9812c9fd")
  then Some "K-farm"
  else if decide (h = "687d0aa07ed9519f1a55d848b562e29044a742a7d6daa44a273735ccb4fb8591")
  then Some "J-farm" else None.
Proof.
unfold PROTECTED_HASH_TO_ALIAS.
repeat case_decide; subst; simplify_map_eq; reflexivity.
Qed.

Lemma protected_alias (h alias : string) :
PROTECTED_HASH_TO_ALIAS !! h = Some alias -> alias = "K-farm" ∨ alias = "J-farm".
Proof.
rewrite protected_lookup. repeat case_decide; intros [= <-]; auto.
Qed.

Lemma anonymize_unfold (s : option string) :
anonymize_farm_name u s
= default (or_empty s)
    (PROTECTED_HASH_TO_ALIAS !! Sha256.hexdigest (lower u (or_empty s))).
Proof. reflexivity. Qed.

(** C2. [anonymize_farm_name] is a total function of its (possibly
  missing) argument. It returns "K-farm" or "J-farm" when the SHA-256
  digest of the lower-cased input is the first or the second key of the
  table, and the input itself ([""] for a missing or empty one)
  otherwise. Every input whose lower-casing is "magpantay" gives
  "K-farm", every one whose lower-casing is "samabaco" gives "J-farm",
  whatever its casing. *)
Theorem anonymize_farm_name_spec (s : option string) :
let h := Sha256.hexdigest (lower u (or_empty s)) in
anonymize_farm_name u s
= (if decide (h = "82b7a67e7bd24e71bbaf80e360039b7fed7805b11a1b6f35c3926c9c9812c9fd")
   then "K-farm"
   else if decide (h = "687d0aa07ed9519f1a55d848b562e29044a742a7d6daa44a273735ccb4fb8591")
   then "J-farm" else or_empty s)
∧ (lower u (or_empty s) = "magpantay" -> anonymize_farm_name u s = "K-farm")
∧ (lower u (or_empty s) = "samabaco" -> anonymize_farm_name u s = "J-farm")
∧ anonymize_farm_name u (Some "magpantay") = "K-farm"
∧ anonymize_farm_name u (Some "Magpantay") = "K-farm"
∧ anonymize_farm_name u (Some "MAGPANTAY") = "K-farm"
∧ anonymize_farm_name u (Some "samabaco") = "J-farm"
∧ anonymize_farm_name u (Some "Samabaco") = "J-farm"
∧ anonymize_farm_name u (Some "SAMABACO") = "J-farm"
∧ anonymize_farm_name u (Some "") = ""
∧ anonymize_farm_name u None = "".
Proof.
intros h. split; [|split; [|split]].
- rewrite anonymize_unfold. fold h. rewrite protected_lookup.
  repeat case_decide; reflexivity.
- intros Hl. rewrite anonymize_unfold, Hl. vm_compute. reflexivity.
- intros Hl. rewrite anonymize_unfold, Hl. vm_compute. reflexivity.
- repeat split; vm_compute; reflexivity.
Qed.

(** C10. Anonymising twice is anonymising once: the two aliases are not
  protected names themselves, and every other name is left as it is. *)
Theorem anonymize_farm_name_idempotent (s : option string) :
anonymize_farm_name u (Some (anonymize_farm_name u s))
= anonymize_farm_name u s.
Proof.
rewrite (anonymize_unfold s).
destruct (PROTECTED_HASH_TO_ALIAS !! _) as [alias|] eqn:Hh; simpl.
- destruct (protected_alias _ _ Hh) as [-> | ->]; vm_compute; reflexivity.
- rewrite anonymize_unfold. simpl. rewrite Hh. reflexivity.
Qed.
End AnonymizerFacts.

Lemma anonymize_farm_name_spec_witness :
  Anonymizer.lower id (Anonymizer.or_empty (Some "mAgPaNtAy")) = "magpantay"
  ∧ Anonymizer.anonymize_farm_name id (Some "mAgPaNtAy") = "K-farm".
Proof.
  split; [vm_compute; reflexivity|].
  apply (proj1 (proj2 (anonymize_farm_name_spec id (Some "mAgPaNtAy")))).
  vm_compute; reflexivity.
Defined.

(** ** Sorted, duplicate-free key lists *)

Section KeysFacts.
Import Storage.
Context {K : Type} (ltb : K -> K -> bool).
Hypothesis ltb_irrefl : forall a, ltb a a = false.
Hypothesis ltb_trans : forall a b c, ltb a b = true -> ltb b c = true -> ltb a c = true.
Hypothesis ltb_tricho : forall a b, ltb a b = false -> ltb b a = false -> a = b.

Lemma elem_of_insert_key (k x : K) (l : list K) :
  x ∈ insert_key ltb k l <-> x = k ∨ x ∈ l.
Proof.
  induction l as [|y l IH]; simpl.
  - rewrite list_elem_of_singleton, elem_of_nil. tauto.
  - destruct (ltb k y) eqn:E1; [rewrite !elem_of_cons; tauto|].
    destruct (ltb y k) eqn:E2.
    + rewrite !elem_of_cons, IH. tauto.
    + rewrite (ltb_tricho _ _ E1 E2), !elem_of_cons. tauto.
Qed.

Lemma elem_of_distinct_sorted (x : K) (l : list K) :
  x ∈ distinct_sorted ltb l <-> x ∈ l.
Proof.
  induction l as [|y l IH]; simpl; [reflexivity|].
  rewrite elem_of_insert_key, IH, elem_of_cons. reflexivity.
Qed.

Lemma insert_key_sorted (k : K) (l : list K) :
  StronglySorted (λ a b, ltb a b = true) l ->
  StronglySorted (λ a b, ltb a b = true) (insert_key ltb k l).
Proof.
  induction 1 as [|y l Hs IH Hy]; simpl.
  - repeat constructor.
  - destruct (ltb k y) eqn:E1.
    + constructor; [constructor; assumption|].
      constructor; [assumption|].
      eapply Forall_impl; [exact Hy|]. intros z Hz. simpl in Hz. eauto.
    + destruct (ltb y k) eqn:E2; [|constructor; assumption].
      constructor; [assumption|].
      apply Forall_forall. intros z Hz.
      apply elem_of_insert_key in Hz as [-> | Hz]; [assumption|].
      rewrite Forall_forall in Hy. auto.
Qed.

Lemma distinct_sorted_sorted (l : list K) :
  StronglySorted (λ a b, ltb a b = true) (distinct_sorted ltb l).
Proof.
  induction l; simpl; [constructor|]. apply insert_key_sorted. assumption.
Qed.

Lemma sorted_NoDup (l : list K) :
  StronglySorted (λ a b, ltb a b = true) l -> NoDup l.
Proof.
  induction 1 as [|y l Hs IH Hy]; constructor; [|assumption].
  intros Hin. rewrite Forall_forall in Hy. specialize (Hy _ Hin).
  rewrite ltb_irrefl in Hy. discriminate.
Qed.

Lemma distinct_sorted_NoDup (l : list K) : NoDup (distinct_sorted ltb l).
Proof. apply sorted_NoDup, distinct_sorted_sorted. Qed.

End KeysFacts.

Lemma string_ltb_leb (a b : string) : String.ltb a b = negb (String.leb b a).
Proof.
  unfold String.ltb, String.leb. rewrite (String.compare_antisym b a).
  destruct (String.compare a b); reflexivity.
Qed.

Lemma string_le_leb (a b : string) : (a ≤ b)%string <-> String.leb a b = true.
Proof. unfold String.le. apply Is_true_true. Qed.

Lemma string_ltb_irrefl (a : string) : String.ltb a a = false.
Proof.
  rewrite string_ltb_leb. apply negb_false_iff, string_le_leb. reflexivity.
Qed.

Lemma string_ltb_tricho (a b : string) :
  String.ltb a b = false -> String.ltb b a = false -> a = b.
Proof.
  rewrite !string_ltb_leb, !negb_false_iff. intros H1 H2.
  apply String.leb_antisym; assumption.
Qed.

Lemma string_ltb_trans (a b c : string) :
  String.ltb a b = true -> String.ltb b c = true -> String.ltb a c = true.
Proof.
  rewrite !string_ltb_leb, !negb_true_iff. intros Hba Hcb.
  destruct (String.leb c a) eqn:Hca; [|reflexivity].
  destruct (String.leb_total a b) as [Hab|Hab]; [|congruence].
  assert (H : (c ≤ b)%string).
  { transitivity a; apply string_le_leb; assumption. }
  apply string_le_leb in H. congruence.
Qed.

(** ** The alias directory *)

Section AliasFacts.
Import Anonymizer Storage AliasDirectory.
Variable u : string -> string.

Lemma string_length_app (a b : string) :
  String.length (a +:+ b) = String.length a + String.length b.
Proof. induction a as [|c a IH]; simpl; [reflexivity|]. rewrite IH. reflexivity. Qed.

Lemma suffixed_inj (base : string) (i j : nat) :
  suffixed base i = suffixed base j -> i = j.
Proof.
  unfold suffixed. intros H. apply (inj (String.app base)) in H.
  simpl in H. injection H as H. exact (inj pretty _ _ H).
Qed.

Lemma suffixed_ne_base (base : string) (i : nat) : suffixed base i ≠ base.
Proof.
  unfold suffixed. intros H. apply (f_equal String.length) in H.
  rewrite string_length_app in H. simpl in H. lia.
Qed.

Lemma collides_true (a2i : gmap string string) (alias actual : string) :
  collides a2i alias actual = true <-> exists r, a2i !! alias = Some r ∧ r ≠ actual.
Proof.
  unfold collides. destruct (a2i !! alias) as [r|].
  - rewrite bool_decide_eq_true. split; [eauto|]. intros (r' & [= <-] & H). exact H.
  - split; [discriminate|]. intros (r' & [=] & _).
Qed.

Lemma collides_false (a2i : gmap string string) (alias actual : string) :
  collides a2i alias actual = false <->
  a2i !! alias = None ∨ a2i !! alias = Some actual.
Proof.
  unfold collides. destruct (a2i !! alias) as [r|].
  - rewrite bool_decide_eq_false. split.
    + intros H. right. f_equal. destruct (decide (r = actual)); [assumption|contradiction].
    + intros [Hx|Hx] Hne; [discriminate|]. injection Hx as ->. apply Hne. reflexivity.
  - split; auto.
Qed.

(** What the loop returns: the first candidate that does not collide. *)
Lemma resolve_Some fuel a2i actual base alias i a :
  resolve fuel a2i actual base alias i = Some a ->
  collides a2i a actual = false ∧
  (a = alias ∨
   exists k, i <= k ∧ a = suffixed base k ∧ collides a2i alias actual = true
             ∧ forall j, i <= j < k -> collides a2i (suffixed base j) actual = true).
Proof.
  revert alias i. induction fuel as [|fuel IH]; intros alias i; simpl; [discriminate|].
  destruct (collides a2i alias actual) eqn:Hc.
  - intros H. apply IH in H as [Ha [-> | (k & Hk & -> & Hci & Hall)]].
    + split; [assumption|]. right. exists i. repeat split; auto. intros j Hj. lia.
    + split; [assumption|]. right. exists k. repeat split; [lia|].
      intros j Hj. destruct (decide (j = i)) as [->|]; [assumption|]. apply Hall. lia.
  - intros [= <-]. auto.
Qed.

(** When the fuel runs out every candidate tested has collided. *)
Lemma resolve_None n a2i actual base alias i :
  resolve (S n) a2i actual base alias i = None ->
  collides a2i alias actual = true
  ∧ forall j, i <= j < i + n -> collides a2i (suffixed base j) actual = true.
Proof.
  revert alias i. induction n as [|n IH]; intros alias i.
  - simpl. destruct (collides a2i alias actual); [|discriminate].
    intros _. split; [reflexivity|]. intros j Hj. lia.
  - change (resolve (S (S n)) a2i actual base alias i)
      with (if collides a2i alias actual
            then resolve (S n) a2i actual base (suffixed base i) (S i)
            else Some alias).
    destruct (collides a2i alias actual); [|discriminate].
    intros H. apply IH in H as [Hi Hall]. split; [reflexivity|].
    intros j Hj. destruct (decide (j = i)) as [->|]; [assumption|]. apply Hall. lia.
Qed.

(** More fuel does not change a result. *)
Lemma resolve_fuel_mono n m a2i actual base alias i a :
  resolve n a2i actual base alias i = Some a -> n <= m ->
  resolve m a2i actual base alias i = Some a.
Proof.
  revert m alias i. induction n as [|n IH]; intros m alias i; simpl; [discriminate|].
  intros H Hm. destruct m as [|m]; [lia|]. simpl.
  destruct (collides a2i alias actual); [|assumption].
  apply IH; [assumption|lia].
Qed.

Lemma candidates_NoDup (base : string) (n : nat) :
  NoDup (base :: map (suffixed base) (seq 2 n)).
Proof.
  constructor.
  - rewrite list_elem_of_fmap. intros (k & Hk & _).
    symmetry in Hk. exact (suffixed_ne_base _ _ Hk).
  - apply NoDup_fmap_2; [|apply NoDup_seq].
    intros i j. apply suffixed_inj.
Qed.

(** The loop ends: among [size a2i + 1] distinct candidates one is no key. *)
Lemma resolve_total (a2i : gmap string string) (actual base : string) :
  exists a, resolve (S (size a2i)) a2i actual base base 2 = Some a.
Proof.
  destruct (resolve (S (size a2i)) a2i actual base base 2) as [a|] eqn:E; [eauto|].
  exfalso. apply resolve_None in E as [Hb Hall].
  pose (l := base :: map (suffixed base) (seq 2 (size a2i))).
  assert (Hsub : list_to_set l ⊆ dom a2i).
  { intros x Hx. apply elem_of_list_to_set in Hx. apply elem_of_dom.
    unfold l in Hx. apply elem_of_cons in Hx as [-> | Hx].
    - apply collides_true in Hb as (r & -> & _). eauto.
    - apply list_elem_of_fmap in Hx as (k & -> & Hk). apply elem_of_seq in Hk.
      destruct (proj1 (collides_true _ _ _) (Hall k ltac:(lia))) as (r & -> & _). eauto. }
  apply subseteq_size in Hsub.
  rewrite size_list_to_set in Hsub by apply candidates_NoDup.
  rewrite size_dom in Hsub. unfold l in Hsub. simpl in Hsub.
  rewrite length_map, length_seq in Hsub. lia.
Qed.
End AliasFacts.

Section AliasBuildFacts.
Import Anonymizer Storage AliasDirectory.
Variable u : string -> string.

Lemma truthy_base (alias : string) :
  (if bool_decide (alias = "") then "" else alias) = alias.
Proof. case_bool_decide; congruence. Qed.

(** One turn of the [for] loop always completes, with the first
    candidate that does not collide. *)
Lemma assign_spec (st : maps) (r : string) :
  let base := anonymize_farm_name u (Some r) in
  exists alias,
    assign u st r
    = Some (mkMaps (<[alias := r]> (alias_to_internal st))
              (if bool_decide (alias ∈ dom (alias_to_internal st))
               then alias_keys st else alias_keys st ++ [alias])
              (<[r := alias]> (internal_to_alias st)))
    ∧ collides (alias_to_internal st) alias r = false
    ∧ (alias = base ∨
       exists k, 2 <= k ∧ alias = suffixed base k
         ∧ collides (alias_to_internal st) base r = true
         ∧ forall j, 2 <= j < k ->
             collides (alias_to_internal st) (suffixed base j) r = true).
Proof.
  intros base. unfold assign. fold base. rewrite truthy_base.
  destruct (resolve_total (alias_to_internal st) r base) as [alias Ha].
  exists alias. rewrite Ha. simpl. split; [reflexivity|].
  apply resolve_Some in Ha. exact Ha.
Qed.

Lemma inverse_insert (a2i i2a : gmap string string) (alias r : string) :
  inverse a2i i2a -> a2i !! alias = None -> i2a !! r = None ->
  inverse (<[alias := r]> a2i) (<[r := alias]> i2a).
Proof.
  intros Hinv Ha Hr a' r'.
  destruct (decide (a' = alias)) as [->|Hna], (decide (r' = r)) as [->|Hnr].
  - rewrite !lookup_insert_eq. tauto.
  - rewrite lookup_insert_eq, lookup_insert_ne by congruence. split.
    + intros [= ->]. contradiction.
    + intros H. apply Hinv in H. congruence.
  - rewrite lookup_insert_ne, lookup_insert_eq by congruence. split.
    + intros H. apply Hinv in H. congruence.
    + intros [= ->]. contradiction.
  - rewrite !lookup_insert_ne by congruence. apply Hinv.
Qed.

(** A name that has no alias yet gets a fresh one. *)
Lemma assign_fresh (st : maps) (r : string) :
  inverse (alias_to_internal st) (internal_to_alias st) ->
  internal_to_alias st !! r = None ->
  exists alias,
    assign u st r
    = Some (mkMaps (<[alias := r]> (alias_to_internal st))
              (alias_keys st ++ [alias])
              (<[r := alias]> (internal_to_alias st)))
    ∧ first_free (alias_to_internal st) (anonymize_farm_name u (Some r)) alias.
Proof.
  intros Hinv Hr.
  destruct (assign_spec st r) as (alias & Heq & Hfree & Hcand).
  assert (Hnone : alias_to_internal st !! alias = None).
  { apply collides_false in Hfree as [H|H]; [assumption|].
    apply Hinv in H. congruence. }
  exists alias. split.
  - rewrite Heq. rewrite bool_decide_eq_false_2; [reflexivity|].
    apply not_elem_of_dom. assumption.
  - split; [assumption|].
    destruct Hcand as [->|(k & Hk & -> & Hb & Hall)]; [left; reflexivity|].
    right. exists k. repeat split; auto.
    + apply collides_true in Hb as (r' & -> & _). eauto.
    + intros j Hj. destruct (proj1 (collides_true _ _ _) (Hall j Hj)) as (r' & -> & _).
      eauto.
Qed.

Lemma build_loop_app (l1 l2 : list string) (st : maps) :
  build_loop u (l1 ++ l2) st = st' ← build_loop u l1 st; build_loop u l2 st'.
Proof.
  revert st. induction l1 as [|r l1 IH]; intros st; simpl; [reflexivity|].
  destruct (assign u st r) as [st'|]; simpl; [apply IH|reflexivity].
Qed.

Lemma assign_fresh_inv (st : maps) (r : string) :
  directory_inv u st -> internal_to_alias st !! r = None ->
  exists alias st',
    assign u st r = Some st'
    ∧ alias_to_internal st' = <[alias := r]> (alias_to_internal st)
    ∧ internal_to_alias st' = <[r := alias]> (internal_to_alias st)
    ∧ first_free (alias_to_internal st) (anonymize_farm_name u (Some r)) alias
    ∧ directory_inv u st'.
Proof.
  intros [Hinv Hbase] Hr.
  destruct (assign_fresh st r Hinv Hr) as (alias & Heq & Hff).
  eexists alias, _. split; [exact Heq|]. simpl.
  split; [reflexivity|]. split; [reflexivity|]. split; [assumption|].
  destruct Hff as [Hnone Hcand]. split; simpl.
  - apply inverse_insert; assumption.
  - intros r' Hr'. destruct (decide (r' = r)) as [->|Hne].
    + destruct Hcand as [->|(k & _ & -> & Hb & _)].
      * rewrite lookup_insert_eq. eauto.
      * rewrite lookup_insert_ne; [assumption|]. apply suffixed_ne_base.
    + rewrite lookup_insert_ne in Hr' by congruence.
      apply Hbase in Hr'. destruct Hr' as [x Hx].
      rewrite lookup_insert_ne; [eauto|]. congruence.
Qed.

(** The [for] loop over distinct names that have no alias yet. *)
Lemma build_loop_spec (names : list string) (st : maps) :
  NoDup names ->
  (forall r, r ∈ names -> internal_to_alias st !! r = None) ->
  directory_inv u st ->
  exists st',
    build_loop u names st = Some st'
    ∧ directory_inv u st'
    ∧ (forall r, is_Some (internal_to_alias st' !! r)
                 <-> is_Some (internal_to_alias st !! r) ∨ r ∈ names)
    ∧ (forall r a, internal_to_alias st !! r = Some a ->
                   internal_to_alias st' !! r = Some a)
    ∧ (forall a r, alias_to_internal st !! a = Some r ->
                   alias_to_internal st' !! a = Some r).
Proof.
  revert st. induction names as [|r names IH]; intros st Hnd Hnew Hinv.
  - exists st. simpl. split; [reflexivity|]. split; [assumption|].
    split; [|split; auto]. intros r. split.
    + intros H. left. exact H.
    + intros [H|H]; [exact H|]. inversion H.
  - apply NoDup_cons in Hnd as [Hr Hnd].
    destruct (assign_fresh_inv st r Hinv) as (alias & st1 & Heq & Ha & Hi & Hff & Hinv1).
    { apply Hnew, elem_of_cons. left. reflexivity. }
    destruct (IH st1 Hnd) as (st' & Hb & Hinv' & Hdom & Hkeep_i & Hkeep_a).
    { intros r' Hr'. rewrite Hi, lookup_insert_ne.
      - apply Hnew, elem_of_cons. right. assumption.
      - intros ->. contradiction. }
    { assumption. }
    exists st'. simpl. rewrite Heq. simpl. split; [assumption|].
    split; [assumption|]. split; [intros r0; split|split].
    + intros H. apply Hdom in H as [H|H].
      * rewrite Hi in H. destruct (decide (r0 = r)) as [->|Hne].
        -- right. apply elem_of_cons. left. reflexivity.
        -- rewrite lookup_insert_ne in H by congruence. left. assumption.
      * right. apply elem_of_cons. right. assumption.
    + intros [H|H]; apply Hdom.
      * left. rewrite Hi. destruct (decide (r0 = r)) as [->|Hne].
        -- rewrite lookup_insert_eq. eauto.
        -- rewrite lookup_insert_ne by congruence. assumption.
      * apply elem_of_cons in H as [->|H]; [|right; assumption].
        left. rewrite Hi, lookup_insert_eq. eauto.
    + intros r' a H. apply Hkeep_i. rewrite Hi.
      rewrite lookup_insert_ne; [assumption|].
      intros <-. rewrite Hnew in H; [discriminate|apply elem_of_cons; left; reflexivity].
    + intros a r' H. apply Hkeep_a. rewrite Ha.
      rewrite lookup_insert_ne; [assumption|].
      intros <-. destruct Hff as [Hnone _]. congruence.
Qed.

Lemma directory_inv_empty : directory_inv u empty_maps.
Proof.
  split; simpl.
  - intros a r. rewrite !lookup_empty. split; discriminate.
  - intros r [x Hx]. rewrite lookup_empty in Hx. discriminate.
Qed.
End AliasBuildFacts.

Section AliasTheorems.
Import Anonymizer Storage AliasDirectory.
Variable u : string -> string.

Lemma farm_names_NoDup (db : database) : NoDup (farm_names db).
Proof.
  apply distinct_sorted_NoDup.
  - apply string_ltb_irrefl.
  - apply string_ltb_trans.
  - apply string_ltb_tricho.
Qed.

Lemma farm_names_sorted (db : database) :
  StronglySorted (λ a b, String.ltb a b = true) (farm_names db).
Proof.
  apply distinct_sorted_sorted.
  - apply string_ltb_trans.
  - apply string_ltb_tricho.
Qed.

Lemma elem_of_farm_names (db : database) (r : string) :
  r ∈ farm_names db
  <-> r ≠ "" ∧ exists a, a ∈ animals db ∧ a_farm_name a = Some r.
Proof.
  unfold farm_names.
  rewrite elem_of_distinct_sorted by apply string_ltb_tricho.
  rewrite list_elem_of_filter, list_elem_of_fmap. split.
  - intros (Hne & a & -> & Ha). split; [assumption|]. exists a. split; [assumption|].
    destruct (a_farm_name a) as [s|]; simpl in *; [reflexivity|contradiction].
  - intros (Hne & a & Ha & Hf). split; [assumption|]. exists a.
    rewrite Hf. simpl. auto.
Qed.

(** The whole loop, from the empty dictionaries, over distinct names. *)
Lemma build_loop_distinct (names : list string) :
  NoDup names ->
  exists st,
    build_loop u names empty_maps = Some st
    ∧ directory_inv u st
    ∧ forall r, is_Some (internal_to_alias st !! r) <-> r ∈ names.
Proof.
  intros Hnd.
  destruct (build_loop_spec u names empty_maps Hnd) as (st & Hb & Hinv & Hdom & _).
  - intros r _. apply lookup_empty.
  - apply directory_inv_empty.
  - exists st. split; [assumption|]. split; [assumption|].
    intros r. rewrite Hdom. simpl. rewrite lookup_empty. split.
    + intros [[x Hx]|H]; [discriminate|assumption].
    + auto.
Qed.

Lemma inverse_inj_l (a2i i2a : gmap string string) (r1 r2 alias : string) :
  inverse a2i i2a -> i2a !! r1 = Some alias -> i2a !! r2 = Some alias -> r1 = r2.
Proof. intros Hinv H1 H2. apply Hinv in H1, H2. congruence. Qed.

Lemma inverse_inj_r (a2i i2a : gmap string string) (a1 a2 r : string) :
  inverse a2i i2a -> a2i !! a1 = Some r -> a2i !! a2 = Some r -> a1 = a2.
Proof. intros Hinv H1 H2. apply Hinv in H1, H2. congruence. Qed.

(** A name whose candidate alias an earlier name has produced too. *)
Lemma build_loop_collision (earlier later : list string) (r1 r2 : string) :
  NoDup (earlier ++ r2 :: later) ->
  r1 ∈ earlier ->
  anonymize_farm_name u (Some r1) = anonymize_farm_name u (Some r2) ->
  let base := anonymize_farm_name u (Some r2) in
  exists st k,
    build_loop u (earlier ++ r2 :: later) empty_maps = Some st
    ∧ inverse (alias_to_internal st) (internal_to_alias st)
    ∧ 2 <= k
    ∧ internal_to_alias st !! r2 = Some (suffixed base k)
    ∧ (exists r', r' ∈ earlier ∧ internal_to_alias st !! r' = Some base)
    ∧ (forall j, 2 <= j < k ->
         exists r', r' ∈ earlier ∧ internal_to_alias st !! r' = Some (suffixed base j)).
Proof.
  intros Hnd Hr1 Hsame base.
  apply NoDup_app in Hnd as (Hnd1 & Hdisj & Hnd2).
  apply NoDup_cons in Hnd2 as [Hr2 Hnd3].
  destruct (build_loop_distinct earlier Hnd1) as (stp & Hbp & Hinvp & Hdomp).
  assert (Hnone : internal_to_alias stp !! r2 = None).
  { destruct (internal_to_alias stp !! r2) as [x|] eqn:E; [|reflexivity].
    exfalso. apply (Hdisj r2); [apply Hdomp; eauto|]. apply elem_of_cons. auto. }
  destruct (assign_fresh_inv u stp r2 Hinvp Hnone)
    as (alias & st1 & Heq & Ha & Hi & [Hfree Hcand] & Hinv1).
  destruct (build_loop_spec u later st1 Hnd3) as (st & Hb & [Hinv Hb'] & _ & Hki & Hka).
  { intros r Hr. rewrite Hi, lookup_insert_ne.
    - destruct (internal_to_alias stp !! r) as [x|] eqn:E; [|reflexivity].
      exfalso. apply (Hdisj r); [apply Hdomp; eauto|]. apply elem_of_cons. auto.
    - intros ->. contradiction. }
  { assumption. }
  assert (Hearlier : forall a r, alias_to_internal stp !! a = Some r ->
                      r ∈ earlier ∧ internal_to_alias st !! r = Some a).
  { intros a r H. destruct Hinvp as [Hip _]. apply Hip in H.
    split; [apply Hdomp; eauto|]. apply Hki. rewrite Hi.
    rewrite lookup_insert_ne; [assumption|]. congruence. }
  assert (Hbase : is_Some (alias_to_internal stp !! base)).
  { unfold base. rewrite <- Hsame. destruct Hinvp as [_ Hbp'].
    apply Hbp', Hdomp. assumption. }
  destruct Hcand as [->|(k & Hk & -> & _ & Hall)].
  { fold base in Hfree. rewrite Hfree in Hbase. destruct Hbase as [x Hx]. discriminate. }
  exists st, k. split.
  { rewrite build_loop_app, Hbp. simpl. rewrite Heq. simpl. exact Hb. }
  split; [assumption|]. split; [assumption|]. split.
  { apply Hki. rewrite Hi. apply lookup_insert_eq. }
  split.
  - destruct Hbase as [r' Hr']. exists r'. apply Hearlier. assumption.
  - intros j Hj. destruct (Hall j Hj) as [r' Hr']. exists r'. apply Hearlier. assumption.
Qed.

(** A candidate that is already the alias of the same name is taken
    again, as it is. *)
Lemma assign_reuse (st : maps) (actual : string) :
  alias_to_internal st !! anonymize_farm_name u (Some actual) = Some actual ->
  assign u st actual
  = Some (mkMaps (alias_to_internal st) (alias_keys st)
            (<[actual := anonymize_farm_name u (Some actual)]> (internal_to_alias st))).
Proof.
  intros H. unfold assign. rewrite truthy_base. simpl.
  assert (Hc : collides (alias_to_internal st)
                 (anonymize_farm_name u (Some actual)) actual = false).
  { apply collides_false. right. assumption. }
  rewrite Hc. simpl. rewrite insert_id by assumption.
  rewrite bool_decide_eq_true_2; [reflexivity|].
  apply elem_of_dom. eauto.
Qed.
End AliasTheorems.

Section AliasKeys.
Import Anonymizer Storage AliasDirectory.
Variable u : string -> string.

Lemma insert_stable_Permutation (key : string -> string) (x : string)
    (l : list string) :
  insert_stable key x l ≡ₚ x :: l.
Proof.
  induction l as [|y l IH]; simpl; [reflexivity|].
  destruct (String.ltb (key x) (key y)); [reflexivity|].
  rewrite IH. apply Permutation_swap.
Qed.

Lemma sorted_by_Permutation (key : string -> string) (l : list string) :
  sorted_by key l ≡ₚ l.
Proof.
  unfold sorted_by.
  assert (H : forall acc, fold_left (λ acc x, insert_stable key x acc) l acc ≡ₚ acc ++ l).
  { induction l as [|x l IH]; intros acc; simpl.
    - rewrite app_nil_r. reflexivity.
    - rewrite IH, insert_stable_Permutation.
      rewrite (Permutation_middle acc l x). reflexivity. }
  apply (H []).
Qed.

Lemma assign_keys (st st' : maps) (r : string) :
  keys_inv st -> assign u st r = Some st' -> keys_inv st'.
Proof.
  intros [Hnd Hk] Heq.
  destruct (assign_spec u st r) as (alias & Heq' & _).
  rewrite Heq' in Heq. injection Heq as <-. unfold keys_inv. simpl.
  case_bool_decide as Hin.
  - split; [assumption|]. intros a. rewrite Hk.
    destruct (decide (a = alias)) as [->|Hne].
    + rewrite lookup_insert_eq. apply elem_of_dom in Hin. split; eauto.
    + rewrite lookup_insert_ne by congruence. reflexivity.
  - split.
    + apply NoDup_app. split; [assumption|]. split; [|apply NoDup_singleton].
      intros a Ha Ha'. apply list_elem_of_singleton in Ha' as ->.
      apply Hin, elem_of_dom, Hk. assumption.
    + intros a. rewrite elem_of_app, list_elem_of_singleton, Hk.
      destruct (decide (a = alias)) as [->|Hne].
      * rewrite lookup_insert_eq. split; eauto.
      * rewrite lookup_insert_ne by congruence. split; [|auto].
        intros [H|H]; [assumption|contradiction].
Qed.

Lemma build_loop_keys (names : list string) (st st' : maps) :
  keys_inv st -> build_loop u names st = Some st' -> keys_inv st'.
Proof.
  revert st. induction names as [|r names IH]; intros st Hk; simpl.
  - intros [= <-]. assumption.
  - destruct (assign u st r) as [st1|] eqn:E; simpl; [|discriminate].
    apply IH. eapply assign_keys; eassumption.
Qed.

Lemma keys_inv_empty : keys_inv empty_maps.
Proof.
  split; simpl; [constructor|]. intros a. rewrite lookup_empty. split.
  - intros H. inversion H.
  - intros [x Hx]. discriminate.
Qed.
End AliasKeys.

Section AliasClaims.
Import Anonymizer Storage AliasDirectory.
Variable u : string -> string.

(** C1. For every content of the [animals] table, [build_farm_alias_maps]
    returns, and its two dictionaries are inverse to each other: the names
    with an alias are exactly the distinct non-empty farm names of the
    table, each has one alias, each alias belongs to one name, and no two
    names share an alias. The list of aliases holds every alias once. *)
Theorem build_farm_alias_maps_bijection (db : database) :
  exists aliases a2i i2a,
    build_farm_alias_maps u db = Some (aliases, a2i, i2a)
    ∧ (forall alias real, a2i !! alias = Some real <-> i2a !! real = Some alias)
    ∧ (forall real, is_Some (i2a !! real) <-> real ∈ farm_names db)
    ∧ (forall real, real ∈ farm_names db
         <-> real ≠ "" ∧ exists a, a ∈ animals db ∧ a_farm_name a = Some real)
    ∧ (forall alias, is_Some (a2i !! alias)
         <-> exists real, real ∈ farm_names db ∧ i2a !! real = Some alias)
    ∧ (forall r1 r2 alias,
         i2a !! r1 = Some alias -> i2a !! r2 = Some alias -> r1 = r2)
    ∧ (forall a1 a2 real,
         a2i !! a1 = Some real -> a2i !! a2 = Some real -> a1 = a2)
    ∧ NoDup aliases
    ∧ (forall alias, alias ∈ aliases <-> is_Some (a2i !! alias)).
Proof.
  destruct (build_loop_distinct u (farm_names db) (farm_names_NoDup db))
    as (st & Hb & [Hinv _] & Hdom).
  destruct (build_loop_keys u _ _ _ keys_inv_empty Hb) as [Hnd Hkeys].
  exists (sorted_by (lower u) (alias_keys st)), (alias_to_internal st),
    (internal_to_alias st).
  split; [unfold build_farm_alias_maps; rewrite Hb; reflexivity|].
  split; [exact Hinv|]. split; [exact Hdom|].
  split; [apply elem_of_farm_names|]. split; [|split; [|split; [|split]]].
  - intros alias. split.
    + intros [real Hr]. exists real. apply Hinv in Hr. split; [|assumption].
      apply Hdom. eauto.
    + intros (real & _ & Hr). apply Hinv in Hr. eauto.
  - intros r1 r2 alias. apply inverse_inj_l with (a2i := alias_to_internal st).
    exact Hinv.
  - intros a1 a2 real. apply inverse_inj_r with (i2a := internal_to_alias st).
    exact Hinv.
  - rewrite sorted_by_Permutation. exact Hnd.
  - intros alias. rewrite sorted_by_Permutation. apply Hkeys.
Qed.

(** C3. When a name [r2] is built after a distinct name [r1] with the same
    candidate alias [base], [r2] gets [base-k] for the least [k >= 2] such
    that [base-k] is not in use: [base] and every [base-j], [2 <= j < k],
    are aliases of names built before [r2]. The two dictionaries are still
    inverse to each other. In any state of the loop, a candidate that is
    already the alias of the very name is taken again without a suffix. *)
Theorem alias_collision_suffix (db : database) (l1 l2 l3 : list string)
    (r1 r2 : string) :
  farm_names db = (l1 ++ r1 :: l2 ++ r2 :: l3)%list ->
  anonymize_farm_name u (Some r1) = anonymize_farm_name u (Some r2) ->
  let base := anonymize_farm_name u (Some r2) in
  let earlier := (l1 ++ r1 :: l2)%list in
  (exists aliases a2i i2a k,
     build_farm_alias_maps u db = Some (aliases, a2i, i2a)
     ∧ 2 <= k
     ∧ i2a !! r2 = Some (suffixed base k)
     ∧ a2i !! suffixed base k = Some r2
     ∧ (exists r', r' ∈ earlier ∧ i2a !! r' = Some base)
     ∧ (forall j, 2 <= j < k ->
          exists r', r' ∈ earlier ∧ i2a !! r' = Some (suffixed base j))
     ∧ (forall alias real, a2i !! alias = Some real <-> i2a !! real = Some alias))
  ∧ (forall st actual,
       alias_to_internal st !! anonymize_farm_name u (Some actual) = Some actual ->
       assign u st actual
       = Some (mkMaps (alias_to_internal st) (alias_keys st)
                 (<[actual := anonymize_farm_name u (Some actual)]>
                    (internal_to_alias st)))).
Proof.
  intros Hnames Hsame base earlier. split; [|apply assign_reuse].
  assert (Hsplit : farm_names db = (earlier ++ r2 :: l3)%list).
  { rewrite Hnames. unfold earlier. rewrite <- app_assoc. reflexivity. }
  pose proof (farm_names_NoDup db) as Hnd. rewrite Hsplit in Hnd.
  destruct (build_loop_collision u earlier l3 r1 r2 Hnd) as
    (st & k & Hb & Hinv & Hk & Hr2 & Hbase & Hall).
  { unfold earlier. apply elem_of_app. right. apply elem_of_cons. auto. }
  { assumption. }
  exists (sorted_by (lower u) (alias_keys st)), (alias_to_internal st),
    (internal_to_alias st), k.
  split; [unfold build_farm_alias_maps; rewrite Hsplit, Hb; reflexivity|].
  split; [assumption|]. split; [assumption|].
  split; [apply Hinv; assumption|]. split; [assumption|].
  split; [assumption|]. exact Hinv.
Qed.
End AliasClaims.

Lemma alias_collision_suffix_witness :
  let db := Storage.mkDb
              [Storage.mkAnimal "PH-001" None (Some "magpantay");
               Storage.mkAnimal "PH-002" None (Some "K-farm")] [] in
  AliasDirectory.farm_names db = ([] ++ "K-farm" :: [] ++ "magpantay" :: [])%list
  ∧ exists aliases a2i i2a k,
      AliasDirectory.build_farm_alias_maps id db = Some (aliases, a2i, i2a)
      ∧ 2 <= k
      ∧ i2a !! "magpantay" = Some (AliasDirectory.suffixed "K-farm" k).
Proof.
  intros db. split; [vm_compute; reflexivity|].
  destruct (alias_collision_suffix id db [] [] [] "K-farm" "magpantay")
    as [(aliases & a2i & i2a & k & Hb & Hk & Hr & _) _].
  - vm_compute; reflexivity.
  - vm_compute; reflexivity.
  - exists aliases, a2i, i2a, k. repeat split; assumption.
Defined.

Example alias_directory_example :
  let db := Storage.mkDb
              [Storage.mkAnimal "PH-001" None (Some "magpantay");
               Storage.mkAnimal "PH-002" None (Some "K-farm");
               Storage.mkAnimal "PH-003" None (Some "Samabaco");
               Storage.mkAnimal "PH-004" None (Some "");
               Storage.mkAnimal "PH-005" None None;
               Storage.mkAnimal "PH-006" None (Some "K-farm")] [] in
  (λ r, (r.1.1,
         (r.2 !! "K-farm", r.2 !! "Samabaco", r.2 !! "magpantay"),
         (r.1.2 !! "K-farm-2", size r.1.2, size r.2)))
    <$> AliasDirectory.build_farm_alias_maps id db
  = Some (["J-farm"; "K-farm"; "K-farm-2"],
          (Some "K-farm", Some "J-farm", Some "K-farm-2"),
          (Some "magpantay", 3, 3)).
Proof. vm_compute. reflexivity. Qed.

(** ** Orders on months and dates *)

Section OrderFacts.
Import Calendar.
Local Open Scope Z_scope.

Lemma ym_ltb_irrefl (a : ym) : ym_ltb a a = false.
Proof. unfold ym_ltb. destruct a as [y m]. simpl. lia. Qed.

Lemma ym_ltb_trans (a b c : ym) :
  ym_ltb a b = true -> ym_ltb b c = true -> ym_ltb a c = true.
Proof.
  unfold ym_ltb. destruct a as [y1 m1], b as [y2 m2], c as [y3 m3]. simpl. lia.
Qed.

Lemma ym_ltb_tricho (a b : ym) :
  ym_ltb a b = false -> ym_ltb b a = false -> a = b.
Proof.
  unfold ym_ltb. destruct a as [y1 m1], b as [y2 m2]. simpl. intros H1 H2.
  f_equal; lia.
Qed.

Lemma date_ltb_irrefl (a : date) : date_ltb a a = false.
Proof. unfold date_ltb. lia. Qed.

Lemma date_ltb_trans (a b c : date) :
  date_ltb a b = true -> date_ltb b c = true -> date_ltb a c = true.
Proof. unfold date_ltb. lia. Qed.

Lemma date_ltb_tricho (a b : date) :
  date_ltb a b = false -> date_ltb b a = false -> a = b.
Proof.
  unfold date_ltb. destruct a as [y1 m1 d1], b as [y2 m2 d2]. simpl.
  intros H1 H2. f_equal; lia.
Qed.

Lemma date_leb_refl (a : date) : date_leb a a = true.
Proof. unfold date_leb. rewrite date_ltb_irrefl. reflexivity. Qed.

Lemma date_leb_trans (a b c : date) :
  date_leb a b = true -> date_leb b c = true -> date_leb a c = true.
Proof. unfold date_leb, date_ltb. lia. Qed.

Lemma Z_ltb_tricho (a b : Z) : (a <? b) = false -> (b <? a) = false -> a = b.
Proof. lia. Qed.

Lemma Z_ltb_trans (a b c : Z) : (a <? b) = true -> (b <? c) = true -> (a <? c) = true.
Proof. lia. Qed.
End OrderFacts.

(** ** The queries *)

Section QueryFacts.
Import Calendar Storage Aggregator.

Lemma count_distinct_pos {A} `{EqDecision A} (l : list A) :
  l ≠ [] -> 1 <= count_distinct l.
Proof.
  destruct l as [|x l]; [congruence|]. intros _. unfold count_distinct.
  assert (Hx : x ∈ remove_dups (x :: l)).
  { apply elem_of_remove_dups, elem_of_cons. auto. }
  destruct (remove_dups (x :: l)); [inversion Hx|simpl; lia].
Qed.

Lemma elem_of_years (rows : list milk_yield) (y : Z) :
  y ∈ years rows <-> exists m, m ∈ rows ∧ record_year m = y.
Proof.
  unfold years. rewrite elem_of_distinct_sorted by apply Z_ltb_tricho.
  rewrite list_elem_of_fmap. split; intros (m & H1 & H2); eauto.
Qed.

Lemma elem_of_months (rows : list milk_yield) (k : ym) :
  k ∈ months rows <-> exists m, m ∈ rows ∧ month_of (record_date m) = k.
Proof.
  unfold months. rewrite elem_of_distinct_sorted by apply ym_ltb_tricho.
  rewrite list_elem_of_fmap. split; intros (m & H1 & H2); eauto.
Qed.

Lemma years_sorted (rows : list milk_yield) :
  StronglySorted (λ a b, (a <? b)%Z = true) (years rows).
Proof. apply distinct_sorted_sorted; [apply Z_ltb_trans|apply Z_ltb_tricho]. Qed.

Lemma months_sorted (rows : list milk_yield) :
  StronglySorted (λ a b, ym_ltb a b = true) (months rows).
Proof. apply distinct_sorted_sorted; [apply ym_ltb_trans|apply ym_ltb_tricho]. Qed.

Lemma months_NoDup (rows : list milk_yield) : NoDup (months rows).
Proof.
  apply distinct_sorted_NoDup;
    [apply ym_ltb_irrefl|apply ym_ltb_trans|apply ym_ltb_tricho].
Qed.

Lemma in_year_nonempty (rows : list milk_yield) (y : Z) :
  y ∈ years rows -> in_year y rows ≠ [].
Proof.
  intros (m & Hm & Hy)%elem_of_years Hnil.
  assert (H : m ∈ in_year y rows) by (apply list_elem_of_filter; auto).
  rewrite Hnil in H. inversion H.
Qed.

Lemma in_month_nonempty (rows : list milk_yield) (k : ym) :
  k ∈ months rows -> in_month k rows ≠ [].
Proof.
  intros (m & Hm & Hy)%elem_of_months Hnil.
  assert (H : m ∈ in_month k rows) by (apply list_elem_of_filter; auto).
  rewrite Hnil in H. inversion H.
Qed.

Lemma joined_length (db : database) (farm : string) (m : milk_yield) :
  length (a ← animals db;
          if bool_decide (m_ear_tag m = a_ear_tag a ∧ a_farm_name a = Some farm)
          then [m] else [])
  = length (filter (λ a, a_ear_tag a = m_ear_tag m)
              (filter (λ a, a_farm_name a = Some farm) (animals db))).
Proof.
  induction (animals db) as [|a l IH]; [reflexivity|].
  rewrite bind_cons, length_app, IH. rewrite (filter_cons _ a).
  destruct (decide (a_farm_name a = Some farm)) as [Hf|Hf].
  - rewrite filter_cons. destruct (decide (a_ear_tag a = m_ear_tag m)) as [Ht|Ht].
    + rewrite bool_decide_eq_true_2 by auto. reflexivity.
    + rewrite bool_decide_eq_false_2 by (intros [? ?]; congruence). reflexivity.
  - rewrite bool_decide_eq_false_2 by tauto. reflexivity.
Qed.

Lemma filter_copies {A} (P : A -> Prop) `{forall x, Decision (P x)}
    (m : A) (l : list A) :
  (forall x, x ∈ l -> x = m) ->
  filter P l = if decide (P m) then l else [].
Proof.
  induction l as [|x l IH]; intros Hall.
  - destruct (decide (P m)); reflexivity.
  - rewrite filter_cons, IH by (intros; apply Hall, elem_of_cons; auto).
    rewrite (Hall x) by (apply elem_of_cons; auto).
    destruct (decide (P m)); reflexivity.
Qed.

Lemma filter_bind_copies {A} (P : A -> Prop) `{forall x, Decision (P x)}
    (f : A -> list A) (l : list A) :
  (forall m x, x ∈ f m -> x = m) ->
  filter P (l ≫= f) = filter P l ≫= f.
Proof.
  intros Hf. induction l as [|m l IH]; [reflexivity|].
  rewrite bind_cons, filter_app, IH, filter_cons.
  rewrite (filter_copies P m (f m)) by apply Hf.
  destruct (decide (P m)); [rewrite bind_cons|]; reflexivity.
Qed.

(** The rows of a farm in a table from which records were removed. *)
Lemma farm_rows_filter (P : milk_yield -> Prop) `{forall m, Decision (P m)}
    (db : database) (farm : string) :
  filter P (farm_rows db farm)
  = farm_rows (mkDb (animals db) (filter P (milk_yields db))) farm.
Proof.
  unfold farm_rows. simpl. apply filter_bind_copies.
  intros m x Hx. apply list_elem_of_bind in Hx as (a & Hx & _).
  case_bool_decide; [|inversion Hx].
  apply list_elem_of_singleton in Hx. exact Hx.
Qed.

Lemma animal_rows_filter (P : milk_yield -> Prop) `{forall m, Decision (P m)}
    (db : database) (tag : string) :
  filter P (animal_rows db tag)
  = animal_rows (mkDb (animals db) (filter P (milk_yields db))) tag.
Proof.
  unfold animal_rows. simpl. rewrite !list_filter_filter.
  apply list_filter_iff. tauto.
Qed.
End QueryFacts.

(** ** The trailing-12-month frame *)

Section TrendFacts.
Import Calendar Storage Aggregator.

Lemma round_liters_spec (df : list (ym * float)) (l : list (ym * Z)) :
  round_liters df = Some l ->
  Forall2 (λ x y, y.1 = x.1 ∧ astype_int (rint x.2) = Some y.2) df l.
Proof.
  unfold round_liters. intros H. apply mapM_Some in H.
  eapply Forall2_impl; [exact H|]. intros x y Hxy. simpl in Hxy.
  destruct (astype_int (rint x.2)) as [v|]; simpl in Hxy; [|discriminate].
  injection Hxy as <-. auto.
Qed.

Lemma filter_key_NoDup (right : list (ym * Z)) (k : ym) :
  NoDup (map fst right) ->
  (filter (λ c, c.1 = k) right = [] ∧ k ∉ map fst right)
  ∨ exists v, filter (λ c, c.1 = k) right = [(k, v)] ∧ (k, v) ∈ right.
Proof.
  induction right as [|[k' v'] right IH]; intros Hnd.
  - left. split; [reflexivity|]. apply not_elem_of_nil.
  - simpl in Hnd. apply NoDup_cons in Hnd as [Hk' Hnd].
    rewrite filter_cons. simpl. destruct (decide (k' = k)) as [->|Hne].
    + right. exists v'. split; [|apply elem_of_cons; auto].
      f_equal. destruct (IH Hnd) as [[-> _]|(v & _ & Hv)]; [reflexivity|].
      exfalso. apply Hk'. apply list_elem_of_fmap. exists (k, v). auto.
    + destruct (IH Hnd) as [[-> Hk]|(v & -> & Hv)].
      * left. split; [reflexivity|]. simpl. rewrite elem_of_cons.
        intros [Heq|Hin]; [congruence|contradiction].
      * right. exists v. split; [reflexivity|]. apply elem_of_cons. auto.
Qed.

(** A left join on a key that is unique in the right frame: the rows of
    the left frame, in their order, each once. *)
Lemma merge_left_spec (left right : list (ym * Z)) :
  NoDup (map fst right) ->
  Forall2 (λ x y, y.1.1 = x.1 ∧ y.1.2 = x.2
                  ∧ ((exists v, y.2 = Some v ∧ (x.1, v) ∈ right)
                     ∨ (y.2 = None ∧ x.1 ∉ map fst right)))
    left (merge_left left right).
Proof.
  intros Hnd. unfold merge_left. induction left as [|x left IH]; [constructor|].
  rewrite bind_cons.
  destruct (filter_key_NoDup right x.1 Hnd) as [[-> Hk]|(v & -> & Hv)]; simpl.
  - constructor; [|exact IH]. simpl. auto.
  - constructor; [|exact IH]. simpl. split; [reflexivity|]. split; [reflexivity|].
    left. eauto.
Qed.

Lemma trend_frame_spec (liters : list (ym * float)) (sessions : list (ym * Z))
    (t : list trend) :
  NoDup (map fst sessions) ->
  trend_frame liters sessions = Some t ->
  Forall2 (λ x row,
           t_month row = x.1
           ∧ astype_int (rint x.2) = Some (t_liters row)
           ∧ ((x.1, t_sessions row) ∈ sessions
              ∨ ((x.1 ∉ map fst sessions) ∧ t_sessions row = 0%Z)))
    liters t.
Proof.
  intros Hnd. unfold trend_frame.
  destruct liters as [|x0 liters0] eqn:El; [intros [= <-]; constructor|].
  rewrite <- El. clear El x0 liters0.
  destruct (round_liters liters) as [l|] eqn:Hr; simpl; [|discriminate].
  intros [= <-]. apply round_liters_spec in Hr.
  pose proof (merge_left_spec l sessions Hnd) as Hm.
  unfold fill_sessions. apply Forall2_fmap_r.
  revert Hm. generalize (merge_left l sessions). clear Hnd.
  induction Hr as [|x y liters l [Hk Hv] Hr IH]; intros ml Hm.
  - inversion Hm. constructor.
  - inversion Hm as [|? z ? ml' (Hz1 & Hz2 & Hz3) Hm']; subst.
    constructor; [|apply IH; assumption]. simpl.
    split; [congruence|]. split; [congruence|].
    destruct Hz3 as [(v & -> & Hin)|[-> Hout]]; simpl.
    + left. rewrite <- Hk. assumption.
    + right. rewrite <- Hk. auto.
Qed.

Lemma monthly_liters_keys (rows : list milk_yield) :
  map fst (monthly_liters rows) = months rows.
Proof. unfold monthly_liters. rewrite map_map. simpl. apply map_id. Qed.

Lemma monthly_cows_keys (rows : list milk_yield) :
  map fst (monthly_cows rows) = months rows.
Proof. unfold monthly_cows. rewrite map_map. simpl. apply map_id. Qed.

Lemma monthly_records_keys (rows : list milk_yield) :
  map fst (monthly_records rows) = months rows.
Proof. unfold monthly_records. rewrite map_map. simpl. apply map_id. Qed.
End TrendFacts.

(** ** The two summaries *)

Section SummaryFacts.
Import Calendar Storage Aggregator.
Variable representable : date -> bool.

Lemma farm_yield_summary_Some (db : database) (today : date) (farm : string)
    (s : farm_summary) :
  farm_yield_summary db today farm = Some s <->
  exists since t,
    sub_days today 365 = Some since
    ∧ trend_frame (monthly_liters (since_rows since (farm_rows db farm)))
                  (monthly_cows (since_rows since (farm_rows db farm))) = Some t
    ∧ s = mkFarmSummary (total_liters (farm_rows db farm))
            (lactation_days (farm_rows db farm))
            (farm_year_breakdown (farm_rows db farm)) t.
Proof.
  unfold farm_yield_summary. split.
  - destruct (sub_days today 365) as [since|]; simpl; [|discriminate].
    destruct (trend_frame _ _) as [t|] eqn:Ht; simpl; [|discriminate].
    intros [= <-]. eauto.
  - intros (since & t & -> & Ht & ->). simpl. rewrite Ht. reflexivity.
Qed.

Lemma animal_yield_summary_Some (db : database) (today : date) (tag : string)
    (s : animal_summary) :
  animal_yield_summary representable db today tag = Some s <->
  exists since t,
    sub_days today 365 = Some since
    ∧ trend_frame (monthly_liters (since_rows since (animal_rows db tag)))
                  (monthly_records (since_rows since (animal_rows db tag))) = Some t
    ∧ s = mkAnimalSummary (total_liters (animal_rows db tag))
            (lactation_days (animal_rows db tag))
            (duration_days representable (animal_rows db tag) (lactation_days (animal_rows db tag)))
            (animal_year_breakdown (animal_rows db tag)) t
            (animal_stats_of (animal_rows db tag)).
Proof.
  unfold animal_yield_summary. split.
  - destruct (sub_days today 365) as [since|]; simpl; [|discriminate].
    destruct (trend_frame _ _) as [t|] eqn:Ht; simpl; [|discriminate].
    intros [= <-]. eauto.
  - intros (since & t & -> & Ht & ->). simpl. rewrite Ht. reflexivity.
Qed.

(** The rows of a trend: one for each month of the records in the
    window, in ascending order. *)
Lemma trend_months (recent : list milk_yield) (sessions : list (ym * Z))
    (t : list trend) :
  map fst sessions = months recent ->
  trend_frame (monthly_liters recent) sessions = Some t ->
  map t_month t = months recent
  ∧ Forall (λ row, exists l, (t_month row, l) ∈ monthly_liters recent
                      ∧ astype_int (rint l) = Some (t_liters row)
                      ∧ (t_month row, t_sessions row) ∈ sessions) t.
Proof.
  intros Hkeys Ht. apply trend_frame_spec in Ht.
  2: { rewrite Hkeys. apply months_NoDup. }
  split.
  - rewrite <- monthly_liters_keys.
    induction Ht as [|x row l t (Hm & _) _ IH]; [reflexivity|].
    simpl. rewrite Hm, IH. reflexivity.
  - assert (Hin : forall x, x ∈ monthly_liters recent -> x.1 ∈ map fst sessions).
    { intros x Hx. rewrite Hkeys, <- monthly_liters_keys.
      apply list_elem_of_fmap. eauto. }
    revert Hin. induction Ht as [|x row l t (Hm & Hl & Hs) _ IH]; intros Hin;
      constructor.
    + exists x.2. rewrite Hm. split.
      * destruct x. apply elem_of_cons. auto.
      * split; [assumption|]. destruct Hs as [Hs|[Hs _]]; [assumption|].
        exfalso. apply Hs, Hin, elem_of_cons. auto.
    + eapply Forall_impl; [apply IH|].
      * intros y Hy. apply Hin, elem_of_cons. auto.
      * intros row' (l' & H1 & H2 & H3). exists l'.
        split; [apply elem_of_cons; auto|]. auto.
Qed.
End SummaryFacts.

Section BreakdownClaims.
Import Calendar Storage Aggregator.
Variable representable : date -> bool.

Lemma farm_year_breakdown_spec (rows : list milk_yield) (e : farm_year) :
  e ∈ farm_year_breakdown rows ->
  fy_avg_daily e = np_round1 (fy_liters e / float_of_nat (fy_days e))
  ∧ 1 <= fy_days e
  ∧ fy_days e = count_distinct (map record_date (in_year (fy_year e) rows))
  ∧ fy_liters e = sum_floats (map yield_value (in_year (fy_year e) rows))
  ∧ exists m, m ∈ rows ∧ record_year m = fy_year e.
Proof.
  unfold farm_year_breakdown. intros (y & -> & Hy)%list_elem_of_fmap. simpl.
  split; [reflexivity|]. split.
  - apply count_distinct_pos. intros Hnil%fmap_nil_inv.
    exact (in_year_nonempty rows y Hy Hnil).
  - split; [reflexivity|]. split; [reflexivity|]. apply elem_of_years. assumption.
Qed.

Lemma animal_year_breakdown_spec (rows : list milk_yield) (e : animal_year) :
  e ∈ animal_year_breakdown rows ->
  ay_avg_daily e = np_round1 (ay_liters e / float_of_nat (ay_days e))
  ∧ 1 <= ay_days e
  ∧ ay_days e = count_distinct (map record_date (in_year (ay_year e) rows))
  ∧ ay_liters e = sum_floats (map yield_value (in_year (ay_year e) rows))
  ∧ exists m, m ∈ rows ∧ record_year m = ay_year e.
Proof.
  unfold animal_year_breakdown. intros (y & -> & Hy)%list_elem_of_fmap. simpl.
  split; [reflexivity|]. split.
  - apply count_distinct_pos. intros Hnil%fmap_nil_inv.
    exact (in_year_nonempty rows y Hy Hnil).
  - split; [reflexivity|]. split; [reflexivity|]. apply elem_of_years. assumption.
Qed.

(** C5. In every entry of the year breakdown of a farm summary and of an
    animal summary, [avg_daily] is [liters / days] rounded to one decimal
    by [Series.round(1)]; the entry's year has a record of the scope, so
    [days], the number of distinct dates of that year, is at least 1. *)
Theorem year_breakdown_avg_daily (db : database) (today : date)
    (farm ear_tag : string) :
  (forall s, farm_yield_summary db today farm = Some s ->
     forall e, e ∈ fs_year s ->
       fy_avg_daily e = np_round1 (fy_liters e / float_of_nat (fy_days e))
       ∧ 1 <= fy_days e
       ∧ fy_days e
         = count_distinct
             (map record_date (in_year (fy_year e) (farm_rows db farm)))
       ∧ fy_liters e
         = sum_floats (map yield_value (in_year (fy_year e) (farm_rows db farm)))
       ∧ exists m, m ∈ farm_rows db farm ∧ record_year m = fy_year e)
  ∧ (forall s, animal_yield_summary representable db today ear_tag = Some s ->
       forall e, e ∈ as_year s ->
         ay_avg_daily e = np_round1 (ay_liters e / float_of_nat (ay_days e))
         ∧ 1 <= ay_days e
         ∧ ay_days e
           = count_distinct
               (map record_date (in_year (ay_year e) (animal_rows db ear_tag)))
         ∧ ay_liters e
           = sum_floats
               (map yield_value (in_year (ay_year e) (animal_rows db ear_tag)))
         ∧ exists m, m ∈ animal_rows db ear_tag ∧ record_year m = ay_year e).
Proof.
  split.
  - intros s (since & t & _ & _ & ->)%farm_yield_summary_Some e He.
    apply farm_year_breakdown_spec. exact He.
  - intros s (since & t & _ & _ & ->)%animal_yield_summary_Some e He.
    apply animal_year_breakdown_spec. exact He.
Qed.
End BreakdownClaims.

Lemma year_breakdown_avg_daily_witness :
  let db := Storage.mkDb
      [Storage.mkAnimal "PH-001" None (Some "Rivera")]
      [Storage.mkYield "PH-001" (Calendar.mkDate 2023 6 1) 2023 5%float;
       Storage.mkYield "PH-001" (Calendar.mkDate 2023 6 3) 2023 7.5%float;
       Storage.mkYield "PH-001" (Calendar.mkDate 2024 1 9) 2024 8%float] in
  let today := Calendar.mkDate 2024 3 1 in
  exists s e,
    Aggregator.farm_yield_summary db today "Rivera" = Some s
    ∧ e ∈ Aggregator.fs_year s
    ∧ Aggregator.fy_year e = 2023%Z
    ∧ Aggregator.fy_avg_daily e = 0x1.8cccccccccccdp+2%float
    ∧ Aggregator.fy_avg_daily e
      = Aggregator.np_round1
          (Aggregator.fy_liters e / Aggregator.float_of_nat (Aggregator.fy_days e))
    ∧ 1 <= Aggregator.fy_days e.
Proof.
  intros db today.
  destruct (Aggregator.farm_yield_summary db today "Rivera") as [s|] eqn:Hs;
    [|vm_compute in Hs; discriminate].
  pose (e := Aggregator.mkFarmYear 2023 12.5 2 1 0x1.8cccccccccccdp+2).
  assert (He : e ∈ Aggregator.fs_year s).
  { assert (H : Some s = Aggregator.farm_yield_summary db today "Rivera") by (symmetry; exact Hs).
    vm_compute in H. injection H as ->. apply elem_of_cons. left. reflexivity. }
  exists s, e. split; [reflexivity|]. split; [exact He|].
  split; [reflexivity|]. split; [reflexivity|].
  destruct (proj1 (year_breakdown_avg_daily (λ _, true) db today "Rivera" "PH-001") s Hs e He)
    as (H1 & H2 & _).
  split; assumption.
Defined.

(** ** The calendar *)

Section CalendarFacts.
Import Calendar.
Local Open Scope Z_scope.

Ltac div_lia := Z.to_euclidean_division_equations; lia.

Lemma month_cases (m : Z) :
  1 <= m <= 12 ->
  m = 1 ∨ m = 2 ∨ m = 3 ∨ m = 4 ∨ m = 5 ∨ m = 6
  ∨ m = 7 ∨ m = 8 ∨ m = 9 ∨ m = 10 ∨ m = 11 ∨ m = 12.
Proof. lia. Qed.

Lemma days_before_year_succ (y : Z) :
  _days_before_year (y + 1)
  = _days_before_year y + 365 + (if _is_leap y then 1 else 0).
Proof.
  unfold _days_before_year, _is_leap.
  replace (y + 1 - 1) with y by lia.
  destruct (y mod 4 =? 0) eqn:E4, (y mod 100 =? 0) eqn:E100,
    (y mod 400 =? 0) eqn:E400; simpl; div_lia.
Qed.

Lemma days_before_year_mono (y y' : Z) :
  y <= y' -> _days_before_year y <= _days_before_year y'.
Proof.
  intros H. assert (Hk : forall k : nat,
              _days_before_year y <= _days_before_year (y + Z.of_nat k)).
  { induction k as [|k IH].
    - replace (y + Z.of_nat 0) with y by lia. lia.
    - replace (y + Z.of_nat (S k)) with (y + Z.of_nat k + 1) by lia.
      rewrite days_before_year_succ. destruct (_is_leap (y + Z.of_nat k)); lia. }
  specialize (Hk (Z.to_nat (y' - y))).
  replace (y + Z.of_nat (Z.to_nat (y' - y))) with y' in Hk by lia. exact Hk.
Qed.

(** The day of the year of a day of the calendar. *)
Lemma day_of_year_range (y m d : Z) :
  1 <= m <= 12 -> 1 <= d <= _days_in_month y m ->
  1 <= _days_before_month y m + d <= 365 + (if _is_leap y then 1 else 0).
Proof.
  unfold _days_in_month, _days_before_month. intros Hm.
  destruct (_is_leap y);
    destruct (month_cases m Hm) as [->|[->|[->|[->|[->|[->|[->|[->|[->|[->|[->| ->]]]]]]]]]]];
    simpl; lia.
Qed.

Lemma day_of_year_bounds (y m d : Z) :
  valid_date (mkDate y m d) = true ->
  1 <= _days_before_month y m + d <= 365 + (if _is_leap y then 1 else 0).
Proof.
  unfold valid_date. simpl. intros H. apply day_of_year_range; lia.
Qed.

Lemma day_of_year_mono (y m d m' d' : Z) :
  valid_date (mkDate y m d) = true -> valid_date (mkDate y m' d') = true ->
  m < m' ->
  _days_before_month y m + d < _days_before_month y m' + d'.
Proof.
  unfold valid_date, _days_in_month, _days_before_month. simpl.
  intros H H' Hlt.
  assert (Hm : 1 <= m <= 12) by lia. assert (Hm' : 1 <= m' <= 12) by lia.
  destruct (_is_leap y);
    destruct (month_cases m Hm) as [->|[->|[->|[->|[->|[->|[->|[->|[->|[->|[->| ->]]]]]]]]]]];
    destruct (month_cases m' Hm') as [->|[->|[->|[->|[->|[->|[->|[->|[->|[->|[->| ->]]]]]]]]]]];
    simpl in *; lia.
Qed.

(** The ordinal grows with the date. *)
Lemma toordinal_mono (a b : date) :
  valid_date a = true -> valid_date b = true ->
  date_ltb a b = true -> toordinal a < toordinal b.
Proof.
  destruct a as [y m d], b as [y' m' d']. intros Ha Hb.
  unfold date_ltb, toordinal, _ymd2ord. simpl. intros Hlt.
  pose proof (day_of_year_bounds _ _ _ Ha) as Ba.
  pose proof (day_of_year_bounds _ _ _ Hb) as Bb.
  destruct (Z.lt_trichotomy y y') as [Hy|[->|Hy]]; [|clear Ba Bb|lia].
  - pose proof (days_before_year_succ y) as Hs.
    pose proof (days_before_year_mono (y + 1) y' ltac:(lia)).
    destruct (_is_leap y); lia.
  - destruct (Z.lt_trichotomy m m') as [Hm|[->|Hm]]; [|lia|lia].
    pose proof (day_of_year_mono _ _ _ _ _ Ha Hb Hm). lia.
Qed.

Lemma toordinal_lt_iff (a b : date) :
  valid_date a = true -> valid_date b = true ->
  date_ltb a b = true <-> toordinal a < toordinal b.
Proof.
  intros Ha Hb. split; [apply toordinal_mono; assumption|].
  intros Hlt. destruct (date_ltb a b) eqn:E; [reflexivity|].
  destruct (date_ltb b a) eqn:E'.
  - pose proof (toordinal_mono _ _ Hb Ha E'). lia.
  - pose proof (date_ltb_tricho _ _ E E') as ->. lia.
Qed.

Lemma toordinal_le_iff (a b : date) :
  valid_date a = true -> valid_date b = true ->
  date_leb a b = true <-> toordinal a <= toordinal b.
Proof.
  intros Ha Hb. unfold date_leb. rewrite negb_true_iff. split.
  - intros E. destruct (Z.lt_ge_cases (toordinal b) (toordinal a)) as [Hl|Hl]; [|lia].
    apply toordinal_lt_iff in Hl; [congruence|assumption|assumption].
  - intros Hle. destruct (date_ltb b a) eqn:E; [|reflexivity].
    apply toordinal_lt_iff in E; [lia|assumption|assumption].
Qed.

(** The ordinals of the dates that [datetime.date] can hold. *)
Lemma toordinal_bounds (d : date) :
  valid_date d = true -> 1 <= toordinal d <= _MAXORDINAL.
Proof.
  destruct d as [y m d]. intros Hv. unfold toordinal, _ymd2ord. simpl.
  pose proof (day_of_year_bounds _ _ _ Hv) as B.
  assert (Hy : 1 <= y <= 9999) by (unfold valid_date in Hv; simpl in Hv; lia).
  pose proof (days_before_year_mono 1 y ltac:(lia)) as H1.
  pose proof (days_before_year_succ y) as Hs.
  pose proof (days_before_year_mono (y + 1) 10000 ltac:(lia)) as H2.
  change (_days_before_year 1) with 0 in H1.
  change (_days_before_year 10000) with 3652059 in H2.
  unfold _MAXORDINAL. destruct (_is_leap y); lia.
Qed.

Lemma toordinal_year_2 (d : date) :
  valid_date d = true -> 2 <= year d -> 365 < toordinal d.
Proof.
  destruct d as [y m d]. simpl. intros Hv Hy. unfold toordinal, _ymd2ord. simpl.
  pose proof (day_of_year_bounds _ _ _ Hv) as B.
  pose proof (days_before_year_mono 2 y ltac:(lia)) as H1.
  change (_days_before_year 2) with 365 in H1. lia.
Qed.

(** [today - timedelta(days=365)] is defined from the year 2 on. *)
Lemma sub_days_365 (today : date) :
  valid_date today = true -> 2 <= year today ->
  sub_days today 365 = Some (_ord2ymd (toordinal today - 365)).
Proof.
  intros Hv Hy. unfold sub_days.
  pose proof (toordinal_bounds _ Hv). pose proof (toordinal_year_2 _ Hv Hy).
  replace ((0 <? toordinal today - 365) && (toordinal today - 365 <=? _MAXORDINAL))
    with true; [reflexivity|]. unfold _MAXORDINAL in *. lia.
Qed.
End CalendarFacts.

Section OrdinalFacts.
Import Calendar.
Local Open Scope Z_scope.
Ltac div_lia := Z.to_euclidean_division_equations; lia.

Lemma month_day_table :
  forallb (month_day_ok true) (map Z.of_nat (seq 0 365)) = true
  ∧ forallb (month_day_ok false) (map Z.of_nat (seq 0 365)) = true.
Proof. split; vm_compute; reflexivity. Qed.

Lemma month_day_spec (n : Z) (leapyear : bool) :
  0 <= n < 365 -> month_day_ok leapyear n = true.
Proof.
  intros Hn. pose proof month_day_table as [Ht Hf].
  rewrite forallb_forall in Ht, Hf.
  assert (Hin : In n (map Z.of_nat (seq 0 365))).
  { apply in_map_iff. exists (Z.to_nat n). split; [lia|]. apply in_seq. lia. }
  destruct leapyear; auto.
Qed.

Lemma year_decomp (q400 q100 q4 q1 : Z) :
  0 <= q100 <= 3 -> 0 <= q4 <= 24 -> 0 <= q1 <= 3 ->
  let y := 400 * q400 + 100 * q100 + 4 * q4 + q1 + 1 in
  _days_before_year y = 146097 * q400 + 36524 * q100 + 1461 * q4 + 365 * q1
  ∧ _is_leap y = (q1 =? 3) && (negb (q4 =? 24) || (q100 =? 3)).
Proof.
  intros H100 H4 H1 y. split.
  - unfold _days_before_year, y. div_lia.
  - unfold _is_leap, y.
    destruct (q1 =? 3) eqn:E1, (q4 =? 24) eqn:E2, (q100 =? 3) eqn:E3;
      destruct (_ mod 4 =? 0) eqn:F4, (_ mod 100 =? 0) eqn:F100,
        (_ mod 400 =? 0) eqn:F400; simpl; try reflexivity; exfalso; div_lia.
Qed.

Lemma ord2ymd_unfold (n : Z) :
  _ord2ymd n
  = let n0 := n - 1 in
    let q400 := n0 / 146097 in
    let r400 := n0 mod 146097 in
    let q100 := r400 / 36524 in
    let r100 := r400 mod 36524 in
    let q4 := r100 / 1461 in
    let r4 := r100 mod 1461 in
    let q1 := r4 / 365 in
    let r1 := r4 mod 365 in
    let y := q400 * 400 + 1 + q100 * 100 + q4 * 4 + q1 in
    if (q1 =? 4) || (q100 =? 4) then mkDate (y - 1) 12 31
    else
      let leapyear := (q1 =? 3) && (negb (q4 =? 24) || (q100 =? 3)) in
      mkDate y (month_day r1 leapyear).1 (month_day r1 leapyear).2.
Proof.
  unfold _ord2ymd, month_day, _DI400Y, _DI100Y, _DI4Y. cbv zeta.
  destruct (_ || _); [reflexivity|].
  destruct (_ <? _); reflexivity.
Qed.

(** [_ord2ymd] inverts [_ymd2ord], and gives a day of the calendar. *)
Lemma ord2ymd_correct (n : Z) :
  1 <= n ->
  toordinal (_ord2ymd n) = n
  ∧ 1 <= month (_ord2ymd n) <= 12
  ∧ 1 <= day (_ord2ymd n)
         <= _days_in_month (year (_ord2ymd n)) (month (_ord2ymd n))
  ∧ _days_before_year (year (_ord2ymd n)) < n.
Proof.
  intros Hn. rewrite ord2ymd_unfold. cbv zeta.
  remember (n - 1) as n0 eqn:En0.
  remember (n0 / 146097) as q400 eqn:Eq400.
  remember (n0 mod 146097) as r400 eqn:Er400.
  remember (r400 / 36524) as q100 eqn:Eq100.
  remember (r400 mod 36524) as r100 eqn:Er100.
  remember (r100 / 1461) as q4 eqn:Eq4.
  remember (r100 mod 1461) as r4 eqn:Er4.
  remember (r4 / 365) as q1 eqn:Eq1.
  remember (r4 mod 365) as r1 eqn:Er1.
  assert (H400 : n0 = 146097 * q400 + r400 ∧ 0 <= r400 < 146097) by (subst q400 r400; div_lia).
  assert (H100 : r400 = 36524 * q100 + r100 ∧ 0 <= r100 < 36524) by (subst q100 r100; div_lia).
  assert (H4 : r100 = 1461 * q4 + r4 ∧ 0 <= r4 < 1461) by (subst q4 r4; div_lia).
  assert (H1 : r4 = 365 * q1 + r1 ∧ 0 <= r1 < 365) by (subst q1 r1; div_lia).
  clear Eq400 Er400 Eq100 Er100 Eq4 Er4 Eq1 Er1.
  assert (B100 : 0 <= q100 <= 4) by lia.
  assert (B4 : 0 <= q4 <= 24) by lia.
  assert (B1 : 0 <= q1 <= 4) by lia.
  destruct ((q1 =? 4) || (q100 =? 4)) eqn:Eedge.
  - (* the last day of a leap year *)
    unfold toordinal, _ymd2ord. simpl.
    destruct (Z.eq_dec q100 4) as [E|E].
    + assert (q4 = 0 ∧ q1 = 0 ∧ r1 = 0) as (-> & -> & ->) by lia. subst q100.
      destruct (year_decomp q400 3 24 3) as [Hd Hl]; try lia.
      cbv zeta in Hd, Hl.
      replace (q400 * 400 + 1 + 4 * 100 + 0 * 4 + 0 - 1)
        with (400 * q400 + 100 * 3 + 4 * 24 + 3 + 1) by lia.
      unfold _days_before_month, _days_in_month. rewrite Hd, Hl. simpl. lia.
    + assert (q1 = 4) as -> by lia.
      assert (q4 <= 23 ∧ r1 = 0 ∧ q100 <= 3) as (B4' & -> & B100') by lia.
      destruct (year_decomp q400 q100 q4 3) as [Hd Hl]; try lia.
      cbv zeta in Hd, Hl.
      replace (q400 * 400 + 1 + q100 * 100 + q4 * 4 + 4 - 1)
        with (400 * q400 + 100 * q100 + 4 * q4 + 3 + 1) by lia.
      unfold _days_before_month, _days_in_month. rewrite Hd, Hl.
      replace (q4 =? 24) with false by lia. simpl. lia.
  - assert (B100' : q100 <= 3) by lia. assert (B1' : q1 <= 3) by lia.
    destruct (year_decomp q400 q100 q4 q1) as [Hd Hl]; try lia.
    cbv zeta in Hd, Hl.
    replace (q400 * 400 + 1 + q100 * 100 + q4 * 4 + q1)
      with (400 * q400 + 100 * q100 + 4 * q4 + q1 + 1) by lia.
    set (leapyear := (q1 =? 3) && (negb (q4 =? 24) || (q100 =? 3))) in *.
    pose proof (month_day_spec r1 leapyear ltac:(lia)) as Hok.
    unfold month_day_ok in Hok.
    destruct (month_day r1 leapyear) as [m d].
    unfold toordinal, _ymd2ord, _days_before_month, _days_in_month.
    cbn [year month day fst snd]. rewrite Hd, Hl.
    destruct ((m =? 2) && leapyear), ((2 <? m) && leapyear); lia.
Qed.

Lemma ord2ymd_valid (n : Z) :
  1 <= n <= _MAXORDINAL -> valid_date (_ord2ymd n) = true.
Proof.
  intros Hn. destruct (ord2ymd_correct n ltac:(lia)) as (Ho & Hm & Hd & Hy).
  unfold toordinal, _ymd2ord in Ho. unfold valid_date.
  destruct (_ord2ymd n) as [y m d]. cbn [year month day] in *.
  pose proof (day_of_year_range y m d Hm Hd) as Hdoy.
  assert (Hlo : 1 <= y).
  { destruct (Z.lt_ge_cases y 1) as [Hlt|]; [|assumption]. exfalso.
    pose proof (days_before_year_succ y) as Hs.
    pose proof (days_before_year_mono (y + 1) 1 ltac:(lia)) as Hmo.
    change (_days_before_year 1) with 0 in Hmo.
    destruct (_is_leap y); lia. }
  assert (Hhi : y <= 9999).
  { destruct (Z.lt_ge_cases 9999 y) as [Hgt|]; [|lia].
    pose proof (days_before_year_mono 10000 y ltac:(lia)) as Hmo.
    change (_days_before_year 10000) with 3652059 in Hmo.
    unfold _MAXORDINAL in Hn. lia. }
  lia.
Qed.

(** What [today - timedelta(days=365)] is: the valid date 365 days
    before [today]. *)
Lemma sub_days_spec (today since : date) (k : Z) :
  valid_date today = true ->
  sub_days today k = Some since ->
  valid_date since = true ∧ toordinal since = toordinal today - k.
Proof.
  intros Hv. unfold sub_days.
  destruct ((0 <? toordinal today - k) && (toordinal today - k <=? _MAXORDINAL))
    eqn:E; [|discriminate].
  intros [= <-]. split.
  - apply ord2ymd_valid. lia.
  - apply ord2ymd_correct. lia.
Qed.
End OrdinalFacts.

Section EmptyScope.
Import Calendar Storage Aggregator.
Variable representable : date -> bool.

(** C8. A farm or an ear tag without any yield record: both summaries
    return, with total 0, 0 lactation days, an empty year breakdown and an
    empty trend; for the animal the duration falls back to the 0 lactation
    days, and the three statistics are missing values. [today] is any date
    from which 365 days can be subtracted. *)
Theorem empty_scope_summary (db : database) (today : date)
    (farm ear_tag : string) :
  valid_date today = true -> (2 <= year today)%Z ->
  (farm_rows db farm = [] ->
   farm_yield_summary db today farm = Some (mkFarmSummary 0 0 [] []))
  ∧ (animal_rows db ear_tag = [] ->
     animal_yield_summary representable db today ear_tag
     = Some (mkAnimalSummary 0 0 0 [] [] (mkStats None None None))).
Proof.
  intros Hv Hy. split; intros Hrows.
  - unfold farm_yield_summary. rewrite (sub_days_365 today Hv Hy), Hrows.
    reflexivity.
  - unfold animal_yield_summary. rewrite (sub_days_365 today Hv Hy), Hrows.
    reflexivity.
Qed.
End EmptyScope.

Lemma empty_scope_summary_witness :
  let today := Calendar.mkDate 2026 11 3 in
  Calendar.valid_date today = true ∧ (2 <= Calendar.year today)%Z
  ∧ Storage.farm_rows example_animal_db "Santos" = []
  ∧ Storage.animal_rows example_animal_db "PH-999" = []
  ∧ Aggregator.farm_yield_summary example_animal_db today "Santos"
    = Some (Aggregator.mkFarmSummary 0 0 [] [])
  ∧ Aggregator.animal_yield_summary (λ _, true) example_animal_db today "PH-999"
    = Some (Aggregator.mkAnimalSummary 0 0 0 [] []
              (Aggregator.mkStats None None None)).
Proof.
  intros today.
  assert (Hv : Calendar.valid_date today = true) by (vm_compute; reflexivity).
  assert (Hy : (2 <= Calendar.year today)%Z) by (simpl; lia).
  assert (Hf : Storage.farm_rows example_animal_db "Santos" = [])
    by (vm_compute; reflexivity).
  assert (Ha : Storage.animal_rows example_animal_db "PH-999" = [])
    by (vm_compute; reflexivity).
  destruct (empty_scope_summary (λ _, true) example_animal_db today "Santos" "PH-999" Hv Hy)
    as [H1 H2].
  repeat split; auto.
Defined.

Section FarmExample.
Import Calendar Storage Aggregator.

Lemma since_rows_all (since : date) (rows : list milk_yield) :
  Forall (λ m, date_leb since (record_date m) = true) rows ->
  since_rows since rows = rows.
Proof.
  unfold since_rows. induction 1 as [|m rows Hm _ IH]; [reflexivity|].
  rewrite filter_cons, IH. destruct (decide _); [reflexivity|contradiction].
Qed.

Lemma since_rows_none (since : date) (rows : list milk_yield) :
  Forall (λ m, date_leb since (record_date m) = false) rows ->
  since_rows since rows = [].
Proof.
  unfold since_rows. induction 1 as [|m rows Hm _ IH]; [reflexivity|].
  rewrite filter_cons, IH. destruct (decide _) as [Ht|]; [congruence|reflexivity].
Qed.

Lemma filter_either {A} (P Q : A -> Prop) `{forall x, Decision (P x)}
    `{forall x, Decision (Q x)} (l : list A) :
  (forall x, P x -> Q x -> False) ->
  filter (λ x, P x ∨ Q x) l ≡ₚ (filter P l ++ filter Q l)%list.
Proof.
  intros Hdisj. induction l as [|x l IH]; [reflexivity|].
  rewrite !filter_cons.
  destruct (decide (P x)) as [HP|HP]; destruct (decide (Q x)) as [HQ|HQ].
  - destruct (Hdisj x HP HQ).
  - rewrite decide_True by auto. simpl. rewrite IH. reflexivity.
  - rewrite decide_True by auto. rewrite IH. apply Permutation_middle.
  - rewrite decide_False by tauto. exact IH.
Qed.

(** The join for a farm with two animals, of different ear tags: the
    records with one of the two ear tags, each once. *)
Lemma farm_rows_two (db : database) (farm : string) (a1 a2 : animal) :
  filter (λ a, a_farm_name a = Some farm) (animals db) ≡ₚ [a1; a2] ->
  a_ear_tag a1 ≠ a_ear_tag a2 ->
  farm_rows db farm
  = filter (λ m, m_ear_tag m = a_ear_tag a1 ∨ m_ear_tag m = a_ear_tag a2)
      (milk_yields db).
Proof.
  intros Hp Hne. unfold farm_rows.
  induction (milk_yields db) as [|m ms IH]; [reflexivity|].
  rewrite bind_cons, IH, filter_cons. f_equal. clear IH.
  set (l := a ← animals db;
            if bool_decide (m_ear_tag m = a_ear_tag a ∧ a_farm_name a = Some farm)
            then [m] else []).
  assert (Hall : forall x, x ∈ l -> x = m).
  { intros x Hx. apply list_elem_of_bind in Hx as (a & Hx & _).
    case_bool_decide; [|inversion Hx]. apply list_elem_of_singleton in Hx. exact Hx. }
  assert (Hlen : length l
                 = length (filter (λ a, a_ear_tag a = m_ear_tag m) [a1; a2])).
  { unfold l. rewrite joined_length, Hp. reflexivity. }
  rewrite !filter_cons, filter_nil in Hlen.
  destruct (decide (m_ear_tag m = a_ear_tag a1 ∨ m_ear_tag m = a_ear_tag a2))
    as [[Ht|Ht]|Ht].
  - rewrite decide_True, decide_False in Hlen by congruence. simpl in Hlen.
    destruct l as [|x [|y l']]; [discriminate| |discriminate].
    rewrite (Hall x) by (apply elem_of_cons; auto). reflexivity.
  - rewrite decide_False, decide_True in Hlen by congruence. simpl in Hlen.
    destruct l as [|x [|y l']]; [discriminate| |discriminate].
    rewrite (Hall x) by (apply elem_of_cons; auto). reflexivity.
  - rewrite !decide_False in Hlen by (intros ?; apply Ht; auto). simpl in Hlen.
    destruct l; [reflexivity|discriminate].
Qed.

Lemma count_distinct_two {A} `{EqDecision A} (x y : A) :
  x ≠ y -> count_distinct [x; y] = 2.
Proof.
  intros Hne. unfold count_distinct. simpl.
  destruct (decide_rel elem_of x [y]) as [Hin|_]; [|reflexivity].
  apply list_elem_of_singleton in Hin. contradiction.
Qed.

(** The two records of the example, in either order of the scan. *)
Lemma example_rows_summary (rows : list milk_yield) (r1 r2 : milk_yield) :
  rows = [r1; r2] ∨ rows = [r2; r1] ->
  m_ear_tag r1 ≠ m_ear_tag r2 ->
  record_date r1 = mkDate 2024 1 15 -> yield_value r1 = 10%float ->
  record_date r2 = mkDate 2024 1 15 -> yield_value r2 = 12.5%float ->
  total_liters rows = 22.5%float
  ∧ lactation_days rows = 1
  ∧ trend_frame (monthly_liters rows) (monthly_cows rows)
    = Some [mkTrend (2024, 1)%Z 22 2].
Proof.
  intros Hrows Hne Hd1 Hv1 Hd2 Hv2.
  destruct r1 as [t1 d1 y1 v1], r2 as [t2 d2 y2 v2]. simpl in *. subst.
  assert (Hne' : t2 ≠ t1) by congruence.
  destruct Hrows as [-> | ->].
  - split; [vm_compute; reflexivity|]. split; [vm_compute; reflexivity|].
    assert (Hl : monthly_liters
                   [mkYield t1 (mkDate 2024 1 15) y1 10;
                    mkYield t2 (mkDate 2024 1 15) y2 12.5]
                 = [((2024, 1)%Z, 22.5%float)]) by (vm_compute; reflexivity).
    assert (Hc : monthly_cows
                   [mkYield t1 (mkDate 2024 1 15) y1 10;
                    mkYield t2 (mkDate 2024 1 15) y2 12.5]
                 = [((2024, 1)%Z, Z.of_nat (count_distinct [t1; t2]))])
      by (vm_compute; reflexivity).
    rewrite Hl, Hc, (count_distinct_two t1 t2 Hne). vm_compute. reflexivity.
  - split; [vm_compute; reflexivity|]. split; [vm_compute; reflexivity|].
    assert (Hl : monthly_liters
                   [mkYield t2 (mkDate 2024 1 15) y2 12.5;
                    mkYield t1 (mkDate 2024 1 15) y1 10]
                 = [((2024, 1)%Z, 22.5%float)]) by (vm_compute; reflexivity).
    assert (Hc : monthly_cows
                   [mkYield t2 (mkDate 2024 1 15) y2 12.5;
                    mkYield t1 (mkDate 2024 1 15) y1 10]
                 = [((2024, 1)%Z, Z.of_nat (count_distinct [t2; t1]))])
      by (vm_compute; reflexivity).
    rewrite Hl, Hc, (count_distinct_two t2 t1 Hne'). vm_compute. reflexivity.
Qed.

(** C4, as the code has it. A farm with exactly two animals, of different
    ear tags, each with exactly one record, dated 2024-01-15, of 10.0 and
    of 12.5 litres; [today] is any day from which 365 days can be
    subtracted. The summary has 1 lactation day and 22.5 litres in total.
    Its trend is the one row of 2024-01, with 2 sessions and 22 litres
    ([Series.round(0)] takes the half 22.5 to the even 22), when
    2024-01-15 is not before [today - 365 days], and it is empty when it
    is. *)
Theorem farm_example_summary (db : database) (today : date) (farm : string)
    (a1 a2 : animal) (r1 r2 : milk_yield) :
  valid_date today = true -> (2 <= year today)%Z ->
  filter (λ a, a_farm_name a = Some farm) (animals db) ≡ₚ [a1; a2] ->
  a_ear_tag a1 ≠ a_ear_tag a2 ->
  animal_rows db (a_ear_tag a1) = [r1] ->
  animal_rows db (a_ear_tag a2) = [r2] ->
  record_date r1 = mkDate 2024 1 15 -> yield_value r1 = 10%float ->
  record_date r2 = mkDate 2024 1 15 -> yield_value r2 = 12.5%float ->
  exists since s,
    sub_days today 365 = Some since
    ∧ farm_yield_summary db today farm = Some s
    ∧ fs_days s = 1
    ∧ fs_total s = 22.5%float
    ∧ (date_leb since (mkDate 2024 1 15) = true ->
       fs_12mo s = [mkTrend (2024, 1)%Z 22 2])
    ∧ (date_leb since (mkDate 2024 1 15) = false -> fs_12mo s = []).
Proof.
  intros Hv Hy Hp Hne H1 H2 Hd1 Hv1 Hd2 Hv2.
  assert (Ht1 : m_ear_tag r1 = a_ear_tag a1).
  { assert (Hin : r1 ∈ animal_rows db (a_ear_tag a1))
      by (rewrite H1; apply elem_of_cons; auto).
    apply list_elem_of_filter in Hin. tauto. }
  assert (Ht2 : m_ear_tag r2 = a_ear_tag a2).
  { assert (Hin : r2 ∈ animal_rows db (a_ear_tag a2))
      by (rewrite H2; apply elem_of_cons; auto).
    apply list_elem_of_filter in Hin. tauto. }
  assert (Hrows : farm_rows db farm = [r1; r2] ∨ farm_rows db farm = [r2; r1]).
  { rewrite (farm_rows_two db farm a1 a2 Hp Hne).
    apply Permutation_length_2_inv. symmetry.
    rewrite filter_either by (intros; congruence).
    unfold animal_rows in H1, H2. rewrite H1, H2. reflexivity. }
  destruct (example_rows_summary _ r1 r2 Hrows ltac:(congruence) Hd1 Hv1 Hd2 Hv2)
    as (Htotal & Hdays & Htrend).
  exists (_ord2ymd (toordinal today - 365)).
  pose proof (sub_days_365 today Hv Hy) as Hs.
  destruct (date_leb (_ord2ymd (toordinal today - 365)) (mkDate 2024 1 15)) eqn:Hle.
  - eexists. split; [exact Hs|]. split.
    + unfold farm_yield_summary. rewrite Hs. simpl.
      rewrite (since_rows_all _ (farm_rows db farm)), Htrend; [reflexivity|].
      destruct Hrows as [-> | ->]; repeat constructor; congruence.
    + simpl. split; [exact Hdays|]. split; [exact Htotal|].
      split; [reflexivity|discriminate].
  - eexists. split; [exact Hs|]. split.
    + unfold farm_yield_summary. rewrite Hs. simpl.
      rewrite (since_rows_none _ (farm_rows db farm)); [reflexivity|].
      destruct Hrows as [-> | ->]; repeat constructor; congruence.
    + simpl. split; [exact Hdays|]. split; [exact Htotal|].
      split; [discriminate|reflexivity].
Qed.
End FarmExample.

Lemma farm_example_summary_witness :
  let today := Calendar.mkDate 2024 2 1 in
  exists since s,
    Calendar.sub_days today 365 = Some since
    ∧ Aggregator.farm_yield_summary example_farm_db today "Rivera" = Some s
    ∧ Aggregator.fs_days s = 1
    ∧ Aggregator.fs_total s = 22.5%float
    ∧ Aggregator.fs_12mo s = [Aggregator.mkTrend (2024, 1)%Z 22 2].
Proof.
  intros today.
  destruct (farm_example_summary example_farm_db today "Rivera"
              (Storage.mkAnimal "PH-101" None (Some "Rivera"))
              (Storage.mkAnimal "PH-102" None (Some "Rivera"))
              (Storage.mkYield "PH-101" (Calendar.mkDate 2024 1 15) 2024 10%float)
              (Storage.mkYield "PH-102" (Calendar.mkDate 2024 1 15) 2024 12.5%float))
    as (since & s & Hs & Hsum & Hdays & Htotal & Hin & _).
  - vm_compute. reflexivity.
  - simpl. lia.
  - vm_compute. reflexivity.
  - discriminate.
  - vm_compute. reflexivity.
  - vm_compute. reflexivity.
  - reflexivity.
  - reflexivity.
  - reflexivity.
  - reflexivity.
  - exists since, s. split; [exact Hs|]. split; [exact Hsum|].
    split; [exact Hdays|]. split; [exact Htotal|]. apply Hin.
    assert (Hs' : Calendar.sub_days today 365 = Some (Calendar.mkDate 2023 2 1))
      by (vm_compute; reflexivity).
    rewrite Hs in Hs'. injection Hs' as ->. vm_compute. reflexivity.
Defined.

(** C4, as it is stated, fails: with [today] = 2024-02-01 the summary of the
    example farm is not the one with 23 litres in the 2024-01 row. *)
Lemma farm_example_liters_not_23 :
  ~ (exists s,
       Aggregator.farm_yield_summary example_farm_db (Calendar.mkDate 2024 2 1) "Rivera"
       = Some s
       ∧ Aggregator.fs_days s = 1
       ∧ Aggregator.fs_total s = 22.5%float
       ∧ Aggregator.fs_12mo s = [Aggregator.mkTrend (2024, 1)%Z 23 2]).
Proof.
  intros (s & Hs & _ & _ & Ht).
  assert (H : Aggregator.farm_yield_summary example_farm_db (Calendar.mkDate 2024 2 1) "Rivera"
              = Some (Aggregator.mkFarmSummary 22.5 1
                        [Aggregator.mkFarmYear 2024 22.5 1 2 22.5]
                        [Aggregator.mkTrend (2024, 1)%Z 22 2]))
    by (vm_compute; reflexivity).
  rewrite H in Hs. injection Hs as <-. simpl in Ht. injection Ht as Ht. lia.
Qed.

Section JoinClaims.
Import Calendar Storage Aggregator.
Variable representable : date -> bool.

Lemma monthly_cows_pos (rows : list milk_yield) (k : ym) (v : Z) :
  (k, v) ∈ monthly_cows rows -> (1 <= v)%Z.
Proof.
  unfold monthly_cows. intros (k' & [= -> ->] & Hk)%list_elem_of_fmap.
  assert (H : 1 <= count_distinct (map m_ear_tag (in_month k' rows))).
  { apply count_distinct_pos. intros Hnil%fmap_nil_inv.
    exact (in_month_nonempty rows k' Hk Hnil). }
  lia.
Qed.

Lemma monthly_records_pos (rows : list milk_yield) (k : ym) (v : Z) :
  (k, v) ∈ monthly_records rows -> (1 <= v)%Z.
Proof.
  unfold monthly_records. intros (k' & [= -> ->] & Hk)%list_elem_of_fmap.
  pose proof (in_month_nonempty rows k' Hk) as Hne.
  destruct (in_month k' rows); [congruence|simpl; lia].
Qed.






End JoinClaims.


(** The merge by itself is a left join: fed with series of different
    months, which the two queries of a summary never give, it keeps the
    months of the litres series only. *)
Example trend_frame_left_join_example :
  Aggregator.trend_frame [((2024, 1)%Z, 5%float)] [((2024, 2)%Z, 3%Z)]
  = Some [Aggregator.mkTrend (2024, 1)%Z 5 0].
Proof. vm_compute. reflexivity. Qed.

(** [ROUND(x, 1)] as SQLite computes it: 6.0 stays; 6.05, 0.15 and 1.45,
    whose binary64 values lie below the half, go up to 6.1, 0.2 and 1.5,
    and so does the binary64 just below 0.05; beyond 16 significant
    digits the decimal is lost. *)
Example sql_round1_examples :
  map Storage.sql_round1
    [6%float;
     0x1.8333333333333p+2%float;      (* 6.05 *)
     0x1.3333333333333p-3%float;      (* 0.15 *)
     0x1.7333333333333p+0%float;      (* 1.45 *)
     (-0x1.8333333333333p+2)%float;   (* -6.05 *)
     0x1.9999999999998p-5%float;      (* 0.04999999999999999 *)
     0x1.c6bf526340002p+49%float]     (* 1000000000000000.25 *)
  = [6%float;
     0x1.8666666666666p+2%float;      (* 6.1 *)
     0x1.999999999999ap-3%float;      (* 0.2 *)
     1.5%float;
     (-0x1.8666666666666p+2)%float;   (* -6.1 *)
     0x1.999999999999ap-4%float;      (* 0.1 *)
     1000000000000000%float].
Proof. vm_compute. reflexivity. Qed.

(** ** First and last record date of an animal *)

Section DurationFacts.
Import Calendar Storage Aggregator.
Variable representable : date -> bool.
Local Open Scope Z_scope.

Lemma fold_date_min (l : list date) (x : date) :
  fold_left date_min l x ∈ x :: l
  ∧ forall y, y ∈ x :: l -> date_leb (fold_left date_min l x) y = true.
Proof.
  revert x. induction l as [|z l IH]; intros x; simpl.
  - split; [apply elem_of_cons; auto|].
    intros y Hy. apply list_elem_of_singleton in Hy as ->. apply date_leb_refl.
  - destruct (IH (date_min x z)) as [Hin Hle]. split.
    + apply elem_of_cons in Hin as [Hin|Hin].
      * rewrite Hin. unfold date_min. destruct (date_ltb z x).
        -- apply elem_of_cons. right. apply elem_of_cons. auto.
        -- apply elem_of_cons. auto.
      * apply elem_of_cons. right. apply elem_of_cons. auto.
    + intros y Hy.
      assert (Hx : date_leb (date_min x z) x = true ∧ date_leb (date_min x z) z = true).
      { unfold date_min, date_leb. destruct (date_ltb z x) eqn:E.
        - split; [|rewrite date_ltb_irrefl; reflexivity].
          destruct (date_ltb x z) eqn:E'; [|reflexivity].
          pose proof (date_ltb_trans _ _ _ E E') as Hc.
          rewrite date_ltb_irrefl in Hc. discriminate.
        - rewrite date_ltb_irrefl, E. auto. }
      destruct Hx as [Hx Hz].
      assert (Hm : date_leb (fold_left date_min l (date_min x z)) (date_min x z) = true).
      { apply Hle. apply elem_of_cons. auto. }
      apply elem_of_cons in Hy as [->|Hy]; [eapply date_leb_trans; eassumption|].
      apply elem_of_cons in Hy as [->|Hy]; [eapply date_leb_trans; eassumption|].
      apply Hle. apply elem_of_cons. auto.
Qed.

Lemma fold_date_max (l : list date) (x : date) :
  fold_left date_max l x ∈ x :: l
  ∧ forall y, y ∈ x :: l -> date_leb y (fold_left date_max l x) = true.
Proof.
  revert x. induction l as [|z l IH]; intros x; simpl.
  - split; [apply elem_of_cons; auto|].
    intros y Hy. apply list_elem_of_singleton in Hy as ->. apply date_leb_refl.
  - destruct (IH (date_max x z)) as [Hin Hle]. split.
    + apply elem_of_cons in Hin as [Hin|Hin].
      * rewrite Hin. unfold date_max. destruct (date_ltb x z).
        -- apply elem_of_cons. right. apply elem_of_cons. auto.
        -- apply elem_of_cons. auto.
      * apply elem_of_cons. right. apply elem_of_cons. auto.
    + intros y Hy.
      assert (Hx : date_leb x (date_max x z) = true ∧ date_leb z (date_max x z) = true).
      { unfold date_max, date_leb. destruct (date_ltb x z) eqn:E.
        - split; [|rewrite date_ltb_irrefl; reflexivity].
          destruct (date_ltb z x) eqn:E'; [|reflexivity].
          pose proof (date_ltb_trans _ _ _ E E') as Hc.
          rewrite date_ltb_irrefl in Hc. discriminate.
        - rewrite date_ltb_irrefl, E. auto. }
      destruct Hx as [Hx Hz].
      assert (Hm : date_leb (date_max x z) (fold_left date_max l (date_max x z)) = true).
      { apply Hle. apply elem_of_cons. auto. }
      apply elem_of_cons in Hy as [->|Hy]; [eapply date_leb_trans; eassumption|].
      apply elem_of_cons in Hy as [->|Hy]; [eapply date_leb_trans; eassumption|].
      apply Hle. apply elem_of_cons. auto.
Qed.

Lemma sql_min_date_spec (l : list date) :
  l ≠ [] ->
  exists d, sql_min_date l = Some d ∧ d ∈ l
            ∧ forall y, y ∈ l -> date_leb d y = true.
Proof.
  destruct l as [|x l]; [congruence|]. intros _.
  exists (fold_left date_min l x). split; [reflexivity|]. apply fold_date_min.
Qed.

Lemma sql_max_date_spec (l : list date) :
  l ≠ [] ->
  exists d, sql_max_date l = Some d ∧ d ∈ l
            ∧ forall y, y ∈ l -> date_leb y d = true.
Proof.
  destruct l as [|x l]; [congruence|]. intros _.
  exists (fold_left date_max l x). split; [reflexivity|]. apply fold_date_max.
Qed.

(** The duration of an animal with records, all on days of the calendar
    that a timestamp can hold. *)
Lemma duration_days_spec (rows : list milk_yield) (days : nat) :
  rows ≠ [] ->
  (forall m, m ∈ rows ->
     valid_date (record_date m) = true ∧ representable (record_date m) = true) ->
  exists first last,
    first ∈ rows ∧ last ∈ rows
    ∧ (forall m, m ∈ rows ->
         toordinal (record_date first) <= toordinal (record_date m)
         <= toordinal (record_date last))
    ∧ duration_days representable rows days
      = toordinal (record_date last) - toordinal (record_date first) + 1.
Proof.
  intros Hne Hv.
  assert (Hne' : map record_date rows ≠ []) by (intros H%fmap_nil_inv; auto).
  destruct (sql_min_date_spec _ Hne') as (d0 & E0 & Hin0 & Hle0).
  destruct (sql_max_date_spec _ Hne') as (d1 & E1 & Hin1 & Hle1).
  apply list_elem_of_fmap in Hin0 as (first & -> & Hf).
  apply list_elem_of_fmap in Hin1 as (last & -> & Hl).
  exists first, last. split; [assumption|]. split; [assumption|]. split.
  - intros m Hm. split.
    + apply toordinal_le_iff; try apply Hv; auto. apply Hle0, list_elem_of_fmap. eauto.
    + apply toordinal_le_iff; try apply Hv; auto. apply Hle1, list_elem_of_fmap. eauto.
  - unfold duration_days, to_date. rewrite E0, E1. simpl.
    destruct (Hv first Hf) as [-> ->]. destruct (Hv last Hl) as [-> ->]. reflexivity.
Qed.

(** Without a first or a last date that can be parsed, the duration is the
    number of lactation days. *)
Lemma duration_days_fallback (days : nat) :
  duration_days representable [] days = Z.of_nat days.
Proof. reflexivity. Qed.
End DurationFacts.

Section WindowClaims.
Import Calendar Storage Aggregator.
Variable representable : date -> bool.
Local Open Scope Z_scope.

Lemma window_trend (today since : date) (rows : list milk_yield)
    (sessions : list (ym * Z)) (t : list trend) :
  valid_date today = true ->
  sub_days today 365 = Some since ->
  map fst sessions = months (since_rows since rows) ->
  trend_frame (monthly_liters (since_rows since rows)) sessions = Some t ->
  window_trend_spec today rows t.
Proof.
  intros Hv Hs Hkeys Ht.
  destruct (sub_days_spec today since 365 Hv Hs) as [Hvs Hord].
  destruct (trend_months _ _ _ Hkeys Ht) as [Hm _].
  exists since. split; [assumption|]. split; [assumption|]. split; [assumption|].
  split; [assumption|]. split; [rewrite Hm; apply months_sorted|]. split.
  - intros k. rewrite Hm, elem_of_months. unfold since_rows. split.
    + intros (m & Hin & Hk). apply list_elem_of_filter in Hin as [Hw Hin]. eauto.
    + intros (m & Hin & Hw & Hk). exists m. split; [|assumption].
      apply list_elem_of_filter. auto.
  - intros m Hvm. rewrite toordinal_le_iff by assumption. lia.
Qed.

(** C7. In both summaries the trend is made from the records of the scope
    whose date is not before [today - 365 days] (a record dated exactly
    365 days before [today] is in): its months are those of these
    records, each once, in ascending order, a month without such a record
    has no row, and two tables that differ only in older records have the
    same trend. *)
Theorem trailing_trend_window (db : database) (today : date)
    (farm ear_tag : string) :
  valid_date today = true ->
  (forall s, farm_yield_summary db today farm = Some s ->
     window_trend_spec today (farm_rows db farm) (fs_12mo s)
     ∧ forall db' since,
         sub_days today 365 = Some since ->
         animals db' = animals db ->
         since_rows since (milk_yields db') = since_rows since (milk_yields db) ->
         exists s', farm_yield_summary db' today farm = Some s'
                    ∧ fs_12mo s' = fs_12mo s)
  ∧ (forall s, animal_yield_summary representable db today ear_tag = Some s ->
       window_trend_spec today (animal_rows db ear_tag) (as_12mo s)
       ∧ forall db' since,
           sub_days today 365 = Some since ->
           animals db' = animals db ->
           since_rows since (milk_yields db') = since_rows since (milk_yields db) ->
           exists s', animal_yield_summary representable db' today ear_tag = Some s'
                      ∧ as_12mo s' = as_12mo s).
Proof.
  intros Hv. split.
  - intros s (since & t & Hs & Ht & ->)%farm_yield_summary_Some. simpl. split.
    + eapply window_trend; eauto. apply monthly_cows_keys.
    + intros db' since' Hs' Ha Hy. assert (since' = since) as -> by congruence.
      assert (Hrows : since_rows since (farm_rows db' farm)
                      = since_rows since (farm_rows db farm)).
      { unfold since_rows in *. rewrite !farm_rows_filter, Ha, Hy. reflexivity. }
      eexists. split.
      * apply farm_yield_summary_Some. exists since, t.
        split; [assumption|]. split; [rewrite Hrows; exact Ht|reflexivity].
      * reflexivity.
  - intros s (since & t & Hs & Ht & ->)%animal_yield_summary_Some. simpl. split.
    + eapply window_trend; eauto. apply monthly_records_keys.
    + intros db' since' Hs' Ha Hy. assert (since' = since) as -> by congruence.
      assert (Hrows : since_rows since (animal_rows db' ear_tag)
                      = since_rows since (animal_rows db ear_tag)).
      { unfold since_rows in *. rewrite !animal_rows_filter, Ha, Hy. reflexivity. }
      eexists. split.
      * apply animal_yield_summary_Some. exists since, t.
        split; [assumption|]. split; [rewrite Hrows; exact Ht|reflexivity].
      * reflexivity.
Qed.

(** C9. The duration of an animal with records is the number of days from
    its first to its last record date, both included. For the animal of
    the example (5.0 litres on 2023-06-01, 7.0 on 2023-06-03) the duration
    is 3 days, on 2 lactation days; the largest yield is 7.0, the smallest
    5.0, and the average per record, rounded to one decimal, 6.0. The
    record dates are days of the calendar that a timestamp can hold. *)
Theorem animal_duration_days (db : database) (today : date)
    (ear_tag : string) (s : animal_summary) :
  animal_yield_summary representable db today ear_tag = Some s ->
  animal_rows db ear_tag ≠ [] ->
  (forall m, m ∈ animal_rows db ear_tag ->
     valid_date (record_date m) = true ∧ representable (record_date m) = true) ->
  (exists first last,
     first ∈ animal_rows db ear_tag ∧ last ∈ animal_rows db ear_tag
     ∧ (forall m, m ∈ animal_rows db ear_tag ->
          toordinal (record_date first) <= toordinal (record_date m)
          <= toordinal (record_date last))
     ∧ as_duration s
       = toordinal (record_date last) - toordinal (record_date first) + 1)
  ∧ (forall today' since,
       sub_days today' 365 = Some since ->
       representable (mkDate 2023 6 1) = true ->
       representable (mkDate 2023 6 3) = true ->
       exists s',
         animal_yield_summary representable example_animal_db today' "PH-201" = Some s'
         ∧ as_duration s' = 3
         ∧ as_days s' = 2%nat
         ∧ as_stats s' = mkStats (Some 6%float) (Some 7%float) (Some 5%float)).
Proof.
  intros (since & t & _ & _ & ->)%animal_yield_summary_Some Hne Hvalid. split.
  - simpl. apply duration_days_spec; assumption.
  - clear. intros today' since Hs R1 R3.
    assert (Hrows : animal_rows example_animal_db "PH-201"
                    = [mkYield "PH-201" (mkDate 2023 6 1) 2023 5%float;
                       mkYield "PH-201" (mkDate 2023 6 3) 2023 7%float])
      by (vm_compute; reflexivity).
    assert (Hdur : duration_days representable
                     [mkYield "PH-201" (mkDate 2023 6 1) 2023 5%float;
                      mkYield "PH-201" (mkDate 2023 6 3) 2023 7%float] 2 = 3).
    { unfold duration_days, to_date. simpl.
    change (date_min (mkDate 2023 6 1) (mkDate 2023 6 3)) with (mkDate 2023 6 1).
    change (date_max (mkDate 2023 6 1) (mkDate 2023 6 3)) with (mkDate 2023 6 3).
    rewrite R1, R3. reflexivity. }
    unfold animal_yield_summary. rewrite Hs, Hrows. simpl mbind.
    change (lactation_days
              [mkYield "PH-201" (mkDate 2023 6 1) 2023 5%float;
               mkYield "PH-201" (mkDate 2023 6 3) 2023 7%float]) with 2%nat.
    rewrite Hdur.
    unfold since_rows. rewrite !filter_cons, filter_nil. simpl record_date.
    destruct (decide (date_leb since (mkDate 2023 6 1) = true));
      destruct (decide (date_leb since (mkDate 2023 6 3) = true));
      (eexists; split; [vm_compute; reflexivity|];
       repeat split; vm_compute; reflexivity).
Qed.
End WindowClaims.

Lemma trailing_trend_window_witness :
  let today := Calendar.mkDate 2025 1 14 in
  Calendar.valid_date today = true
  ∧ Calendar.sub_days today 365 = Some (Calendar.mkDate 2024 1 15)
  ∧ exists s,
      Aggregator.farm_yield_summary example_farm_db today "Rivera" = Some s
      ∧ Aggregator.fs_12mo s = [Aggregator.mkTrend (2024, 1)%Z 22 2]
      ∧ window_trend_spec today (Storage.farm_rows example_farm_db "Rivera")
          (Aggregator.fs_12mo s).
Proof.
  intros today.
  assert (Hv : Calendar.valid_date today = true) by (vm_compute; reflexivity).
  split; [exact Hv|]. split; [vm_compute; reflexivity|].
  pose (s := Aggregator.mkFarmSummary 22.5 1
               [Aggregator.mkFarmYear 2024 22.5 1 2 22.5]
               [Aggregator.mkTrend (2024, 1)%Z 22 2]).
  assert (Hs : Aggregator.farm_yield_summary example_farm_db today "Rivera" = Some s)
    by (vm_compute; reflexivity).
  exists s. split; [exact Hs|]. split; [reflexivity|].
  exact (proj1 (proj1 (trailing_trend_window (λ _, true) example_farm_db today "Rivera" "PH-101" Hv)
                  s Hs)).
Defined.

(** The window at its boundary: a record dated 365 days before [today] is
    in the trend, one dated 366 days before is not. *)
Example trend_window_boundary :
  Aggregator.fs_12mo
    <$> Aggregator.farm_yield_summary example_farm_db (Calendar.mkDate 2025 1 14) "Rivera"
  = Some [Aggregator.mkTrend (2024, 1)%Z 22 2]
  ∧ Aggregator.fs_12mo
      <$> Aggregator.farm_yield_summary example_farm_db (Calendar.mkDate 2025 1 15) "Rivera"
    = Some [].
Proof. split; vm_compute; reflexivity. Qed.

Lemma animal_duration_days_witness :
  let today := Calendar.mkDate 2023 7 1 in
  exists s first last,
    Aggregator.animal_yield_summary (λ _, true) example_animal_db today "PH-201" = Some s
    ∧ Storage.record_date first = Calendar.mkDate 2023 6 1
    ∧ Storage.record_date last = Calendar.mkDate 2023 6 3
    ∧ Aggregator.as_duration s
      = (Calendar.toordinal (Storage.record_date last)
         - Calendar.toordinal (Storage.record_date first) + 1)%Z
    ∧ Aggregator.as_duration s = 3%Z.
Proof.
  intros today.
  pose (r1 := Storage.mkYield "PH-201" (Calendar.mkDate 2023 6 1) 2023 5%float).
  pose (r2 := Storage.mkYield "PH-201" (Calendar.mkDate 2023 6 3) 2023 7%float).
  assert (Hrows : Storage.animal_rows example_animal_db "PH-201" = [r1; r2])
    by (vm_compute; reflexivity).
  pose (s := Aggregator.mkAnimalSummary 12 2 3
               [Aggregator.mkAnimalYear 2023 12 2 6]
               [Aggregator.mkTrend (2023, 6)%Z 12 2]
               (Aggregator.mkStats (Some 6%float) (Some 7%float) (Some 5%float))).
  assert (Hs : Aggregator.animal_yield_summary (λ _, true) example_animal_db today "PH-201"
               = Some s)
    by (vm_compute; reflexivity).
  destruct (animal_duration_days (λ _, true) example_animal_db today "PH-201" s Hs)
    as [(first & last & Hf & Hl & Hall & Hd) _].
  - rewrite Hrows. discriminate.
  - rewrite Hrows. intros m Hm.
    apply elem_of_cons in Hm as [->|Hm]; [split; vm_compute; reflexivity|].
    apply list_elem_of_singleton in Hm as ->. split; vm_compute; reflexivity.
  - exists s, r1, r2. split; [exact Hs|]. split; [reflexivity|].
    split; [reflexivity|]. split; vm_compute; reflexivity.
Defined.

(** ** Ordered rows *)

Section OrderByFacts.
Import Dashboard.
Context {A K : Type} (ltb : K -> K -> bool) (key : A -> K).
Hypothesis ltb_irrefl : forall a, ltb a a = false.
Hypothesis ltb_trans : forall a b c, ltb a b = true -> ltb b c = true -> ltb a c = true.
Hypothesis ltb_tricho : forall a b, ltb a b = false -> ltb b a = false -> a = b.

Lemma insert_row_Permutation (x : A) (l : list A) :
  insert_row ltb key x l ≡ₚ x :: l.
Proof.
  induction l as [|y l IH]; simpl; [reflexivity|].
  destruct (ltb (key x) (key y)); [reflexivity|].
  rewrite IH. apply Permutation_swap.
Qed.

Lemma order_by_Permutation (l : list A) : order_by ltb key l ≡ₚ l.
Proof.
  unfold order_by.
  assert (H : forall acc, fold_left (λ acc x, insert_row ltb key x acc) l acc ≡ₚ acc ++ l).
  { induction l as [|x l IH]; intros acc; simpl.
    - rewrite app_nil_r. reflexivity.
    - rewrite IH, insert_row_Permutation.
      rewrite (Permutation_middle acc l x). reflexivity. }
  apply (H []).
Qed.

Lemma not_ltb_trans (a b c : K) :
  ltb b a = false -> ltb c b = false -> ltb c a = false.
Proof.
  intros Hba Hcb. destruct (ltb c a) eqn:Hca; [|reflexivity].
  destruct (ltb b c) eqn:Hbc.
  - rewrite (ltb_trans _ _ _ Hbc Hca) in Hba. discriminate.
  - rewrite (ltb_tricho _ _ Hbc Hcb) in Hba. congruence.
Qed.

Lemma ltb_asym (a b : K) : ltb a b = true -> ltb b a = false.
Proof.
  intros Hab. destruct (ltb b a) eqn:Hba; [|reflexivity].
  pose proof (ltb_trans _ _ _ Hab Hba) as H. rewrite ltb_irrefl in H. discriminate.
Qed.

Lemma insert_row_sorted (x : A) (l : list A) :
  StronglySorted (λ a b, ltb (key b) (key a) = false) l ->
  StronglySorted (λ a b, ltb (key b) (key a) = false) (insert_row ltb key x l).
Proof.
  induction 1 as [|y l Hs IH Hy]; simpl.
  - repeat constructor.
  - destruct (ltb (key x) (key y)) eqn:E.
    + constructor; [constructor; assumption|].
      constructor; [apply ltb_asym; assumption|].
      eapply Forall_impl; [exact Hy|]. intros z Hz. simpl in Hz.
      eapply not_ltb_trans; [|exact Hz]. apply ltb_asym. assumption.
    + constructor; [assumption|].
      apply Forall_forall. intros z Hz.
      rewrite insert_row_Permutation in Hz.
      apply elem_of_cons in Hz as [->|Hz]; [assumption|].
      rewrite Forall_forall in Hy. auto.
Qed.

Lemma order_by_sorted (l : list A) :
  StronglySorted (λ a b, ltb (key b) (key a) = false) (order_by ltb key l).
Proof.
  unfold order_by.
  assert (H : forall acc,
             StronglySorted (λ a b, ltb (key b) (key a) = false) acc ->
             StronglySorted (λ a b, ltb (key b) (key a) = false)
               (fold_left (λ acc x, insert_row ltb key x acc) l acc)).
  { induction l as [|x l IH]; intros acc Hacc; simpl; [assumption|].
    apply IH, insert_row_sorted, Hacc. }
  apply H. constructor.
Qed.
End OrderByFacts.

Lemma StronglySorted_mono {A} (R1 R2 : A -> A -> Prop) (l : list A) :
  (forall a b, R1 a b -> R2 a b) -> StronglySorted R1 l -> StronglySorted R2 l.
Proof.
  intros H. induction 1 as [|x l Hs IH Hx]; constructor; [assumption|].
  eapply Forall_impl; [exact Hx|]. auto.
Qed.

(** ** The directory as the page uses it *)

Section DirectoryUse.
Import Anonymizer Storage AliasDirectory Dashboard.
Variable u : string -> string.

Lemma sorted_by_order_by (key : string -> string) (l : list string) :
  sorted_by key l = order_by String.ltb key l.
Proof.
  unfold sorted_by, order_by.
  assert (Hi : forall x acc, insert_stable key x acc = insert_row String.ltb key x acc).
  { intros x acc. induction acc as [|y acc IH]; simpl; [reflexivity|].
    rewrite IH. reflexivity. }
  generalize (@nil string). induction l as [|x l IH]; intros acc; simpl; [reflexivity|].
  rewrite Hi. apply IH.
Qed.

(** What [build_farm_alias_maps] returns, with the facts its loop keeps. *)
Lemma build_result (db : database) :
  exists st,
    build_farm_alias_maps u db
    = Some (sorted_by (lower u) (alias_keys st),
            alias_to_internal st, internal_to_alias st)
    ∧ build_loop u (farm_names db) empty_maps = Some st
    ∧ directory_inv u st
    ∧ keys_inv st
    ∧ forall r, is_Some (internal_to_alias st !! r) <-> r ∈ farm_names db.
Proof.
  destruct (build_loop_distinct u (farm_names db) (farm_names_NoDup db))
    as (st & Hb & Hinv & Hdom).
  exists st. split; [unfold build_farm_alias_maps; rewrite Hb; reflexivity|].
  split; [assumption|]. split; [assumption|]. split; [|assumption].
  eapply build_loop_keys; [apply keys_inv_empty|exact Hb].
Qed.

Lemma string_not_ltb_leb (a b : string) :
  String.ltb b a = false <-> String.leb a b = true.
Proof. rewrite string_ltb_leb, negb_false_iff. reflexivity. Qed.

(** X1. The list of aliases is in case-insensitive order. *)
Theorem aliases_case_insensitive_order (db : database)
    (aliases : list string) (a2i i2a : gmap string string) :
  build_farm_alias_maps u db = Some (aliases, a2i, i2a) ->
  StronglySorted (λ a b, String.leb (lower u a) (lower u b) = true) aliases.
Proof.
  destruct (build_result db) as (st & -> & _). intros [= <- _ _].
  rewrite sorted_by_order_by.
  eapply StronglySorted_mono; [|apply order_by_sorted].
  - intros a b H. apply string_not_ltb_leb. exact H.
  - apply string_ltb_irrefl.
  - apply string_ltb_trans.
  - apply string_ltb_tricho.
Qed.

(** X2. A choice in the farm selector other than the placeholder stands for a
    farm of the table, the one whose alias it is; every farm of the table
    has its alias among the options. *)
Theorem selected_farm_round_trip (db : database)
    (aliases : list string) (a2i i2a : gmap string string) :
  build_farm_alias_maps u db = Some (aliases, a2i, i2a) ->
  (forall choice,
     choice ∈ farm_options aliases -> choice ≠ PICK_FARM ->
     exists real,
       selected_farm u db choice = Some (Some real)
       ∧ real ∈ farm_names db ∧ real ≠ "" ∧ i2a !! real = Some choice)
  ∧ (forall real,
       real ∈ farm_names db ->
       exists alias,
         i2a !! real = Some alias ∧ alias ∈ farm_options aliases
         ∧ (alias ≠ PICK_FARM -> selected_farm u db alias = Some (Some real)))
  ∧ selected_farm u db PICK_FARM = Some None.
Proof.
  intros Hb. unfold selected_farm. rewrite Hb. simpl.
  destruct (build_result db) as (st & Hb' & _ & [Hinv _] & [_ Hkeys] & Hdom).
  rewrite Hb' in Hb. injection Hb as <- <- <-.
  split; [|split].
  - intros choice Hin Hne. unfold farm_options in Hin.
    apply elem_of_cons in Hin as [->|Hin]; [contradiction|].
    rewrite sorted_by_Permutation in Hin. apply Hkeys in Hin as [real Hreal].
    exists real. unfold farm_internal.
    rewrite bool_decide_eq_false_2 by assumption. rewrite Hreal. simpl.
    split; [reflexivity|]. apply Hinv in Hreal.
    assert (Hr : real ∈ farm_names db) by (apply Hdom; eauto).
    split; [assumption|]. split; [|assumption].
    apply elem_of_farm_names in Hr. tauto.
  - intros real Hr. apply Hdom in Hr as [alias Ha]. exists alias.
    split; [assumption|]. apply Hinv in Ha. split.
    + unfold farm_options. apply elem_of_cons. right.
      rewrite sorted_by_Permutation. apply Hkeys. eauto.
    + intros Hne. unfold farm_internal.
      rewrite bool_decide_eq_false_2 by assumption. rewrite Ha. reflexivity.
  - reflexivity.
Qed.
End DirectoryUse.

Section AliasShape.
Import Anonymizer Storage AliasDirectory Dashboard.
Variable u : string -> string.

Lemma assign_shape (st st' : maps) (r : string) :
  assign u st r = Some st' ->
  (forall x a, internal_to_alias st !! x = Some a -> alias_shape u x a) ->
  forall x a, internal_to_alias st' !! x = Some a -> alias_shape u x a.
Proof.
  intros Heq Hst x a.
  destruct (assign_spec u st r) as (alias & Heq' & _ & Hcand).
  rewrite Heq' in Heq. injection Heq as <-. simpl.
  destruct (decide (x = r)) as [->|Hne].
  - rewrite lookup_insert_eq. intros [= <-].
    destruct Hcand as [->|(k & Hk & -> & _)]; [left; reflexivity|].
    right. eauto.
  - rewrite lookup_insert_ne by congruence. apply Hst.
Qed.

Lemma build_loop_shape (names : list string) (st st' : maps) :
  build_loop u names st = Some st' ->
  (forall x a, internal_to_alias st !! x = Some a -> alias_shape u x a) ->
  forall x a, internal_to_alias st' !! x = Some a -> alias_shape u x a.
Proof.
  revert st. induction names as [|r names IH]; intros st; simpl.
  - intros [= <-]. auto.
  - destruct (assign u st r) as [st1|] eqn:E; simpl; [|discriminate].
    intros Hb Hst. eapply IH; [exact Hb|]. eapply assign_shape; eassumption.
Qed.

(** Every alias is the anonymised name, or that with a numeric suffix. *)
Lemma directory_shape (db : database)
    (aliases : list string) (a2i i2a : gmap string string) (real alias : string) :
  build_farm_alias_maps u db = Some (aliases, a2i, i2a) ->
  i2a !! real = Some alias -> alias_shape u real alias.
Proof.
  destruct (build_result u db) as (st & -> & Hb & _). intros [= _ _ <-].
  eapply build_loop_shape; [exact Hb|]. simpl.
  intros x a. rewrite lookup_empty. discriminate.
Qed.

Lemma pretty_N_go_ascii (x : N) (s : string) :
  ascii_only s = true -> ascii_only (pretty_N_go x s) = true.
Proof.
  revert s. induction (N.lt_wf_0 x) as [x _ IH]. intros s Hs.
  destruct (decide (0 < x)%N) as [Hx|Hx].
  - rewrite pretty_N_go_step by assumption. apply IH.
    + apply N.div_lt; lia.
    + unfold ascii_only in *. simpl. rewrite Hs, andb_true_r.
      unfold pretty_N_char. repeat case_match; reflexivity.
  - assert (x = 0%N) as -> by lia. rewrite pretty_N_go_0. assumption.
Qed.

Lemma pretty_nat_ascii (k : nat) : ascii_only (pretty k) = true.
Proof.
  unfold pretty, pretty_nat, pretty, pretty_N.
  case_decide; [reflexivity|]. apply pretty_N_go_ascii. reflexivity.
Qed.

Lemma anonymize_magpantay (r : string) :
  lower u r = "magpantay" -> anonymize_farm_name u (Some r) = "K-farm".
Proof. intros H. rewrite anonymize_unfold. simpl. rewrite H. vm_compute. reflexivity. Qed.

Lemma anonymize_samabaco (r : string) :
  lower u r = "samabaco" -> anonymize_farm_name u (Some r) = "J-farm".
Proof. intros H. rewrite anonymize_unfold. simpl. rewrite H. vm_compute. reflexivity. Qed.

Lemma lower_K_farm (t : string) :
  ascii_only t = true -> exists t', lower u ("K-farm" +:+ t) = String "k" t'.
Proof.
  intros Ht. unfold lower.
  assert (H : ascii_only ("K-farm" +:+ t) = true) by (unfold ascii_only in *; simpl; exact Ht).
  rewrite H. simpl. eauto.
Qed.

Lemma lower_J_farm (t : string) :
  ascii_only t = true -> exists t', lower u ("J-farm" +:+ t) = String "j" t'.
Proof.
  intros Ht. unfold lower.
  assert (H : ascii_only ("J-farm" +:+ t) = true) by (unfold ascii_only in *; simpl; exact Ht).
  rewrite H. simpl. eauto.
Qed.

(** X3. A farm whose name is one of the two protected ones, in any casing, is
    shown as K-farm or J-farm, with a numeric suffix if need be, and
    never under its name. *)
Theorem protected_name_not_shown (db : database)
    (aliases : list string) (a2i i2a : gmap string string) (real : string) :
  build_farm_alias_maps u db = Some (aliases, a2i, i2a) ->
  real ∈ farm_names db ->
  (lower u real = "magpantay" ->
   exists alias,
     i2a !! real = Some alias ∧ alias ∈ aliases ∧ alias ≠ real
     ∧ (alias = "K-farm" ∨ exists k, 2 <= k ∧ alias = suffixed "K-farm" k))
  ∧ (lower u real = "samabaco" ->
     exists alias,
       i2a !! real = Some alias ∧ alias ∈ aliases ∧ alias ≠ real
       ∧ (alias = "J-farm" ∨ exists k, 2 <= k ∧ alias = suffixed "J-farm" k)).
Proof.
  intros Hb Hreal.
  destruct (build_result u db) as (st & Hb' & _ & [Hinv _] & [_ Hkeys] & Hdom).
  pose proof Hb as Hb0. rewrite Hb' in Hb. injection Hb as <- <- <-.
  apply Hdom in Hreal as [alias Ha].
  assert (Hin : alias ∈ sorted_by (lower u) (alias_keys st)).
  { rewrite sorted_by_Permutation. apply Hkeys. apply Hinv in Ha. eauto. }
  pose proof (directory_shape db _ _ _ real alias Hb0 Ha) as Hshape.
  unfold alias_shape in Hshape.
  split; intros Hl.
  - rewrite (anonymize_magpantay real Hl) in Hshape.
    exists alias. split; [assumption|]. split; [assumption|]. split; [|exact Hshape].
    intros ->.
    assert (Ht : exists t, real = "K-farm" +:+ t ∧ ascii_only t = true).
    { destruct Hshape as [->|(k & _ & ->)].
      - exists "". split; reflexivity.
      - exists ("-" +:+ pretty k). split; [reflexivity|].
        pose proof (pretty_nat_ascii k) as Hk. unfold ascii_only in *. simpl. exact Hk. }
    destruct Ht as (t & -> & Ht). destruct (lower_K_farm t Ht) as [t' Hk].
    rewrite Hk in Hl. discriminate.
  - rewrite (anonymize_samabaco real Hl) in Hshape.
    exists alias. split; [assumption|]. split; [assumption|]. split; [|exact Hshape].
    intros ->.
    assert (Ht : exists t, real = "J-farm" +:+ t ∧ ascii_only t = true).
    { destruct Hshape as [->|(k & _ & ->)].
      - exists "". split; reflexivity.
      - exists ("-" +:+ pretty k). split; [reflexivity|].
        pose proof (pretty_nat_ascii k) as Hk. unfold ascii_only in *. simpl. exact Hk. }
    destruct Ht as (t & -> & Ht). destruct (lower_J_farm t Ht) as [t' Hk].
    rewrite Hk in Hl. discriminate.
Qed.

(** Where no two farm names have the same candidate, no suffix is made:
    every farm is shown under its anonymised name. *)
Lemma build_loop_plain (names : list string) (st : maps) :
  NoDup names ->
  (forall r, r ∈ names -> internal_to_alias st !! r = None) ->
  inverse (alias_to_internal st) (internal_to_alias st) ->
  (forall r a, internal_to_alias st !! r = Some a ->
     a = anonymize_farm_name u (Some r)) ->
  (forall r1 r2,
     (is_Some (internal_to_alias st !! r1) ∨ r1 ∈ names) ->
     (is_Some (internal_to_alias st !! r2) ∨ r2 ∈ names) ->
     anonymize_farm_name u (Some r1) = anonymize_farm_name u (Some r2) -> r1 = r2) ->
  exists st',
    build_loop u names st = Some st'
    ∧ forall r a, internal_to_alias st' !! r = Some a ->
        a = anonymize_farm_name u (Some r).
Proof.
  revert st. induction names as [|r names IH]; intros st Hnd Hnew Hinv Hplain Hinj.
  - exists st. split; [reflexivity|assumption].
  - apply NoDup_cons in Hnd as [Hr Hnd].
    assert (Hrnone : internal_to_alias st !! r = None)
      by (apply Hnew, elem_of_cons; auto).
    destruct (assign_fresh u st r Hinv Hrnone) as (alias & Heq & Hfree & Hcand).
    assert (Halias : alias = anonymize_farm_name u (Some r)).
    { destruct Hcand as [->|(k & _ & _ & [r' Hr'] & _)]; [reflexivity|].
      exfalso. apply Hinv in Hr'. pose proof (Hplain _ _ Hr') as Hc.
      assert (r' = r).
      { apply Hinj; [left; eauto|right; apply elem_of_cons; auto|].
        symmetry. exact Hc. }
      subst r'. congruence. }
    subst alias. simpl. rewrite Heq. simpl. apply IH; simpl.
    + assumption.
    + intros r' Hr'. rewrite lookup_insert_ne; [apply Hnew, elem_of_cons; auto|].
      intros ->. contradiction.
    + apply inverse_insert; assumption.
    + intros r' a. destruct (decide (r' = r)) as [->|Hne].
      * rewrite lookup_insert_eq. intros [= <-]. reflexivity.
      * rewrite lookup_insert_ne by congruence. apply Hplain.
    + intros r1 r2 H1 H2. apply Hinj.
      * destruct H1 as [H1|H1].
        -- destruct (decide (r1 = r)) as [->|Hne]; [right; apply elem_of_cons; auto|].
           rewrite lookup_insert_ne in H1 by congruence. auto.
        -- right. apply elem_of_cons. auto.
      * destruct H2 as [H2|H2].
        -- destruct (decide (r2 = r)) as [->|Hne]; [right; apply elem_of_cons; auto|].
           rewrite lookup_insert_ne in H2 by congruence. auto.
        -- right. apply elem_of_cons. auto.
Qed.

(** X4. When no two farms of the table are given the same name by the
    anonymisation, every farm is shown under that name, without a suffix,
    and the aliases are these names. *)
Theorem aliases_without_collision (db : database) :
  (forall r1 r2, r1 ∈ farm_names db -> r2 ∈ farm_names db ->
     anonymize_farm_name u (Some r1) = anonymize_farm_name u (Some r2) -> r1 = r2) ->
  exists aliases a2i i2a,
    build_farm_alias_maps u db = Some (aliases, a2i, i2a)
    ∧ (forall real, real ∈ farm_names db ->
         i2a !! real = Some (anonymize_farm_name u (Some real)))
    ∧ (forall alias, alias ∈ aliases <->
         exists real, real ∈ farm_names db
           ∧ alias = anonymize_farm_name u (Some real)).
Proof.
  intros Hinj.
  destruct (build_result u db) as (st & Hb & Hloop & [Hinv _] & [_ Hkeys] & Hdom).
  destruct (build_loop_plain (farm_names db) empty_maps (farm_names_NoDup db))
    as (st' & Hloop' & Hplain).
  - intros r _. apply lookup_empty.
  - intros a r. simpl. rewrite !lookup_empty. split; discriminate.
  - intros r a. simpl. rewrite lookup_empty. discriminate.
  - intros r1 r2 H1 H2. simpl in *. apply Hinj.
    + destruct H1 as [[x H1]|H1]; [rewrite lookup_empty in H1; discriminate|assumption].
    + destruct H2 as [[x H2]|H2]; [rewrite lookup_empty in H2; discriminate|assumption].
  - assert (st' = st) as -> by congruence.
    eexists _, _, _. split; [exact Hb|]. split.
    + intros real Hr. apply Hdom in Hr as [a Ha]. rewrite Ha. f_equal.
      apply Hplain. assumption.
    + intros alias. rewrite sorted_by_Permutation, Hkeys. split.
      * intros [real Hr]. apply Hinv in Hr. exists real. split; [apply Hdom; eauto|].
        apply Hplain. assumption.
      * intros (real & Hr & ->). apply Hdom in Hr as [a Ha].
        rewrite <- (Hplain _ _ Ha). apply Hinv in Ha. eauto.
Qed.
End AliasShape.

Section AliasStability.
Import Anonymizer Storage AliasDirectory Dashboard.
Variable u : string -> string.

(** X5. Farms whose names sort after all the others do not change the aliases
    of the others: the directory of the larger table extends the one of
    the smaller. *)
Theorem aliases_kept_by_later_names (db db' : database) (later : list string)
    (aliases aliases' : list string) (a2i i2a a2i' i2a' : gmap string string) :
  farm_names db' = (farm_names db ++ later)%list ->
  build_farm_alias_maps u db = Some (aliases, a2i, i2a) ->
  build_farm_alias_maps u db' = Some (aliases', a2i', i2a') ->
  (forall real alias, i2a !! real = Some alias -> i2a' !! real = Some alias)
  ∧ (forall alias real, a2i !! alias = Some real -> a2i' !! alias = Some real)
  ∧ (forall alias, alias ∈ aliases -> alias ∈ aliases').
Proof.
  intros Hnames Hb Hb'.
  destruct (build_result u db) as (st & Hst & Hloop & Hinv & Hkeys & Hdom).
  destruct (build_result u db') as (st' & Hst' & Hloop' & _ & Hkeys' & _).
  rewrite Hb in Hst. rewrite Hb' in Hst'.
  injection Hst as -> -> ->. injection Hst' as -> -> ->.
  rewrite Hnames, build_loop_app, Hloop in Hloop'. simpl in Hloop'.
  pose proof (farm_names_NoDup db') as Hnd. rewrite Hnames in Hnd.
  apply NoDup_app in Hnd as (_ & Hdisj & Hnd).
  destruct (build_loop_spec u later st Hnd) as (st2 & Hloop2 & _ & _ & Hki & Hka).
  - intros r Hr. destruct (internal_to_alias st !! r) eqn:E; [|reflexivity].
    exfalso. apply (Hdisj r); [|assumption]. apply Hdom. eauto.
  - assumption.
  - assert (st2 = st') as -> by congruence.
    split; [exact Hki|]. split; [exact Hka|].
    intros alias. rewrite !sorted_by_Permutation.
    destruct Hkeys as [_ Hk], Hkeys' as [_ Hk']. rewrite Hk, Hk'.
    intros [r Hr]. exists r. apply Hka. exact Hr.
Qed.
End AliasStability.

(** ** Counting *)

Section CountingFacts.
Import Storage.

Lemma count_distinct_mono {A} `{EqDecision A} (l k : list A) :
  (forall x, x ∈ l -> x ∈ k) -> count_distinct l <= count_distinct k.
Proof.
  intros Hsub. unfold count_distinct. apply submseteq_length, NoDup_submseteq.
  - apply NoDup_remove_dups.
  - intros x Hx. apply elem_of_remove_dups, Hsub, elem_of_remove_dups, Hx.
Qed.

Lemma count_distinct_le_length {A} `{EqDecision A} (l : list A) :
  count_distinct l <= length l.
Proof.
  unfold count_distinct. apply submseteq_length, NoDup_submseteq.
  - apply NoDup_remove_dups.
  - intros x Hx. apply elem_of_remove_dups, Hx.
Qed.

Lemma sum_list_with_add {A} (f g : A -> nat) (l : list A) :
  sum_list_with (λ x, f x + g x) l = sum_list_with f l + sum_list_with g l.
Proof. induction l as [|x l IH]; simpl; [reflexivity|]. rewrite IH. lia. Qed.

Lemma sum_list_with_ext {A} (f g : A -> nat) (l : list A) :
  (forall x, x ∈ l -> f x = g x) -> sum_list_with f l = sum_list_with g l.
Proof.
  induction l as [|x l IH]; intros H; simpl; [reflexivity|].
  rewrite (H x), IH; [reflexivity| |apply elem_of_cons; auto].
  intros y Hy. apply H, elem_of_cons. auto.
Qed.

Lemma sum_list_with_fmap {A B} (f : B -> nat) (g : A -> B) (l : list A) :
  sum_list_with f (map g l) = sum_list_with (λ x, f (g x)) l.
Proof. induction l as [|x l IH]; simpl; [reflexivity|]. rewrite IH. reflexivity. Qed.

Lemma sum_indicator {K} `{EqDecision K} (k0 : K) (ks : list K) :
  NoDup ks -> k0 ∈ ks ->
  sum_list_with (λ k, if decide (k0 = k) then 1 else 0) ks = 1.
Proof.
  induction 1 as [|k ks Hk Hnd IH]; intros Hin; [inversion Hin|]. simpl.
  destruct (decide (k0 = k)) as [->|Hne].
  - rewrite (sum_list_with_ext _ (λ _, 0)).
    + clear. induction ks; simpl; auto.
    + intros x Hx. destruct (decide (k = x)) as [->|]; [contradiction|reflexivity].
  - apply elem_of_cons in Hin as [?|Hin]; [contradiction|]. rewrite IH by assumption.
    reflexivity.
Qed.

(** Rows grouped by a key: the sizes of the groups add up. *)
Lemma group_sizes {A K} `{EqDecision K} (f : A -> K) (ks : list K) (l : list A) :
  NoDup ks -> (forall x, x ∈ l -> f x ∈ ks) ->
  sum_list_with (λ k, length (filter (λ x, f x = k) l)) ks = length l.
Proof.
  intros Hnd. induction l as [|x l IH]; intros Hcov.
  - simpl. clear. induction ks; simpl; auto.
  - rewrite (sum_list_with_ext _
       (λ k, (if decide (f x = k) then 1 else 0)
             + length (filter (λ x, f x = k) l))).
    + rewrite sum_list_with_add, sum_indicator, IH; try assumption.
      * reflexivity.
      * intros y Hy. apply Hcov, elem_of_cons. auto.
      * apply Hcov, elem_of_cons. auto.
    + intros k _. rewrite filter_cons. destruct (decide (f x = k)); reflexivity.
Qed.

Lemma remove_dups_filter_length {A} `{EqDecision A} (P : A -> Prop)
    `{forall x, Decision (P x)} (l : list A) :
  length (remove_dups (filter P l)) = length (filter P (remove_dups l)).
Proof.
  induction l as [|x l IH]; [reflexivity|].
  rewrite filter_cons. simpl remove_dups at 2.
  destruct (decide (P x)) as [Hx|Hx].
  - simpl remove_dups. destruct (decide_rel elem_of x (filter P l)) as [Hin|Hin];
      destruct (decide_rel elem_of x l) as [Hin'|Hin'].
    + exact IH.
    + exfalso. apply Hin'. apply list_elem_of_filter in Hin. tauto.
    + exfalso. apply Hin. apply list_elem_of_filter. auto.
    + rewrite filter_cons. destruct (decide (P x)); [|contradiction].
      simpl. rewrite IH. reflexivity.
  - destruct (decide_rel elem_of x l) as [Hin'|Hin']; [exact IH|].
    rewrite filter_cons. destruct (decide (P x)); [contradiction|exact IH].
Qed.
End CountingFacts.

(** ** Farms and their animals *)

Section HerdFacts.
Import Calendar Storage Aggregator Dashboard.

Lemma elem_of_farm_rows (db : database) (farm : string) (m : milk_yield) :
  m ∈ farm_rows db farm <->
  m ∈ milk_yields db
  ∧ exists a, a ∈ animals db ∧ m_ear_tag m = a_ear_tag a ∧ a_farm_name a = Some farm.
Proof.
  unfold farm_rows. rewrite list_elem_of_bind. split.
  - intros (m' & Hm & Hm'). apply list_elem_of_bind in Hm as (a & Hm & Ha).
    case_bool_decide as Hc; [|inversion Hm].
    apply list_elem_of_singleton in Hm as ->. destruct Hc. eauto.
  - intros (Hm & a & Ha & H1 & H2). exists m. split; [|assumption].
    apply list_elem_of_bind. exists a. split; [|assumption].
    rewrite bool_decide_eq_true_2 by auto. apply list_elem_of_singleton. reflexivity.
Qed.

Lemma elem_of_animal_rows (db : database) (tag : string) (m : milk_yield) :
  m ∈ animal_rows db tag <-> m ∈ milk_yields db ∧ m_ear_tag m = tag.
Proof. unfold animal_rows. rewrite list_elem_of_filter. tauto. Qed.

Lemma elem_of_load_animals (db : database) (farm : string) (r : string * option date) :
  r ∈ load_animals db farm <->
  exists a, a ∈ animals db ∧ a_farm_name a = Some farm
            ∧ r = (a_ear_tag a, a_birth_date a).
Proof.
  unfold load_animals. rewrite order_by_Permutation, list_elem_of_fmap. split.
  - intros (a & -> & Ha). apply list_elem_of_filter in Ha as [Hf Ha]. eauto.
  - intros (a & Ha & Hf & ->). exists a. split; [reflexivity|].
    apply list_elem_of_filter. auto.
Qed.

(** X6. The animals of a farm, as the page loads them: one row for each animal
    registered with the farm, by ascending ear tag. *)
Theorem load_animals_rows (db : database) (farm : string) :
  load_animals db farm
    ≡ₚ map (λ a, (a_ear_tag a, a_birth_date a))
         (filter (λ a, a_farm_name a = Some farm) (animals db))
  ∧ length (load_animals db farm)
    = length (filter (λ a, a_farm_name a = Some farm) (animals db))
  ∧ StronglySorted (λ r1 r2, String.leb r1.1 r2.1 = true) (load_animals db farm)
  ∧ (forall r, r ∈ load_animals db farm <->
       exists a, a ∈ animals db ∧ a_farm_name a = Some farm
                 ∧ r = (a_ear_tag a, a_birth_date a)).
Proof.
  split; [apply order_by_Permutation|]. split.
  - unfold load_animals. rewrite order_by_Permutation, length_map. reflexivity.
  - split; [|apply elem_of_load_animals].
    eapply StronglySorted_mono; [|apply order_by_sorted].
    + intros a b H. apply string_not_ltb_leb. exact H.
    + apply string_ltb_irrefl.
    + apply string_ltb_trans.
    + apply string_ltb_tricho.
Qed.

Lemma farm_rows_tags (db : database) (farm : string) (rows : list milk_yield) :
  (forall m, m ∈ rows -> m ∈ farm_rows db farm) ->
  count_distinct (map m_ear_tag rows) <= length (load_animals db farm).
Proof.
  intros Hsub.
  transitivity (count_distinct (map fst (load_animals db farm))).
  - apply count_distinct_mono. intros tag (m & -> & Hm)%list_elem_of_fmap.
    apply Hsub, elem_of_farm_rows in Hm as (_ & a & Ha & Ht & Hf).
    apply list_elem_of_fmap. exists (a_ear_tag a, a_birth_date a).
    split; [exact Ht|]. apply elem_of_load_animals. eauto.
  - rewrite <- (length_map fst (load_animals db farm)).
    apply count_distinct_le_length.
Qed.

(** X7. The cows of a year and the cows of a month are never more than the
    cows registered that the overview shows beside them. *)
Theorem cows_within_registered (db : database) (today : date) (farm : string)
    (s : farm_summary) :
  farm_yield_summary db today farm = Some s ->
  (forall e, e ∈ fs_year s -> fy_cows e <= length (load_animals db farm))
  ∧ (forall row, row ∈ fs_12mo s ->
       (1 <= t_sessions row <= Z.of_nat (length (load_animals db farm)))%Z).
Proof.
  intros (since & t & _ & Ht & ->)%farm_yield_summary_Some. simpl. split.
  - intros e He. unfold farm_year_breakdown in He.
    apply list_elem_of_fmap in He as (y & -> & _). simpl.
    apply farm_rows_tags. intros m Hm. apply list_elem_of_filter in Hm. tauto.
  - intros row Hrow.
    destruct (trend_months _ _ _ (monthly_cows_keys _) Ht) as [_ Hall].
    rewrite Forall_forall in Hall. destruct (Hall row Hrow) as (l & _ & _ & Hin).
    split; [eapply monthly_cows_pos; exact Hin|].
    unfold monthly_cows in Hin. apply list_elem_of_fmap in Hin as (k & [= _ ->] & _).
    apply inj_le. apply farm_rows_tags. intros m Hm.
    apply list_elem_of_filter in Hm as [_ Hm].
    unfold since_rows in Hm. apply list_elem_of_filter in Hm. tauto.
Qed.

Lemma animal_rows_in_farm (db : database) (farm tag : string) (a : animal) :
  a ∈ animals db -> a_ear_tag a = tag -> a_farm_name a = Some farm ->
  forall m, m ∈ animal_rows db tag -> m ∈ farm_rows db farm.
Proof.
  intros Ha Ht Hf m (Hm & Hmt)%elem_of_animal_rows.
  apply elem_of_farm_rows. split; [assumption|]. exists a. rewrite Hmt, Ht. auto.
Qed.

(** X8. What a cow's summary shows is within her farm's: her lactation days
    are at most the farm's, and her years and the months of her trend are
    years and months of the farm. *)
Theorem animal_within_farm (representable : date -> bool) (db : database)
    (today : date) (farm tag : string)
    (a : animal) (sa : animal_summary) (sf : farm_summary) :
  a ∈ animals db -> a_ear_tag a = tag -> a_farm_name a = Some farm ->
  animal_yield_summary representable db today tag = Some sa ->
  farm_yield_summary db today farm = Some sf ->
  as_days sa <= fs_days sf
  ∧ (forall y, y ∈ map ay_year (as_year sa) -> y ∈ map fy_year (fs_year sf))
  ∧ (forall k, k ∈ map t_month (as_12mo sa) -> k ∈ map t_month (fs_12mo sf)).
Proof.
  intros Ha Htag Hfarm
    (since & ta & Hs & Hta & ->)%animal_yield_summary_Some
    (since' & tf & Hs' & Htf & ->)%farm_yield_summary_Some.
  assert (since' = since) as -> by congruence. simpl.
  pose proof (animal_rows_in_farm db farm tag a Ha Htag Hfarm) as Hsub.
  split; [|split].
  - unfold lactation_days. apply count_distinct_mono.
    intros d (m & -> & Hm)%list_elem_of_fmap. apply list_elem_of_fmap. eauto.
  - unfold animal_year_breakdown, farm_year_breakdown. rewrite !map_map. simpl.
    rewrite !map_id. intros y (m & Hm & Hy)%elem_of_years.
    apply elem_of_years. eauto.
  - destruct (trend_months _ _ _ (monthly_records_keys _) Hta) as [-> _].
    destruct (trend_months _ _ _ (monthly_cows_keys _) Htf) as [-> _].
    intros k (m & Hm & Hk)%elem_of_months. apply elem_of_months. exists m.
    split; [|assumption]. unfold since_rows in *.
    apply list_elem_of_filter in Hm as [Hw Hm]. apply list_elem_of_filter. auto.
Qed.
End HerdFacts.

(** ** Days, years and sessions *)

Section DayCounts.
Import Calendar Storage Aggregator.
Variable representable : date -> bool.

Lemma toordinal_inj (a b : date) :
  valid_date a = true -> valid_date b = true ->
  toordinal a = toordinal b -> a = b.
Proof.
  intros Ha Hb Heq. apply date_ltb_tricho.
  - destruct (date_ltb a b) eqn:E; [|reflexivity].
    pose proof (toordinal_mono _ _ Ha Hb E). lia.
  - destruct (date_ltb b a) eqn:E; [|reflexivity].
    pose proof (toordinal_mono _ _ Hb Ha E). lia.
Qed.

Lemma distinct_in_range (l : list Z) (lo hi : Z) :
  NoDup l -> (lo <= hi)%Z -> (forall x, x ∈ l -> (lo <= x <= hi)%Z) ->
  (Z.of_nat (length l) <= hi - lo + 1)%Z.
Proof.
  intros Hnd Hlh Hin.
  assert (Hsub : l ⊆+ seqZ lo (hi - lo + 1)).
  { apply NoDup_submseteq; [assumption|]. intros x Hx. apply elem_of_seqZ.
    specialize (Hin x Hx). lia. }
  apply submseteq_length in Hsub. rewrite length_seqZ in Hsub. lia.
Qed.

Lemma lactation_days_span (rows : list milk_yield) (d0 d1 : date) :
  (forall m, m ∈ rows -> valid_date (record_date m) = true) ->
  d0 ∈ map record_date rows -> d1 ∈ map record_date rows ->
  (forall d, d ∈ map record_date rows -> date_leb d0 d = true) ->
  (forall d, d ∈ map record_date rows -> date_leb d d1 = true) ->
  (Z.of_nat (lactation_days rows) <= toordinal d1 - toordinal d0 + 1)%Z.
Proof.
  intros Hv H0 H1 Hlo Hhi.
  assert (Hvd : forall d, d ∈ map record_date rows -> valid_date d = true).
  { intros d (m & -> & Hm)%list_elem_of_fmap. auto. }
  unfold lactation_days, count_distinct.
  rewrite <- (length_map toordinal). apply distinct_in_range.
  - apply NoDup_fmap_2_strong; [|apply NoDup_remove_dups].
    intros a b Ha Hb. rewrite elem_of_remove_dups in Ha, Hb.
    apply toordinal_inj; auto.
  - apply toordinal_le_iff; auto.
  - intros x (d & -> & Hd)%list_elem_of_fmap. rewrite elem_of_remove_dups in Hd.
    split; apply toordinal_le_iff; auto.
Qed.

(** X9. A cow's lactation days are never more than her duration, when her
    record dates are days of the calendar; with a record she has at least
    one lactation day. *)
Theorem lactation_within_duration (db : database) (today : date)
    (ear_tag : string) (s : animal_summary) :
  animal_yield_summary representable db today ear_tag = Some s ->
  (forall m, m ∈ animal_rows db ear_tag -> valid_date (record_date m) = true) ->
  (Z.of_nat (as_days s) <= as_duration s)%Z
  ∧ (animal_rows db ear_tag ≠ [] -> 1 <= as_days s)
  ∧ (animal_rows db ear_tag = [] -> as_days s = 0 ∧ as_duration s = 0%Z).
Proof.
  intros (since & t & _ & _ & ->)%animal_yield_summary_Some Hv. simpl.
  split; [|split].
  - destruct (decide (animal_rows db ear_tag = [])) as [->|Hne]; [reflexivity|].
    assert (Hne' : map record_date (animal_rows db ear_tag) ≠ [])
      by (intros H%fmap_nil_inv; auto).
    destruct (sql_min_date_spec _ Hne') as (d0 & E0 & Hin0 & Hle0).
    destruct (sql_max_date_spec _ Hne') as (d1 & E1 & Hin1 & Hle1).
    unfold duration_days, to_date. rewrite E0, E1. simpl.
    destruct (valid_date d0 && representable d0); [|reflexivity].
    destruct (valid_date d1 && representable d1); [|reflexivity].
    apply lactation_days_span; assumption.
  - intros Hne. apply count_distinct_pos. intros H%fmap_nil_inv. auto.
  - intros ->. split; reflexivity.
Qed.

Lemma map_in_year (rows : list milk_yield) (y : Z) :
  (forall m, m ∈ rows -> record_year m = year (record_date m)) ->
  map record_date (in_year y rows)
  = filter (λ d, year d = y) (map record_date rows).
Proof.
  unfold in_year. induction rows as [|m rows IH]; intros H; [reflexivity|].
  simpl map. rewrite !filter_cons.
  rewrite (H m) by (apply elem_of_cons; auto).
  destruct (decide (year (record_date m) = y)); simpl; rewrite IH; auto;
    intros m' Hm'; apply H, elem_of_cons; auto.
Qed.

Lemma years_NoDup (rows : list milk_yield) : NoDup (years rows).
Proof.
  apply distinct_sorted_NoDup;
    [apply Z.ltb_irrefl|apply Z_ltb_trans|apply Z_ltb_tricho].
Qed.

Lemma year_days_total (rows : list milk_yield) :
  (forall m, m ∈ rows -> record_year m = year (record_date m)) ->
  sum_list_with (λ y, count_distinct (map record_date (in_year y rows)))
    (years rows)
  = lactation_days rows.
Proof.
  intros H. unfold lactation_days, count_distinct.
  rewrite <- (group_sizes year (years rows) (remove_dups (map record_date rows))).
  - apply sum_list_with_ext. intros y _. rewrite map_in_year by assumption.
    apply remove_dups_filter_length.
  - apply years_NoDup.
  - intros d Hd. rewrite elem_of_remove_dups in Hd.
    apply list_elem_of_fmap in Hd as (m & -> & Hm).
    apply elem_of_years. exists m. split; [assumption|]. apply H, Hm.
Qed.

(** X10. With [record_year] the year of [record_date] on every record, the
    days of the yearly breakdown add up to the lactation days, for a farm
    and for a cow. *)
Theorem yearly_days_add_up (db : database) (today : date) :
  (forall m, m ∈ milk_yields db -> record_year m = year (record_date m)) ->
  (forall farm s, farm_yield_summary db today farm = Some s ->
     sum_list_with fy_days (fs_year s) = fs_days s)
  ∧ (forall ear_tag s,
       animal_yield_summary representable db today ear_tag = Some s ->
       sum_list_with ay_days (as_year s) = as_days s).
Proof.
  intros H. split.
  - intros farm s (since & t & _ & _ & ->)%farm_yield_summary_Some. simpl.
    unfold farm_year_breakdown. rewrite sum_list_with_fmap. simpl.
    apply year_days_total. intros m Hm. apply H.
    apply elem_of_farm_rows in Hm. tauto.
  - intros tag s (since & t & _ & _ & ->)%animal_yield_summary_Some. simpl.
    unfold animal_year_breakdown. rewrite sum_list_with_fmap. simpl.
    apply year_days_total. intros m Hm. apply H.
    apply elem_of_animal_rows in Hm. tauto.
Qed.

(** X11. The yearly breakdown has one entry for each year with a record of the
    scope, by ascending year. *)
Theorem year_breakdown_order (db : database) (today : date) :
  (forall farm s, farm_yield_summary db today farm = Some s ->
     StronglySorted Z.lt (map fy_year (fs_year s))
     ∧ forall y, y ∈ map fy_year (fs_year s)
                 <-> exists m, m ∈ farm_rows db farm ∧ record_year m = y)
  ∧ (forall ear_tag s,
       animal_yield_summary representable db today ear_tag = Some s ->
       StronglySorted Z.lt (map ay_year (as_year s))
       ∧ forall y, y ∈ map ay_year (as_year s)
                   <-> exists m, m ∈ animal_rows db ear_tag ∧ record_year m = y).
Proof.
  split.
  - intros farm s (since & t & _ & _ & ->)%farm_yield_summary_Some. simpl.
    unfold farm_year_breakdown. rewrite map_map. simpl. rewrite map_id.
    split; [|intros y; apply elem_of_years].
    eapply StronglySorted_mono; [|apply years_sorted].
    intros a b E. apply Z.ltb_lt, E.
  - intros tag s (since & t & _ & _ & ->)%animal_yield_summary_Some. simpl.
    unfold animal_year_breakdown. rewrite map_map. simpl. rewrite map_id.
    split; [|intros y; apply elem_of_years].
    eapply StronglySorted_mono; [|apply years_sorted].
    intros a b E. apply Z.ltb_lt, E.
Qed.

Lemma sum_sessions_groups (g : ym -> nat) (t : list trend) :
  Forall (λ row, t_sessions row = Z.of_nat (g (t_month row))) t ->
  sum_sessions t = Z.of_nat (sum_list_with g (map t_month t)).
Proof.
  induction 1 as [|row t Hrow _ IH]; [reflexivity|].
  simpl. unfold sum_sessions in *. simpl. rewrite IH, Hrow. lia.
Qed.

Lemma sessions_of_records (recent : list milk_yield) (t : list trend) :
  trend_frame (monthly_liters recent) (monthly_records recent) = Some t ->
  sum_sessions t = Z.of_nat (length recent).
Proof.
  intros Ht.
  destruct (trend_months _ _ _ (monthly_records_keys _) Ht) as [Hm Hall].
  rewrite (sum_sessions_groups (λ k, length (in_month k recent))).
  - rewrite Hm. f_equal.
    apply (group_sizes (λ m, month_of (record_date m))); [apply months_NoDup|].
    intros m Hin. apply elem_of_months. eauto.
  - eapply Forall_impl; [exact Hall|]. intros row (l & _ & _ & Hin). simpl.
    unfold monthly_records in Hin.
    apply list_elem_of_fmap in Hin as (k & [= -> ->] & _). reflexivity.
Qed.

(** X12. The sessions of a cow's trend add up to the number of her records
    that are not older than 365 days. *)
Theorem animal_sessions_add_up (db : database) (today : date)
    (ear_tag : string) (s : animal_summary) :
  animal_yield_summary representable db today ear_tag = Some s ->
  exists since,
    sub_days today 365 = Some since
    ∧ sum_sessions (as_12mo s)
      = Z.of_nat (length (since_rows since (animal_rows db ear_tag))).
Proof.
  intros (since & t & Hs & Ht & ->)%animal_yield_summary_Some. simpl.
  exists since. split; [assumption|]. apply sessions_of_records, Ht.
Qed.
End DayCounts.

(** ** The cow view *)

Section CowView.
Import Calendar Storage Aggregator Dashboard.
Variable representable : date -> bool.

Lemma StronglySorted_map {A B} (R : B -> B -> Prop) (f : A -> B) (l : list A) :
  StronglySorted (λ a b, R (f a) (f b)) l -> StronglySorted R (map f l).
Proof.
  induction 1 as [|x l Hs IH Hx]; simpl; constructor; [assumption|].
  apply Forall_fmap. exact Hx.
Qed.

Lemma filter_length_mono {A} (P Q : A -> Prop) `{forall x, Decision (P x)}
    `{forall x, Decision (Q x)} (l : list A) :
  (forall x, x ∈ l -> P x -> Q x) -> length (filter P l) <= length (filter Q l).
Proof.
  induction l as [|x l IH]; intros HPQ; [reflexivity|].
  assert (IH' : length (filter P l) <= length (filter Q l)).
  { apply IH. intros y Hy. apply HPQ, elem_of_cons. auto. }
  rewrite !filter_cons. destruct (decide (P x)) as [HP|HP].
  - rewrite decide_True by (apply HPQ; [apply elem_of_cons; auto|exact HP]).
    simpl. lia.
  - destruct (decide (Q x)); simpl; lia.
Qed.

Lemma windows_nested (today s180 s365 : date) :
  valid_date today = true ->
  sub_days today 180 = Some s180 -> sub_days today 365 = Some s365 ->
  date_leb s365 s180 = true.
Proof.
  intros Hv H180 H365.
  destruct (sub_days_spec _ _ _ Hv H180) as [V180 O180].
  destruct (sub_days_spec _ _ _ Hv H365) as [V365 O365].
  apply toordinal_le_iff; [assumption|assumption|lia].
Qed.

Lemma sub_days_180 (today s365 : date) :
  valid_date today = true ->
  sub_days today 365 = Some s365 -> exists s180, sub_days today 180 = Some s180.
Proof.
  intros Hv. pose proof (toordinal_bounds _ Hv) as B. unfold sub_days.
  destruct ((0 <? toordinal today - 365)%Z
            && (toordinal today - 365 <=? _MAXORDINAL)%Z) eqn:E; [|discriminate].
  intros _. apply andb_true_iff in E as [E1 E2].
  replace ((0 <? toordinal today - 180)%Z
           && (toordinal today - 180 <=? _MAXORDINAL)%Z) with true; [eauto|].
  symmetry. apply andb_true_iff. split.
  - apply Z.ltb_lt. apply Z.ltb_lt in E1. lia.
  - apply Z.leb_le. lia.
Qed.

Lemma six_month_rows (db : database) (today since : date) (cow : string) :
  sub_days today 180 = Some since ->
  exists rows,
    six_month_detail db today cow = Some rows
    ∧ rows ≡ₚ map (λ m, (record_date m, yield_value m))
                (since_rows since (animal_rows db cow))
    ∧ StronglySorted (λ r1 r2, date_leb r1.1 r2.1 = true) rows.
Proof.
  intros Hs. unfold six_month_detail. rewrite Hs. simpl. eexists.
  split; [reflexivity|]. split.
  - apply fmap_Permutation, order_by_Permutation.
  - apply StronglySorted_map. simpl.
    eapply StronglySorted_mono; [|apply order_by_sorted].
    + intros a b E. unfold date_leb. rewrite E. reflexivity.
    + apply date_ltb_irrefl.
    + apply date_ltb_trans.
    + apply date_ltb_tricho.
Qed.

(** X13. The six-month detail of a cow whose summary is shown: her records that
    are not older than 180 days, by ascending date; they are records of
    the trailing twelve months too, so they are not more than the sessions
    of the trend, and the month of each is a month of the trend. *)
Theorem six_month_detail_rows (db : database) (today : date) (cow : string)
    (s : animal_summary) :
  valid_date today = true ->
  animal_yield_summary representable db today cow = Some s ->
  exists since rows,
    sub_days today 180 = Some since
    ∧ six_month_detail db today cow = Some rows
    ∧ (forall r, r ∈ rows <->
         exists m, m ∈ milk_yields db ∧ m_ear_tag m = cow
                   ∧ date_leb since (record_date m) = true
                   ∧ r = (record_date m, yield_value m))
    ∧ length rows = length (since_rows since (animal_rows db cow))
    ∧ StronglySorted (λ r1 r2, date_leb r1.1 r2.1 = true) rows
    ∧ (Z.of_nat (length rows) <= sum_sessions (as_12mo s))%Z
    ∧ (forall r, r ∈ rows -> month_of r.1 ∈ map t_month (as_12mo s)).
Proof.
  intros Hv (s365 & t & H365 & Ht & ->)%animal_yield_summary_Some. simpl.
  destruct (sub_days_180 _ _ Hv H365) as [since H180].
  destruct (six_month_rows db today since cow H180) as (rows & Hd & Hp & Hsorted).
  pose proof (windows_nested _ _ _ Hv H180 H365) as Hnest.
  destruct (trend_months _ _ _ (monthly_records_keys _) Ht) as [Hm Hall].
  assert (Hin : forall r, r ∈ rows <->
            exists m, m ∈ milk_yields db ∧ m_ear_tag m = cow
                      ∧ date_leb since (record_date m) = true
                      ∧ r = (record_date m, yield_value m)).
  { intros r. rewrite Hp, list_elem_of_fmap. unfold since_rows. split.
    - intros (m & -> & Hin). apply list_elem_of_filter in Hin as [Hw Hin].
      apply elem_of_animal_rows in Hin as [Hin Htag]. eauto.
    - intros (m & Hin & Htag & Hw & ->). exists m. split; [reflexivity|].
      apply list_elem_of_filter. split; [assumption|].
      apply elem_of_animal_rows. auto. }
  assert (Hlen : length rows = length (since_rows since (animal_rows db cow))).
  { rewrite Hp, length_map. reflexivity. }
  exists since, rows. split; [assumption|]. split; [assumption|].
  split; [assumption|]. split; [assumption|]. split; [assumption|]. split.
  - rewrite (sessions_of_records _ _ Ht), Hlen. apply inj_le.
    unfold since_rows. apply filter_length_mono. intros m _ Hw.
    eapply date_leb_trans; eassumption.
  - intros r (m & Hin' & Htag & Hw & ->)%Hin. simpl. rewrite Hm.
    apply elem_of_months. exists m. split; [|reflexivity].
    apply list_elem_of_filter. split.
    + eapply date_leb_trans; eassumption.
    + apply elem_of_animal_rows. auto.
Qed.

Lemma filter_key_unique {A K} `{EqDecision K} (f : A -> K) (k : K) (l : list A) :
  NoDup (map f l) -> length (filter (λ x, f x = k) l) <= 1.
Proof.
  induction l as [|x l IH]; intros Hnd; [simpl; lia|].
  simpl in Hnd. apply NoDup_cons in Hnd as [Hx Hnd]. rewrite filter_cons.
  destruct (decide (f x = k)) as [<-|Hne]; [|auto].
  simpl. destruct (filter (λ y, f y = f x) l) as [|y l'] eqn:E; [simpl; lia|].
  exfalso. apply Hx.
  assert (Hy : y ∈ filter (λ y, f y = f x) l) by (rewrite E; apply elem_of_cons; auto).
  apply list_elem_of_filter in Hy as [<- Hy]. apply list_elem_of_fmap. eauto.
Qed.

(** X14. The birth date shown for a cow of the selector is the one of her
    animal row, when the ear tags of the farm's animals are all
    different; for an ear tag that is not of the farm the lookup fails. *)
Theorem cow_birth_lookup (db : database) (farm cow : string) :
  NoDup (map a_ear_tag (filter (λ a, a_farm_name a = Some farm) (animals db))) ->
  (cow ∈ cow_options (load_animals db farm) -> cow ≠ PICK_COW ->
   exists a, a ∈ animals db ∧ a_farm_name a = Some farm ∧ a_ear_tag a = cow
             ∧ birth_of (load_animals db farm) cow = Some (a_birth_date a))
  ∧ (cow ∉ map fst (load_animals db farm) ->
     birth_of (load_animals db farm) cow = None).
Proof.
  intros Hnd.
  assert (Hp : load_animals db farm
               ≡ₚ map (λ a, (a_ear_tag a, a_birth_date a))
                    (filter (λ a, a_farm_name a = Some farm) (animals db)))
    by apply order_by_Permutation.
  assert (Hone : length (filter (λ r, r.1 = cow) (load_animals db farm)) <= 1).
  { apply filter_key_unique. rewrite Hp, map_map. simpl. exact Hnd. }
  unfold birth_of. split.
  - intros Hin Hne. unfold cow_options in Hin.
    apply elem_of_cons in Hin as [?|Hin]; [contradiction|].
    apply list_elem_of_fmap in Hin as (r & -> & Hr).
    assert (Hf : r ∈ filter (λ r0, r0.1 = r.1) (load_animals db farm))
      by (apply list_elem_of_filter; auto).
    destruct (filter (λ r0, r0.1 = r.1) (load_animals db farm)) as [|r1 [|r2 l]];
      [inversion Hf| |simpl in Hone; lia].
    apply list_elem_of_singleton in Hf as <-.
    apply elem_of_load_animals in Hr as (a & Ha & Hfarm & ->). simpl. eauto.
  - intros Hnot.
    destruct (filter (λ r, r.1 = cow) (load_animals db farm)) as [|r1 [|r2 l]] eqn:E;
      [reflexivity| |reflexivity].
    exfalso. apply Hnot.
    assert (Hf : r1 ∈ filter (λ r, r.1 = cow) (load_animals db farm))
      by (rewrite E; apply elem_of_cons; auto).
    apply list_elem_of_filter in Hf as [<- Hf]. apply list_elem_of_fmap. eauto.
Qed.

(** X15. The age in months: a dash without a birth date; else the days since
    the birth, divided by 30 and rounded down, which is negative for a
    birth after today. *)
Theorem age_months_bounds (today : date) (birth : date) :
  valid_date today = true -> valid_date birth = true ->
  representable birth = true ->
  age_months representable today None = Some None
  ∧ exists q,
      age_months representable today (Some birth) = Some (Some q)
      ∧ (30 * q <= toordinal today - toordinal birth < 30 * q + 30)%Z
      ∧ ((0 <= q)%Z <-> date_leb birth today = true).
Proof.
  intros Hv Hb Hr. split; [reflexivity|].
  exists ((toordinal today - toordinal birth) / 30)%Z. split.
  - unfold age_months, to_date. simpl. rewrite Hb, Hr. reflexivity.
  - rewrite (toordinal_le_iff _ _ Hb Hv).
    split; [|split]; intros; Z.to_euclidean_division_equations; lia.
Qed.
(** X16. A cow of the farm without any yield record is offered by the selector
    and her summary is computed, but the Avg Daily metric of her header
    raises: the average is a missing value, which has no [.1f] format. *)
Theorem cow_without_records_header (db : database) (today : date)
    (farm : string) (a : animal) :
  valid_date today = true -> (2 <= year today)%Z ->
  a ∈ animals db -> a_farm_name a = Some farm -> a_ear_tag a ≠ PICK_COW ->
  (forall m, m ∈ milk_yields db -> m_ear_tag m ≠ a_ear_tag a) ->
  a_ear_tag a ∈ cow_options (load_animals db farm)
  ∧ exists s,
      animal_yield_summary representable db today (a_ear_tag a) = Some s
      ∧ avg_daily_metric (as_stats s) = None.
Proof.
  intros Hv Hy Ha Hfarm _ Hnone. split.
  - unfold cow_options. apply elem_of_cons. right. apply list_elem_of_fmap.
    exists (a_ear_tag a, a_birth_date a). split; [reflexivity|].
    apply elem_of_load_animals. eauto.
  - assert (Hrows : animal_rows db (a_ear_tag a) = []).
    { destruct (animal_rows db (a_ear_tag a)) as [|m l] eqn:E; [reflexivity|].
      assert (Hm : m ∈ animal_rows db (a_ear_tag a))
        by (rewrite E; apply elem_of_cons; auto).
      apply elem_of_animal_rows in Hm as [Hm Htag].
      destruct (Hnone m Hm Htag). }
    unfold animal_yield_summary. rewrite (sub_days_365 today Hv Hy), Hrows.
    eexists. split; reflexivity.
Qed.
End CowView.

(** ** The records of a farm, cow by cow *)

Section JoinFacts.
Import Calendar Storage Aggregator Dashboard.





End JoinFacts.

(** ** The months of a trend *)

Section TrendLength.
Import Calendar Storage Aggregator.
Variable representable : date -> bool.
Local Open Scope Z_scope.

Lemma ym_index_mono (a b : date) :
  1 <= month a <= 12 -> 1 <= month b <= 12 ->
  date_leb a b = true -> ym_index (month_of a) <= ym_index (month_of b).
Proof.
  unfold date_leb, date_ltb, ym_index, month_of. simpl. lia.
Qed.

Lemma ym_index_inj (a b : ym) :
  1 <= a.2 <= 12 -> 1 <= b.2 <= 12 -> ym_index a = ym_index b -> a = b.
Proof.
  destruct a as [y m], b as [y' m']. unfold ym_index. simpl. intros Ha Hb H.
  assert (y = y') by lia. subst. f_equal. lia.
Qed.

Lemma valid_month (d : date) : valid_date d = true -> 1 <= month d <= 12.
Proof. unfold valid_date. lia. Qed.

Lemma year_apart (y m d m' d' : Z) :
  valid_date (mkDate y m d) = true -> valid_date (mkDate (y + 1) m' d') = true ->
  m < m' ->
  365 < _ymd2ord (y + 1) m' d' - _ymd2ord y m d.
Proof.
  unfold valid_date, _ymd2ord, _days_in_month, _days_before_month. simpl.
  intros H H' Hlt. rewrite days_before_year_succ.
  assert (Hm : 1 <= m <= 12) by lia. assert (Hm' : 1 <= m' <= 12) by lia.
  destruct (_is_leap y); destruct (_is_leap (y + 1));
    destruct (month_cases m Hm) as [->|[->|[->|[->|[->|[->|[->|[->|[->|[->|[->| ->]]]]]]]]]]];
    destruct (month_cases m' Hm') as [->|[->|[->|[->|[->|[->|[->|[->|[->|[->|[->| ->]]]]]]]]]]];
    simpl in *; lia.
Qed.

Lemma window_months (a b : date) :
  valid_date a = true -> valid_date b = true ->
  toordinal b - toordinal a <= 365 ->
  ym_index (month_of b) <= ym_index (month_of a) + 12.
Proof.
  destruct a as [y m d], b as [y' m' d']. intros Ha Hb Hd.
  unfold ym_index, month_of. simpl.
  pose proof (valid_month _ Ha) as Hm. pose proof (valid_month _ Hb) as Hm'.
  simpl in Hm, Hm'.
  destruct (Z_le_gt_dec (12 * y' + m') (12 * y + m + 12)) as [|Hgt]; [lia|exfalso].
  unfold toordinal, _ymd2ord in Hd. simpl in Hd.
  pose proof (day_of_year_bounds _ _ _ Ha) as Ba.
  pose proof (day_of_year_bounds _ _ _ Hb) as Bb.
  destruct (Z_le_gt_dec (y + 2) y') as [Hy|Hy].
  - pose proof (days_before_year_succ y) as S1.
    pose proof (days_before_year_succ (y + 1)) as S2.
    pose proof (days_before_year_mono (y + 1 + 1) y' ltac:(lia)) as Hmono.
    destruct (_is_leap y), (_is_leap (y + 1)); lia.
  - assert (y' = y + 1) by lia. subst y'.
    pose proof (year_apart y m d m' d' Ha Hb ltac:(lia)) as H.
    unfold _ymd2ord in H. lia.
Qed.

Lemma months_at_most_13 (today since : date) (rows : list milk_yield) :
  valid_date today = true ->
  sub_days today 365 = Some since ->
  (forall m, m ∈ rows ->
     valid_date (record_date m) = true ∧ date_leb (record_date m) today = true) ->
  (length (months (since_rows since rows)) <= 13)%nat.
Proof.
  intros Hv Hs Hrows.
  destruct (sub_days_spec _ _ _ Hv Hs) as [Hvs Hord].
  pose proof (window_months since today Hvs Hv ltac:(lia)) as Hw.
  assert (Hlen : Z.of_nat (length (map ym_index (months (since_rows since rows))))
                 <= ym_index (month_of since) + 12 - ym_index (month_of since) + 1).
  { apply distinct_in_range.
    - apply NoDup_fmap_2_strong; [|apply months_NoDup].
      intros a b (ma & Hma & <-)%elem_of_months (mb & Hmb & <-)%elem_of_months.
      apply list_elem_of_filter in Hma as [_ Hma], Hmb as [_ Hmb].
      apply ym_index_inj; apply valid_month; apply Hrows; assumption.
    - lia.
    - intros x (k & -> & (m & Hm & <-)%elem_of_months)%list_elem_of_fmap.
      apply list_elem_of_filter in Hm as [Hsince Hm].
      destruct (Hrows m Hm) as [Hvm Htoday].
      pose proof (ym_index_mono _ _ (valid_month _ Hvs) (valid_month _ Hvm) Hsince).
      pose proof (ym_index_mono _ _ (valid_month _ Hvm) (valid_month _ Hv) Htoday).
      lia. }
  rewrite length_map in Hlen. lia.
Qed.

(** X18. With no record dated after today, a trend has at most 13 rows: the
    365 days before today reach into 13 calendar months, not 12. *)
Theorem trend_at_most_13_months (db : database) (today : date) :
  valid_date today = true ->
  (forall m, m ∈ milk_yields db ->
     valid_date (record_date m) = true ∧ date_leb (record_date m) today = true) ->
  (forall farm s, farm_yield_summary db today farm = Some s ->
     (length (fs_12mo s) <= 13)%nat)
  ∧ (forall ear_tag s,
       animal_yield_summary representable db today ear_tag = Some s ->
       (length (as_12mo s) <= 13)%nat).
Proof.
  intros Hv Hrows. split.
  - intros farm s (since & t & Hs & Ht & ->)%farm_yield_summary_Some. simpl.
    destruct (trend_months _ _ _ (monthly_cows_keys _) Ht) as [Hm _].
    rewrite <- (length_map t_month), Hm.
    apply (months_at_most_13 today); [assumption|assumption|].
    intros m Hm'. apply Hrows. apply elem_of_farm_rows in Hm'. tauto.
  - intros tag s (since & t & Hs & Ht & ->)%animal_yield_summary_Some. simpl.
    destruct (trend_months _ _ _ (monthly_records_keys _) Ht) as [Hm _].
    rewrite <- (length_map t_month), Hm.
    apply (months_at_most_13 today); [assumption|assumption|].
    intros m Hm'. apply Hrows. apply elem_of_animal_rows in Hm'. tauto.
Qed.
End TrendLength.

(** ** The theorems at the examples *)

Lemma aliases_case_insensitive_order_witness :
  exists a2i i2a,
    AliasDirectory.build_farm_alias_maps id example_directory_db
    = Some (["J-farm"; "K-farm"; "K-farm-2"], a2i, i2a)
    ∧ StronglySorted
        (λ a b, String.leb (Anonymizer.lower id a) (Anonymizer.lower id b) = true)
        ["J-farm"; "K-farm"; "K-farm-2"].
Proof.
  assert (H : (λ r, r.1.1)
                <$> AliasDirectory.build_farm_alias_maps id example_directory_db
              = Some ["J-farm"; "K-farm"; "K-farm-2"]) by (vm_compute; reflexivity).
  destruct (AliasDirectory.build_farm_alias_maps id example_directory_db)
    as [[[aliases a2i] i2a]|] eqn:E; [|discriminate H].
  injection H as ->. exists a2i, i2a. split; [reflexivity|].
  exact (aliases_case_insensitive_order id example_directory_db _ a2i i2a E).
Defined.

Lemma selected_farm_round_trip_witness :
  exists a2i i2a real,
    AliasDirectory.build_farm_alias_maps id example_directory_db
    = Some (["J-farm"; "K-farm"; "K-farm-2"], a2i, i2a)
    ∧ Dashboard.selected_farm id example_directory_db "K-farm-2" = Some (Some real)
    ∧ i2a !! real = Some "K-farm-2"
    ∧ Dashboard.selected_farm id example_directory_db Dashboard.PICK_FARM = Some None.
Proof.
  assert (H : (λ r, r.1.1)
                <$> AliasDirectory.build_farm_alias_maps id example_directory_db
              = Some ["J-farm"; "K-farm"; "K-farm-2"]) by (vm_compute; reflexivity).
  destruct (AliasDirectory.build_farm_alias_maps id example_directory_db)
    as [[[aliases a2i] i2a]|] eqn:E; [|discriminate H].
  injection H as ->.
  destruct (selected_farm_round_trip id example_directory_db _ a2i i2a E)
    as (Hchoice & _ & Hstop).
  destruct (Hchoice "K-farm-2") as (real & Hsel & _ & _ & Hreal).
  - unfold Dashboard.farm_options. rewrite !elem_of_cons. auto.
  - discriminate.
  - exists a2i, i2a, real. split; [reflexivity|]. auto.
Defined.

Lemma protected_name_not_shown_witness :
  exists aliases a2i i2a alias,
    AliasDirectory.build_farm_alias_maps id example_directory_db
    = Some (aliases, a2i, i2a)
    ∧ i2a !! "magpantay" = Some alias ∧ alias ∈ aliases ∧ alias ≠ "magpantay"
    ∧ (alias = "K-farm" ∨ exists k, 2 <= k ∧ alias = AliasDirectory.suffixed "K-farm" k).
Proof.
  assert (H : is_Some (AliasDirectory.build_farm_alias_maps id example_directory_db)).
  { destruct (AliasDirectory.build_farm_alias_maps id example_directory_db) eqn:E;
      [eauto|]. exfalso.
    assert (H : (λ r, r.1.1)
                  <$> AliasDirectory.build_farm_alias_maps id example_directory_db
                = Some ["J-farm"; "K-farm"; "K-farm-2"]) by (vm_compute; reflexivity).
    rewrite E in H. discriminate H. }
  destruct H as [[[aliases a2i] i2a] E].
  destruct (protected_name_not_shown id example_directory_db aliases a2i i2a
              "magpantay" E) as [Hk _].
  - assert (Hn : AliasDirectory.farm_names example_directory_db
                 = ["K-farm"; "Samabaco"; "magpantay"]) by (vm_compute; reflexivity).
    rewrite Hn, !elem_of_cons. auto.
  - destruct Hk as (alias & Hk); [vm_compute; reflexivity|].
    exists aliases, a2i, i2a, alias. split; [exact E|]. exact Hk.
Defined.

Lemma aliases_without_collision_witness :
  exists aliases a2i i2a,
    AliasDirectory.build_farm_alias_maps id example_herd_db = Some (aliases, a2i, i2a)
    ∧ i2a !! "Samabaco" = Some "J-farm"
    ∧ i2a !! "Rivera" = Some "Rivera".
Proof.
  assert (Hn : AliasDirectory.farm_names example_herd_db = ["Rivera"; "Samabaco"])
    by (vm_compute; reflexivity).
  destruct (aliases_without_collision id example_herd_db)
    as (aliases & a2i & i2a & Hb & Hreal & _).
  - rewrite Hn. intros r1 r2 H1 H2.
    rewrite !elem_of_cons in H1, H2.
    destruct H1 as [->|[->|H1]]; [| |inversion H1];
      (destruct H2 as [->|[->|H2]]; [| |inversion H2]);
      try reflexivity; vm_compute; discriminate.
  - exists aliases, a2i, i2a. split; [exact Hb|]. split.
    + rewrite (Hreal "Samabaco") by (rewrite Hn, !elem_of_cons; auto).
      vm_compute. reflexivity.
    + rewrite (Hreal "Rivera") by (rewrite Hn, !elem_of_cons; auto).
      vm_compute. reflexivity.
Defined.

Lemma cows_within_registered_witness :
  let today := Calendar.mkDate 2025 1 14 in
  exists s,
    Aggregator.farm_yield_summary example_farm_db today "Rivera" = Some s
    ∧ length (Dashboard.load_animals example_farm_db "Rivera") = 2
    ∧ (forall e, e ∈ Aggregator.fs_year s ->
         Aggregator.fy_cows e
         <= length (Dashboard.load_animals example_farm_db "Rivera"))
    ∧ (forall row, row ∈ Aggregator.fs_12mo s ->
         (1 <= Aggregator.t_sessions row
          <= Z.of_nat (length (Dashboard.load_animals example_farm_db "Rivera")))%Z).
Proof.
  intros today.
  pose (s := Aggregator.mkFarmSummary 22.5 1
               [Aggregator.mkFarmYear 2024 22.5 1 2 22.5]
               [Aggregator.mkTrend (2024, 1)%Z 22 2]).
  assert (Hs : Aggregator.farm_yield_summary example_farm_db today "Rivera" = Some s)
    by (vm_compute; reflexivity).
  exists s. split; [exact Hs|]. split; [vm_compute; reflexivity|].
  exact (cows_within_registered example_farm_db today "Rivera" s Hs).
Defined.

Lemma animal_within_farm_witness :
  let today := Calendar.mkDate 2023 7 1 in
  exists sa sf,
    Aggregator.animal_yield_summary (λ _, true) example_animal_db today "PH-201"
    = Some sa
    ∧ Aggregator.farm_yield_summary example_animal_db today "Rivera" = Some sf
    ∧ Aggregator.as_days sa <= Aggregator.fs_days sf
    ∧ (forall y, y ∈ map Aggregator.ay_year (Aggregator.as_year sa) ->
         y ∈ map Aggregator.fy_year (Aggregator.fs_year sf))
    ∧ (forall k, k ∈ map Aggregator.t_month (Aggregator.as_12mo sa) ->
         k ∈ map Aggregator.t_month (Aggregator.fs_12mo sf)).
Proof.
  intros today.
  pose (sa := Aggregator.mkAnimalSummary 12 2 3
                [Aggregator.mkAnimalYear 2023 12 2 6]
                [Aggregator.mkTrend (2023, 6)%Z 12 2]
                (Aggregator.mkStats (Some 6%float) (Some 7%float) (Some 5%float))).
  pose (sf := Aggregator.mkFarmSummary 12 2
                [Aggregator.mkFarmYear 2023 12 2 1 6]
                [Aggregator.mkTrend (2023, 6)%Z 12 1]).
  assert (Ha : Aggregator.animal_yield_summary (λ _, true) example_animal_db today
                 "PH-201" = Some sa) by (vm_compute; reflexivity).
  assert (Hf : Aggregator.farm_yield_summary example_animal_db today "Rivera"
               = Some sf) by (vm_compute; reflexivity).
  exists sa, sf. split; [exact Ha|]. split; [exact Hf|].
  apply (animal_within_farm (λ _, true) example_animal_db today "Rivera" "PH-201"
           (Storage.mkAnimal "PH-201" None (Some "Rivera")) sa sf).
  - apply list_elem_of_singleton. reflexivity.
  - reflexivity.
  - reflexivity.
  - exact Ha.
  - exact Hf.
Defined.

Lemma lactation_within_duration_witness :
  let today := Calendar.mkDate 2023 7 1 in
  exists s,
    Aggregator.animal_yield_summary (λ _, true) example_animal_db today "PH-201"
    = Some s
    ∧ Aggregator.as_days s = 2 ∧ Aggregator.as_duration s = 3%Z
    ∧ (Z.of_nat (Aggregator.as_days s) <= Aggregator.as_duration s)%Z.
Proof.
  intros today.
  pose (s := Aggregator.mkAnimalSummary 12 2 3
               [Aggregator.mkAnimalYear 2023 12 2 6]
               [Aggregator.mkTrend (2023, 6)%Z 12 2]
               (Aggregator.mkStats (Some 6%float) (Some 7%float) (Some 5%float))).
  assert (Hs : Aggregator.animal_yield_summary (λ _, true) example_animal_db today
                 "PH-201" = Some s) by (vm_compute; reflexivity).
  exists s. split; [exact Hs|]. split; [reflexivity|]. split; [reflexivity|].
  apply (lactation_within_duration (λ _, true) example_animal_db today "PH-201" s Hs).
  intros m Hm.
  change (m ∈ [Storage.mkYield "PH-201" (Calendar.mkDate 2023 6 1) 2023 5%float;
               Storage.mkYield "PH-201" (Calendar.mkDate 2023 6 3) 2023 7%float]) in Hm.
  rewrite !elem_of_cons in Hm.
  destruct Hm as [->|[->|Hm]]; [vm_compute; reflexivity|vm_compute; reflexivity|].
  inversion Hm.
Defined.

Lemma yearly_days_add_up_witness :
  let today := Calendar.mkDate 2023 7 1 in
  exists s,
    Aggregator.animal_yield_summary (λ _, true) example_animal_db today "PH-201"
    = Some s
    ∧ sum_list_with Aggregator.ay_days (Aggregator.as_year s) = Aggregator.as_days s.
Proof.
  intros today.
  pose (s := Aggregator.mkAnimalSummary 12 2 3
               [Aggregator.mkAnimalYear 2023 12 2 6]
               [Aggregator.mkTrend (2023, 6)%Z 12 2]
               (Aggregator.mkStats (Some 6%float) (Some 7%float) (Some 5%float))).
  assert (Hs : Aggregator.animal_yield_summary (λ _, true) example_animal_db today
                 "PH-201" = Some s) by (vm_compute; reflexivity).
  exists s. split; [exact Hs|].
  apply (proj2 (yearly_days_add_up (λ _, true) example_animal_db today
                  ltac:(intros m Hm;
                        change (m ∈ [Storage.mkYield "PH-201" (Calendar.mkDate 2023 6 1) 2023 5%float;
                                     Storage.mkYield "PH-201" (Calendar.mkDate 2023 6 3) 2023 7%float]) in Hm;
                        rewrite !elem_of_cons in Hm;
                        destruct Hm as [->|[->|Hm]];
                          [reflexivity|reflexivity|inversion Hm]))
           "PH-201" s Hs).
Defined.

Lemma year_breakdown_order_witness :
  let today := Calendar.mkDate 2025 1 14 in
  exists s,
    Aggregator.farm_yield_summary example_farm_db today "Rivera" = Some s
    ∧ map Aggregator.fy_year (Aggregator.fs_year s) = [2024%Z]
    ∧ StronglySorted Z.lt (map Aggregator.fy_year (Aggregator.fs_year s)).
Proof.
  intros today.
  pose (s := Aggregator.mkFarmSummary 22.5 1
               [Aggregator.mkFarmYear 2024 22.5 1 2 22.5]
               [Aggregator.mkTrend (2024, 1)%Z 22 2]).
  assert (Hs : Aggregator.farm_yield_summary example_farm_db today "Rivera" = Some s)
    by (vm_compute; reflexivity).
  exists s. split; [exact Hs|]. split; [reflexivity|].
  exact (proj1 (proj1 (year_breakdown_order (λ _, true) example_farm_db today)
                  "Rivera" s Hs)).
Defined.

Lemma animal_sessions_add_up_witness :
  let today := Calendar.mkDate 2023 7 1 in
  exists s since,
    Aggregator.animal_yield_summary (λ _, true) example_animal_db today "PH-201"
    = Some s
    ∧ Calendar.sub_days today 365 = Some since
    ∧ sum_sessions (Aggregator.as_12mo s) = 2%Z
    ∧ sum_sessions (Aggregator.as_12mo s)
      = Z.of_nat (length (Storage.since_rows since
                            (Storage.animal_rows example_animal_db "PH-201"))).
Proof.
  intros today.
  pose (s := Aggregator.mkAnimalSummary 12 2 3
               [Aggregator.mkAnimalYear 2023 12 2 6]
               [Aggregator.mkTrend (2023, 6)%Z 12 2]
               (Aggregator.mkStats (Some 6%float) (Some 7%float) (Some 5%float))).
  assert (Hs : Aggregator.animal_yield_summary (λ _, true) example_animal_db today
                 "PH-201" = Some s) by (vm_compute; reflexivity).
  destruct (animal_sessions_add_up (λ _, true) example_animal_db today "PH-201" s Hs)
    as (since & Hsince & Hsum).
  exists s, since. split; [exact Hs|]. split; [exact Hsince|].
  split; [reflexivity|exact Hsum].
Defined.

Lemma six_month_detail_rows_witness :
  let today := Calendar.mkDate 2023 7 1 in
  exists s rows,
    Aggregator.animal_yield_summary (λ _, true) example_animal_db today "PH-201"
    = Some s
    ∧ Dashboard.six_month_detail example_animal_db today "PH-201" = Some rows
    ∧ rows = [(Calendar.mkDate 2023 6 1, 5%float); (Calendar.mkDate 2023 6 3, 7%float)]
    ∧ (Z.of_nat (length rows) <= sum_sessions (Aggregator.as_12mo s))%Z
    ∧ (forall r, r ∈ rows ->
         Calendar.month_of r.1 ∈ map Aggregator.t_month (Aggregator.as_12mo s)).
Proof.
  intros today.
  pose (s := Aggregator.mkAnimalSummary 12 2 3
               [Aggregator.mkAnimalYear 2023 12 2 6]
               [Aggregator.mkTrend (2023, 6)%Z 12 2]
               (Aggregator.mkStats (Some 6%float) (Some 7%float) (Some 5%float))).
  assert (Hs : Aggregator.animal_yield_summary (λ _, true) example_animal_db today
                 "PH-201" = Some s) by (vm_compute; reflexivity).
  assert (Hd : Dashboard.six_month_detail example_animal_db today "PH-201"
               = Some [(Calendar.mkDate 2023 6 1, 5%float);
                       (Calendar.mkDate 2023 6 3, 7%float)])
    by (vm_compute; reflexivity).
  destruct (six_month_detail_rows (λ _, true) example_animal_db today "PH-201" s
              ltac:(vm_compute; reflexivity) Hs)
    as (since & rows & _ & Hrows & _ & _ & _ & Hle & Hmonths).
  exists s, rows. split; [exact Hs|]. split; [exact Hrows|].
  split; [congruence|]. split; [exact Hle|exact Hmonths].
Defined.

Lemma cow_birth_lookup_witness :
  (exists a,
     Storage.a_ear_tag a = "PH-301"
     ∧ Dashboard.birth_of (Dashboard.load_animals example_herd_db "Rivera") "PH-301"
       = Some (Storage.a_birth_date a))
  ∧ Dashboard.birth_of (Dashboard.load_animals example_herd_db "Rivera") "PH-401"
    = None.
Proof.
  assert (Htags : map fst (Dashboard.load_animals example_herd_db "Rivera")
                  = ["PH-301"; "PH-302"]) by (vm_compute; reflexivity).
  assert (Hnd : NoDup (map Storage.a_ear_tag
                         (filter (λ a, Storage.a_farm_name a = Some "Rivera")
                            (Storage.animals example_herd_db)))).
  { apply (bool_decide_unpack _). vm_compute. exact I. }
  split.
  - destruct (proj1 (cow_birth_lookup example_herd_db "Rivera" "PH-301" Hnd))
      as (a & _ & _ & Htag & Hbirth).
    + unfold Dashboard.cow_options. rewrite Htags, !elem_of_cons. auto.
    + discriminate.
    + exists a. split; assumption.
  - apply (proj2 (cow_birth_lookup example_herd_db "Rivera" "PH-401" Hnd)).
    rewrite Htags, !elem_of_cons. intros [H|[H|H]]; [discriminate|discriminate|].
    inversion H.
Defined.

Lemma age_months_bounds_witness :
  let today := Calendar.mkDate 2023 7 1 in
  let birth := Calendar.mkDate 2020 3 1 in
  Dashboard.age_months (λ _, true) today (Some birth) = Some (Some 40%Z)
  ∧ exists q,
      Dashboard.age_months (λ _, true) today (Some birth) = Some (Some q)
      ∧ (30 * q <= Calendar.toordinal today - Calendar.toordinal birth < 30 * q + 30)%Z
      ∧ ((0 <= q)%Z <-> Calendar.date_leb birth today = true).
Proof.
  intros today birth. split; [vm_compute; reflexivity|].
  apply (age_months_bounds (λ _, true) today birth); vm_compute; reflexivity.
Defined.

Lemma cow_without_records_header_witness :
  let today := Calendar.mkDate 2023 7 1 in
  let a := Storage.mkAnimal "PH-302" None (Some "Rivera") in
  "PH-302" ∈ Dashboard.cow_options (Dashboard.load_animals example_herd_db "Rivera")
  ∧ exists s,
      Aggregator.animal_yield_summary (λ _, true) example_herd_db today "PH-302"
      = Some s
      ∧ Dashboard.avg_daily_metric (Aggregator.as_stats s) = None.
Proof.
  intros today a.
  apply (cow_without_records_header (λ _, true) example_herd_db today "Rivera" a).
  - vm_compute. reflexivity.
  - simpl. lia.
  - unfold example_herd_db. simpl. rewrite !elem_of_cons. auto.
  - reflexivity.
  - discriminate.
  - intros m Hm. inversion Hm.
Defined.

(** With records the metric is a text: the average of the second example,
    6.0 litres. *)
Example avg_daily_metric_example :
  (λ s, Dashboard.avg_daily_metric (Aggregator.as_stats s))
    <$> Aggregator.animal_yield_summary (λ _, true) example_animal_db
          (Calendar.mkDate 2023 7 1) "PH-201"
  = Some (Some "6.0").
Proof. vm_compute. reflexivity. Qed.


Lemma trend_at_most_13_months_witness :
  let today := Calendar.mkDate 2025 1 14 in
  exists s,
    Aggregator.farm_yield_summary example_year_db today "Rivera" = Some s
    ∧ length (Aggregator.fs_12mo s) = 13
    ∧ length (Aggregator.fs_12mo s) <= 13.
Proof.
  intros today.
  assert (H : (λ s, length (Aggregator.fs_12mo s))
                <$> Aggregator.farm_yield_summary example_year_db today "Rivera"
              = Some 13) by (vm_compute; reflexivity).
  destruct (Aggregator.farm_yield_summary example_year_db today "Rivera")
    as [s|] eqn:E; [|discriminate H].
  injection H as H. exists s. split; [reflexivity|]. split; [exact H|].
  refine (proj1 (trend_at_most_13_months (λ _, true) example_year_db today _ _)
            "Rivera" s E).
  - vm_compute. reflexivity.
  - apply Forall_forall. apply (bool_decide_unpack _). vm_compute. exact I.
Defined.

Lemma aliases_kept_by_later_names_witness :
  let db := Storage.mkDb [Storage.mkAnimal "PH-001" None (Some "Samabaco")] [] in
  let db' := Storage.mkDb [Storage.mkAnimal "PH-001" None (Some "Samabaco");
                           Storage.mkAnimal "PH-002" None (Some "magpantay")] [] in
  exists aliases' a2i' i2a',
    AliasDirectory.build_farm_alias_maps id db' = Some (aliases', a2i', i2a')
    ∧ i2a' !! "Samabaco" = Some "J-farm"
    ∧ a2i' !! "J-farm" = Some "Samabaco".
Proof.
  intros db db'.
  destruct (AliasDirectory.build_farm_alias_maps id db)
    as [[[aliases a2i] i2a]|] eqn:E.
  - destruct (AliasDirectory.build_farm_alias_maps id db')
      as [[[aliases' a2i'] i2a']|] eqn:E'.
    + destruct (aliases_kept_by_later_names id db db' ["magpantay"]
                  aliases aliases' a2i i2a a2i' i2a'
                  ltac:(vm_compute; reflexivity) E E') as (Hi & Ha & _).
      exists aliases', a2i', i2a'. split; [reflexivity|]. split.
      * apply Hi.
        assert (H : (λ r, r.2 !! "Samabaco")
                      <$> AliasDirectory.build_farm_alias_maps id db
                    = Some (Some "J-farm")) by (vm_compute; reflexivity).
        rewrite E in H. injection H as H. exact H.
      * apply Ha.
        assert (H : (λ r, r.1.2 !! "J-farm")
                      <$> AliasDirectory.build_farm_alias_maps id db
                    = Some (Some "Samabaco")) by (vm_compute; reflexivity).
        rewrite E in H. injection H as H. exact H.
    + exfalso.
      assert (H : is_Some ((λ r, r.1.1)
                             <$> AliasDirectory.build_farm_alias_maps id db'))
        by (vm_compute; eauto).
      rewrite E' in H. destruct H as [? H]. discriminate H.
  - exfalso.
    assert (H : is_Some ((λ r, r.1.1)
                           <$> AliasDirectory.build_farm_alias_maps id db))
      by (vm_compute; eauto).
    rewrite E in H. destruct H as [? H]. discriminate H.
Defined.

(** A farm whose name sorts before takes the alias over: alone, the
    protected farm is shown as K-farm; beside a farm that is really named
    K-farm it is shown as K-farm-2. *)
Example alias_taken_over :
  (λ r, r.2 !! "magpantay")
    <$> AliasDirectory.build_farm_alias_maps id
          (Storage.mkDb [Storage.mkAnimal "PH-001" None (Some "magpantay")] [])
  = Some (Some "K-farm")
  ∧ (λ r, r.2 !! "magpantay")
      <$> AliasDirectory.build_farm_alias_maps id
            (Storage.mkDb [Storage.mkAnimal "PH-001" None (Some "magpantay");
                           Storage.mkAnimal "PH-002" None (Some "K-farm")] [])
    = Some (Some "K-farm-2").
Proof. split; vm_compute; reflexivity. Qed.
